(** * t_cose: the short-circuit signature verifier and the signer interface

    A shallow embedding of [t_cose_signature_verify_short.c] and of the
    abstract signer declared in [t_cose/t_cose_signature_sign.h], together
    with the COSE_Sign1 engines, the header parameter model and the CBOR
    wire format that the round-trip and size-calculation properties talk
    about, and of the test runner [run_tests.c] with the test of
    [t_cose_austere_test.c].

    Conventions.  A byte is a [Z] in [0, 256).  A C function that calls
    into QCBOR, into the crypto adaptation layer or into another t_cose
    module is a computation in the monad [M]: it threads the state of the
    CBOR decoder or encoder and appends one [event] to a call log for
    every such call, so that "this step is skipped" is a statement about
    the log.  Early returns and [goto Done] are the branches of the
    conditionals. *)

From Stdlib Require Import ZArith List Bool Lia.
From Stdlib Require String Ascii DecimalString DecimalPos DecimalN DecimalZ.
Import ListNotations.
Open Scope Z_scope.

(* ================================================================== *)
(** * Byte buffers: [struct q_useful_buf_c]                            *)
(* ================================================================== *)

(** A pointer and a length; [NULL_Q_USEFUL_BUF_C] is the buffer with a
    null pointer and length zero. *)
Inductive q_useful_buf_c : Type :=
| NULL_Q_USEFUL_BUF_C
| UsefulBufC (bytes : list Z).

Definition ub_bytes (b : q_useful_buf_c) : list Z :=
  match b with
  | NULL_Q_USEFUL_BUF_C => []
  | UsefulBufC l => l
  end.

Definition ub_len (b : q_useful_buf_c) : Z := Z.of_nat (length (ub_bytes b)).

Definition q_useful_buf_c_is_null (b : q_useful_buf_c) : bool :=
  match b with
  | NULL_Q_USEFUL_BUF_C => true
  | UsefulBufC _ => false
  end.

(** [memcmp] over two runs of the same length: zero when they agree, the
    difference of the first two bytes that differ otherwise. *)
Fixpoint memcmp (l1 l2 : list Z) : Z :=
  match l1, l2 with
  | a :: l1', b :: l2' => if a =? b then memcmp l1' l2' else a - b
  | _, _ => 0
  end.

(** QCBOR's [UsefulBuf_Compare], which [q_useful_buf_compare] forwards
    to: the lengths are compared first, then the bytes. *)
Definition q_useful_buf_compare (b1 b2 : q_useful_buf_c) : Z :=
  if ub_len b1 <? ub_len b2 then -1
  else if ub_len b1 >? ub_len b2 then 1
  else memcmp (ub_bytes b1) (ub_bytes b2).

(* ================================================================== *)
(** * Error codes                                                      *)
(* ================================================================== *)

(** [enum t_cose_err_t].  [T_COSE_SUCCESS] is the zero of the enum, so
    the C test [if(return_value)] reads [is_error return_value]. *)
Inductive t_cose_err_t : Type :=
| T_COSE_SUCCESS
| T_COSE_ERR_UNSUPPORTED_SIGNING_ALG
| T_COSE_ERR_SIG_VERIFY_FAIL
| T_COSE_ERR_HASH_GENERAL_FAIL
| T_COSE_ERR_SIG_BUFFER_TOO_SMALL
| T_COSE_ERR_SIGN1_FORMAT
| T_COSE_ERR_SIGN_FORMAT
| T_COSE_ERR_CBOR_DECODE
| T_COSE_ERR_CBOR_NOT_WELL_FORMED
| T_COSE_ERR_MISSING_PAYLOAD
| T_COSE_ERR_NO_SIGNATURES
| T_COSE_ERR_DUPLICATE_PARAMETER
| T_COSE_ERR_UNKNOWN_CRITICAL_PARAMETER
| T_COSE_ERR_TOO_MANY_PARAMETERS
| T_COSE_ERR_PARAMETER_TYPE
| T_COSE_ERR_NO_VERIFIER_FOR_ALG
| T_COSE_ERR_KID_UNMATCHED
| T_COSE_ERR_ENCODE_BUFFER_TOO_SMALL
| T_COSE_ERR_TBS_TOO_LARGE
| T_COSE_ERR_TAG_REQUIRED
| T_COSE_ERR_TAG_PROHIBITED
| T_COSE_ERR_DECLINE.

Definition t_cose_err_eqb (a b : t_cose_err_t) : bool :=
  match a, b with
  | T_COSE_SUCCESS, T_COSE_SUCCESS
  | T_COSE_ERR_UNSUPPORTED_SIGNING_ALG, T_COSE_ERR_UNSUPPORTED_SIGNING_ALG
  | T_COSE_ERR_SIG_VERIFY_FAIL, T_COSE_ERR_SIG_VERIFY_FAIL
  | T_COSE_ERR_HASH_GENERAL_FAIL, T_COSE_ERR_HASH_GENERAL_FAIL
  | T_COSE_ERR_SIG_BUFFER_TOO_SMALL, T_COSE_ERR_SIG_BUFFER_TOO_SMALL
  | T_COSE_ERR_SIGN1_FORMAT, T_COSE_ERR_SIGN1_FORMAT
  | T_COSE_ERR_SIGN_FORMAT, T_COSE_ERR_SIGN_FORMAT
  | T_COSE_ERR_CBOR_DECODE, T_COSE_ERR_CBOR_DECODE
  | T_COSE_ERR_CBOR_NOT_WELL_FORMED, T_COSE_ERR_CBOR_NOT_WELL_FORMED
  | T_COSE_ERR_MISSING_PAYLOAD, T_COSE_ERR_MISSING_PAYLOAD
  | T_COSE_ERR_NO_SIGNATURES, T_COSE_ERR_NO_SIGNATURES
  | T_COSE_ERR_DUPLICATE_PARAMETER, T_COSE_ERR_DUPLICATE_PARAMETER
  | T_COSE_ERR_UNKNOWN_CRITICAL_PARAMETER, T_COSE_ERR_UNKNOWN_CRITICAL_PARAMETER
  | T_COSE_ERR_TOO_MANY_PARAMETERS, T_COSE_ERR_TOO_MANY_PARAMETERS
  | T_COSE_ERR_PARAMETER_TYPE, T_COSE_ERR_PARAMETER_TYPE
  | T_COSE_ERR_NO_VERIFIER_FOR_ALG, T_COSE_ERR_NO_VERIFIER_FOR_ALG
  | T_COSE_ERR_KID_UNMATCHED, T_COSE_ERR_KID_UNMATCHED
  | T_COSE_ERR_ENCODE_BUFFER_TOO_SMALL, T_COSE_ERR_ENCODE_BUFFER_TOO_SMALL
  | T_COSE_ERR_TBS_TOO_LARGE, T_COSE_ERR_TBS_TOO_LARGE
  | T_COSE_ERR_TAG_REQUIRED, T_COSE_ERR_TAG_REQUIRED
  | T_COSE_ERR_TAG_PROHIBITED, T_COSE_ERR_TAG_PROHIBITED
  | T_COSE_ERR_DECLINE, T_COSE_ERR_DECLINE => true
  | _, _ => false
  end.

Definition is_error (e : t_cose_err_t) : bool := negb (t_cose_err_eqb e T_COSE_SUCCESS).

(** QCBOR's [QCBORError]; [QCBOR_SUCCESS] is zero. *)
Definition QCBORError := Z.
Definition QCBOR_SUCCESS : QCBORError := 0.

(* ================================================================== *)
(** * Header parameters                                                *)
(* ================================================================== *)

Inductive param_label : Type :=
| LabelInt (n : Z)
| LabelText (s : list Z).

Inductive param_value : Type :=
| ValInt (n : Z)
| ValBstr (b : list Z)
| ValTstr (s : list Z)
| ValBool (b : bool).

(** Modelled from the spec: [struct t_cose_parameter] is declared in
    t_cose/t_cose_parameters.h, which is not among the sources.  Section 3
    of the specification gives a header parameter a label (an integer or
    a text string), a value and the bucket it lives in; the flag that
    marks it critical is the one the [crit] array is made of.  A linked
    list of them is a [list]. *)
Record t_cose_parameter : Type := {
  label : param_label;
  value : param_value;
  in_protected : bool;
  critical : bool
}.

(** [struct t_cose_header_location]: where in the message a bucket of
    headers was found. *)
Record t_cose_header_location : Type := {
  nesting : Z;
  index : Z
}.

(** Modelled from the spec: [struct t_cose_parameter_storage] is declared
    in t_cose/t_cose_parameters.h, which is not among the sources.
    Section 4.6 makes it a caller-provided pool of fixed capacity that
    holds the decoded parameters. *)
Record t_cose_parameter_storage : Type := {
  storage_size : nat;
  storage : list t_cose_parameter
}.

(* ================================================================== *)
(** * What the verifier's translation unit imports                     *)
(* ================================================================== *)

(** The spiffy-decode entry points of QCBOR that the verifier calls.
    QCBOR is a library of its own; the decoder is an abstract state with
    the four operations.  [QCBORDecode_EnterArray] is always called with
    a null item pointer, so it only moves the decoder. *)
Class QCBORDecoder : Type := {
  QCBORDecodeContext : Type;
  QCBORDecode_EnterArray : QCBORDecodeContext -> QCBORDecodeContext;
  QCBORDecode_GetByteString : QCBORDecodeContext -> QCBORDecodeContext * q_useful_buf_c;
  QCBORDecode_ExitArray : QCBORDecodeContext -> QCBORDecodeContext;
  QCBORDecode_GetError : QCBORDecodeContext -> QCBORError
}.

(** The crypto adaptation layer of Section 4.3 as t_cose sees it: the key
    type, which algorithm identifiers are reserved for short-circuit
    signing, and the primitives of the crypto library.  The adapter and
    the library are not among the sources; the primitives are parameters.
    [adapter_hash] is the digest of a whole byte string: a hash context
    that is started, updated and finished digests the concatenation of
    the updates. *)
Class CryptoAdapter : Type := {
  t_cose_key : Type;
  T_COSE_NULL_KEY : t_cose_key;
  t_cose_algorithm_is_short_circuit : Z -> bool;
  adapter_hash : Z -> list Z -> option (list Z);
  (* algorithm, key, hash or to-be-signed bytes *)
  adapter_sign : Z -> t_cose_key -> q_useful_buf_c -> t_cose_err_t * q_useful_buf_c;
  (* algorithm, key, kid, hash or to-be-signed bytes, signature *)
  adapter_verify :
    Z -> t_cose_key -> q_useful_buf_c -> q_useful_buf_c -> q_useful_buf_c -> t_cose_err_t;
  adapter_sig_size : Z -> t_cose_key -> t_cose_err_t * Z
}.

(** The constants and functions that t_cose_signature_verify_short.c
    takes from t_cose_common.h, t_cose_parameters.h, t_cose_util.h and
    t_cose_signature_sign_short.h.  None of those files is among the
    sources, so each is a parameter of the development. *)
Class Imports `{QCBORDecoder} `{CryptoAdapter} : Type := {
  T_COSE_OPT_DECODE_ONLY : Z;
  T_COSE_CRYPTO_MAX_HASH_SIZE : Z;
  t_cose_header_reader : Type;
  reader_context : Type;
  t_cose_find_parameter_alg_id : list t_cose_parameter -> Z;
  t_cose_find_parameter_kid : list t_cose_parameter -> q_useful_buf_c;
  get_short_circuit_kid : q_useful_buf_c;
  (* algorithm, protected body headers, protected signature headers,
     aad, payload, size of the buffer for the hash *)
  create_tbs_hash :
    Z -> q_useful_buf_c -> q_useful_buf_c -> q_useful_buf_c -> q_useful_buf_c -> Z ->
    t_cose_err_t * q_useful_buf_c;
  (* decoder, location, custom reader and its context, storage, the
     list [*decoded_parameters] on entry; gives back the decoder, the
     storage, the list on exit and the protected headers as encoded *)
  t_cose_headers_decode :
    QCBORDecodeContext -> t_cose_header_location ->
    option t_cose_header_reader -> option reader_context ->
    t_cose_parameter_storage -> list t_cose_parameter ->
    t_cose_err_t * QCBORDecodeContext * t_cose_parameter_storage *
    list t_cose_parameter * q_useful_buf_c;
  qcbor_decode_error_to_t_cose_error : QCBORError -> t_cose_err_t -> t_cose_err_t
}.

(** Modelled from the spec: [t_cose_crypto_verify] lives in the crypto
    adapter, which is not among the sources.  Section 4.3: the
    short-circuit mode, enabled by the short-circuit algorithm
    identifier, replaces verify with a bytewise compare of the signature
    with the hash; any other algorithm goes to the crypto library. *)
Definition t_cose_crypto_verify `{CryptoAdapter}
    (cose_algorithm_id : Z) (verification_key : t_cose_key)
    (kid hash_to_verify signature : q_useful_buf_c) : t_cose_err_t :=
  if t_cose_algorithm_is_short_circuit cose_algorithm_id then
    if q_useful_buf_compare signature hash_to_verify =? 0
    then T_COSE_SUCCESS
    else T_COSE_ERR_SIG_VERIFY_FAIL
  else adapter_verify cose_algorithm_id verification_key kid hash_to_verify signature.

(** Modelled from the spec: [t_cose_crypto_sign] lives in the crypto
    adapter, which is not among the sources.  Section 4.3: the
    short-circuit mode replaces sign with "return the TBS hash as the
    signature". *)
Definition t_cose_crypto_sign `{CryptoAdapter}
    (cose_algorithm_id : Z) (signing_key : t_cose_key)
    (hash_to_sign : q_useful_buf_c) : t_cose_err_t * q_useful_buf_c :=
  if t_cose_algorithm_is_short_circuit cose_algorithm_id then
    (T_COSE_SUCCESS, hash_to_sign)
  else adapter_sign cose_algorithm_id signing_key hash_to_sign.

(* ================================================================== *)
(** * The call log and the monad                                       *)
(* ================================================================== *)

Inductive event : Type :=
| Ev_find_parameter_alg_id
| Ev_find_parameter_kid
| Ev_kid_compare (kid : q_useful_buf_c)
| Ev_create_tbs_hash (alg : Z) (protected_body protected_sig aad payload : q_useful_buf_c)
| Ev_crypto_verify (alg : Z) (kid tbs_hash signature : q_useful_buf_c)
| Ev_EnterArray
| Ev_headers_decode
| Ev_GetByteString
| Ev_ExitArray
| Ev_GetError
| Ev_decode_error_to_t_cose_error (e : QCBORError)
| Ev_h_callback
| Ev_merge_parameters
| Ev_sign_callback
| Ev_AddTag
| Ev_OpenArray
| Ev_protected_headers
| Ev_unprotected_headers
| Ev_payload
| Ev_CloseArray
| Ev_PeekNext
| Ev_GetNext
| Ev_Finish
| Ev_verify1_callback (n : nat).

Record world (S : Type) : Type := {
  codec : S;
  log : list event
}.
Arguments codec {S} _.
Arguments log {S} _.

(** A computation over a CBOR codec state [S] (a decoder or an encoder)
    and the call log. *)
Definition M (S A : Type) : Type := world S -> A * world S.

Definition ret {S A : Type} (a : A) : M S A := fun w => (a, w).

Definition bind {S A B : Type} (m : M S A) (k : A -> M S B) : M S B :=
  fun w => let (a, w') := m w in k a w'.

Declare Scope tc_scope.
Delimit Scope tc_scope with tc.
Notation "x <- m ;; k" := (bind m (fun x => k))
  (at level 100, m at next level, right associativity) : tc_scope.
Notation "m ;;; k" := (bind m (fun _ => k))
  (at level 100, right associativity) : tc_scope.
Open Scope tc_scope.

(** A call that does not touch the codec: log it, give its result. *)
Definition call {S A : Type} (e : event) (a : A) : M S A :=
  fun w => (a, {| codec := codec w; log := log w ++ [e] |}).

(** A call on the codec: log it and run it on the codec state. *)
Definition on_codec {S A : Type} (e : event) (f : S -> A * S) : M S A :=
  fun w => let (a, d) := f (codec w) in
           (a, {| codec := d; log := log w ++ [e] |}).

(** Run a computation from a codec state and an empty log. *)
Definition run {S A : Type} (m : M S A) (d : S) : A * world S :=
  m {| codec := d; log := [] |}.

(* ================================================================== *)
(** * t_cose_signature_verify_short.c                                  *)
(* ================================================================== *)

(** The address of a function that fits the slot [callback]
    (a [t_cose_signature_verify_callback]). *)
Inductive verify_callback_ptr : Type :=
| addr_t_cose_signature_verify_short
| addr_verify_callback (n : nat).

(** The address of a function that fits the slot [callback1]
    (a [t_cose_signature_verify1_callback]). *)
Inductive verify1_callback_ptr : Type :=
| addr_t_cose_signature_verify1_short
| addr_verify1_callback (n : nat).

(** Modelled from the spec: [struct t_cose_signature_verify] is declared
    in t_cose/t_cose_signature_verify.h, which is not among the sources.
    The C file stores into its slots [callback] and [callback1]; Section 3
    gives every verifier an optional pointer to the next one in the
    chain, as the signer of t_cose_signature_sign.h has with
    [next_in_list].  A pointer is an [option]; [None] is the null
    pointer. *)
Record struct_t_cose_signature_verify : Type := {
  callback : option verify_callback_ptr;
  callback1 : option verify1_callback_ptr;
  next_in_list : option nat
}.

(** Modelled from the spec: [struct t_cose_signature_verify_short] is
    declared in t_cose/t_cose_signature_verify_short.h, which is not
    among the sources.  The C file reads and writes its members [s],
    [reader] and [reader_ctx]. *)
Record struct_t_cose_signature_verify_short `{Imports} : Type := {
  s : struct_t_cose_signature_verify;
  reader : option t_cose_header_reader;
  reader_ctx : option reader_context
}.

(** [memset(me, 0, sizeof( *me))]: every member is all-zero bits, that
    is, every pointer is null. *)
Definition memset_0 `{Imports} (me : struct_t_cose_signature_verify_short)
  : struct_t_cose_signature_verify_short :=
  {| s := {| callback := None; callback1 := None; next_in_list := None |};
     reader := None;
     reader_ctx := None |}.

Definition flag_is_set (option_flags flag : Z) : bool :=
  negb (Z.land option_flags flag =? 0).

Definition t_cose_signature_verify1_short `{Imports}
    (me_x : struct_t_cose_signature_verify_short)
    (option_flags : Z)
    (protected_body_headers protected_signature_headers payload aad : q_useful_buf_c)
    (body_parameters : list t_cose_parameter)
    (signature : q_useful_buf_c) : M QCBORDecodeContext t_cose_err_t :=
  let dummy_key := T_COSE_NULL_KEY in
  (* --- Get the parameters values needed here --- *)
  cose_algorithm_id <-
    call Ev_find_parameter_alg_id (t_cose_find_parameter_alg_id body_parameters) ;;
  if negb (t_cose_algorithm_is_short_circuit cose_algorithm_id) then
    ret T_COSE_ERR_UNSUPPORTED_SIGNING_ALG
  else
    kid <- call Ev_find_parameter_kid (t_cose_find_parameter_kid body_parameters) ;;
    cmp <- call (Ev_kid_compare kid) (q_useful_buf_compare kid get_short_circuit_kid) ;;
    if negb (cmp =? 0) then
      ret T_COSE_ERR_KID_UNMATCHED
    else if flag_is_set option_flags T_COSE_OPT_DECODE_ONLY then
      ret T_COSE_SUCCESS
    else
      (* --- Compute the hash of the to-be-signed bytes -- *)
      hashed <-
        call (Ev_create_tbs_hash cose_algorithm_id protected_body_headers
                protected_signature_headers aad payload)
             (create_tbs_hash cose_algorithm_id protected_body_headers
                protected_signature_headers aad payload
                T_COSE_CRYPTO_MAX_HASH_SIZE) ;;
      let (return_value, tbs_hash) := hashed in
      if is_error return_value then
        ret return_value
      else
        (* -- Verify the signature -- *)
        call (Ev_crypto_verify cose_algorithm_id kid tbs_hash signature)
             (t_cose_crypto_verify cose_algorithm_id dummy_key kid tbs_hash signature).

(** The out-parameters [params] and [*decoded_parameters] come back with
    the error code. *)
Definition t_cose_signature_verify_short `{Imports}
    (me_x : struct_t_cose_signature_verify_short)
    (option_flags : Z)
    (loc : t_cose_header_location)
    (protected_body_headers payload aad : q_useful_buf_c)
    (params : t_cose_parameter_storage)
    (decoded_parameters : list t_cose_parameter)
  : M QCBORDecodeContext (t_cose_err_t * t_cose_parameter_storage * list t_cose_parameter) :=
  let me := me_x in
  (* --- Decode the COSE_Signature --- *)
  on_codec Ev_EnterArray (fun d => (tt, QCBORDecode_EnterArray d)) ;;;
  decoded <-
    on_codec Ev_headers_decode
      (fun d =>
         match t_cose_headers_decode d loc (reader me) (reader_ctx me)
                 params decoded_parameters with
         | (e, d', params', decoded', protected_parameters) =>
             ((e, params', decoded', protected_parameters), d')
         end) ;;
  match decoded with
  | (return_value, params, decoded_parameters, protected_parameters) =>
    if is_error return_value then
      ret (return_value, params, decoded_parameters)
    else
      (* --- The signature --- *)
      signature <-
        on_codec Ev_GetByteString
          (fun d => let (d', b) := QCBORDecode_GetByteString d in (b, d')) ;;
      on_codec Ev_ExitArray (fun d => (tt, QCBORDecode_ExitArray d)) ;;;
      qcbor_error <- on_codec Ev_GetError (fun d => (QCBORDecode_GetError d, d)) ;;
      if negb (qcbor_error =? QCBOR_SUCCESS) then
        return_value <-
          call (Ev_decode_error_to_t_cose_error qcbor_error)
               (qcbor_decode_error_to_t_cose_error qcbor_error T_COSE_ERR_SIGN1_FORMAT) ;;
        ret (return_value, params, decoded_parameters)
      else
        (* --- Done decoding the COSE_Signature --- *)
        return_value <-
          t_cose_signature_verify1_short me_x option_flags protected_body_headers
            protected_parameters payload aad decoded_parameters signature ;;
        ret (return_value, params, decoded_parameters)
  end.

Definition t_cose_signature_verify_short_init `{Imports}
    (me : struct_t_cose_signature_verify_short)
  : struct_t_cose_signature_verify_short :=
  let me := memset_0 me in
  let me :=
    {| s := {| callback := Some addr_t_cose_signature_verify_short;
               callback1 := callback1 (s me);
               next_in_list := next_in_list (s me) |};
       reader := reader me;
       reader_ctx := reader_ctx me |} in
  {| s := {| callback := callback (s me);
             callback1 := Some addr_t_cose_signature_verify1_short;
             next_in_list := next_in_list (s me) |};
     reader := reader me;
     reader_ctx := reader_ctx me |}.

(** What the two addresses stored by the initialiser stand for: the
    functions of this file.  Any other address belongs to another
    verifier. *)
Definition verify1_callback_at `{Imports} (p : verify1_callback_ptr) :=
  match p with
  | addr_t_cose_signature_verify1_short => Some t_cose_signature_verify1_short
  | addr_verify1_callback _ => None
  end.

Definition verify_callback_at `{Imports} (p : verify_callback_ptr) :=
  match p with
  | addr_t_cose_signature_verify_short => Some t_cose_signature_verify_short
  | addr_verify_callback _ => None
  end.

(** The calls that make up "the actual verification step". *)
Definition is_verification_event (e : event) : bool :=
  match e with
  | Ev_create_tbs_hash _ _ _ _ _ => true
  | Ev_crypto_verify _ _ _ _ => true
  | _ => false
  end.

(* ================================================================== *)
(** * The CBOR codec                                                   *)
(* ================================================================== *)

(** The CBOR encoder and decoder are QCBOR's and are outside the
    sources; the engines of Sections 4.5 and 4.6 need their wire format,
    so this is RFC 8949 for the data items COSE uses.  A map is kept as
    the list of its keys and values in turn. *)
#[warnings="-register-all"] Inductive cbor : Type :=
| CUint (n : Z)
| CNint (n : Z)
| CBstr (b : list Z)
| CTstr (b : list Z)
| CArr (items : list cbor)
| CMap (entries : list cbor)
| CTag (t : Z) (item : cbor)
| CSimple (v : Z).

Definition CBOR_FALSE : cbor := CSimple 20.
Definition CBOR_TRUE : cbor := CSimple 21.
Definition CBOR_NULL : cbor := CSimple 22.

(** The [k] low bytes of [n], most significant first. *)
Fixpoint be_bytes (k : nat) (n : Z) : list Z :=
  match k with
  | O => []
  | S k' => be_bytes k' (n / 256) ++ [n mod 256]
  end.

Definition be_value (l : list Z) : Z := fold_left (fun a b => a * 256 + b) l 0.

(** The head of a data item: major type and argument, in the shortest
    form. *)
Definition encode_head (major arg : Z) : list Z :=
  if arg <? 24 then [major * 32 + arg]
  else if arg <? 256 then (major * 32 + 24) :: be_bytes 1 arg
  else if arg <? 65536 then (major * 32 + 25) :: be_bytes 2 arg
  else if arg <? 4294967296 then (major * 32 + 26) :: be_bytes 4 arg
  else (major * 32 + 27) :: be_bytes 8 arg.

Definition len {A : Type} (l : list A) : Z := Z.of_nat (length l).

(** The additional information that [encode_head] writes for [arg]. *)
Definition head_ai (arg : Z) : Z :=
  if arg <? 24 then arg
  else if arg <? 256 then 24
  else if arg <? 65536 then 25
  else if arg <? 4294967296 then 26
  else 27.

Fixpoint encode (c : cbor) : list Z :=
  match c with
  | CUint n => encode_head 0 n
  | CNint n => encode_head 1 n
  | CBstr b => encode_head 2 (len b) ++ b
  | CTstr b => encode_head 3 (len b) ++ b
  | CArr items => encode_head 4 (len items) ++ flat_map encode items
  | CMap entries => encode_head 5 (len entries / 2) ++ flat_map encode entries
  | CTag t item => encode_head 6 t ++ encode item
  | CSimple v => encode_head 7 v
  end.

(** Major type, additional information, argument and the bytes that
    follow the head. *)
Definition decode_head (bs : list Z) : option (Z * Z * Z * list Z) :=
  match bs with
  | [] => None
  | b :: rest =>
      let major := b / 32 in
      let ai := b mod 32 in
      if ai <? 24 then Some (major, ai, ai, rest)
      else
        let k := if ai =? 24 then 1%nat
                 else if ai =? 25 then 2%nat
                 else if ai =? 26 then 4%nat
                 else if ai =? 27 then 8%nat
                 else 0%nat in
        match k with
        | O => None
        | _ => if (length rest <? k)%nat then None
               else Some (major, ai, be_value (firstn k rest), skipn k rest)
        end
  end.

(** [n] data items in a row, each decoded by [dec]. *)
Fixpoint decode_items (dec : list Z -> option (cbor * list Z))
    (n : nat) (bs : list Z) : option (list cbor * list Z) :=
  match n with
  | O => Some ([], bs)
  | S n' =>
      match dec bs with
      | Some (c, rest) =>
          match decode_items dec n' rest with
          | Some (cs, rest') => Some (c :: cs, rest')
          | None => None
          end
      | None => None
      end
  end.

(** One data item off the front of [bs]; [fuel] bounds the nesting
    depth.  A container that announces more items than there are bytes
    left is cut short at once. *)
Fixpoint decode (fuel : nat) (bs : list Z) : option (cbor * list Z) :=
  match fuel with
  | O => None
  | S fuel' =>
      match decode_head bs with
      | None => None
      | Some (major, ai, arg, rest) =>
          if major =? 0 then Some (CUint arg, rest)
          else if major =? 1 then Some (CNint arg, rest)
          else if major =? 2 then
            if len rest <? arg then None
            else Some (CBstr (firstn (Z.to_nat arg) rest), skipn (Z.to_nat arg) rest)
          else if major =? 3 then
            if len rest <? arg then None
            else Some (CTstr (firstn (Z.to_nat arg) rest), skipn (Z.to_nat arg) rest)
          else if major =? 4 then
            if len rest <? arg then None
            else match decode_items (decode fuel') (Z.to_nat arg) rest with
                 | Some (cs, rest') => Some (CArr cs, rest')
                 | None => None
                 end
          else if major =? 5 then
            if len rest <? 2 * arg then None
            else match decode_items (decode fuel') (Z.to_nat (2 * arg)) rest with
                 | Some (cs, rest') => Some (CMap cs, rest')
                 | None => None
                 end
          else if major =? 6 then
            match decode fuel' rest with
            | Some (c, rest') => Some (CTag arg c, rest')
            | None => None
            end
          else if (major =? 7) && (ai <? 24) then Some (CSimple arg, rest)
          else None
      end
  end.

(** What the encoder can serialise: arguments fit 64 bits, a map has a
    value for every key, a simple value has no extra byte. *)
Fixpoint cbor_ok (c : cbor) : bool :=
  match c with
  | CUint n | CNint n => (0 <=? n) && (n <? 2 ^ 64)
  | CBstr b | CTstr b => len b <? 2 ^ 64
  | CArr items => (len items <? 2 ^ 64) && forallb cbor_ok items
  | CMap entries =>
      (len entries <? 2 ^ 65) && (len entries mod 2 =? 0) && forallb cbor_ok entries
  | CTag t item => (0 <=? t) && (t <? 2 ^ 64) && cbor_ok item
  | CSimple v => (0 <=? v) && (v <? 24)
  end.

Fixpoint depth (c : cbor) : nat :=
  match c with
  | CArr items | CMap items => S (fold_right (fun c d => Nat.max (depth c) d) O items)
  | CTag _ item => S (depth item)
  | _ => 1%nat
  end.

(* ================================================================== *)
(** * A reference decoder                                              *)
(* ================================================================== *)

(** The decoder that the engine of Section 4.6 runs on and that the
    examples instantiate [QCBORDecoder] with.  It follows the interface
    Section 6 asks of the codec: enter and exit arrays, get the next item
    by type, and one cumulative error - once an operation has failed,
    every later one does nothing.  The input is decoded up front into
    one data item; the cursor is a stack of the items still to come at
    each nesting level that has been entered. *)
Inductive level_kind : Type := LevelTop | LevelArray | LevelMap.

Record tree_decoder : Type := {
  levels : list (level_kind * list cbor);
  trailing : list Z;
  last_error : QCBORError
}.

(** The error codes of the reference decoder. *)
Definition QCBOR_ERR_HIT_END : QCBORError := 31.
Definition QCBOR_ERR_EXTRA_BYTES : QCBORError := 21.
Definition QCBOR_ERR_ARRAY_OR_MAP_UNCONSUMED : QCBORError := 23.
Definition QCBOR_ERR_NO_MORE_ITEMS : QCBORError := 60.
Definition QCBOR_ERR_UNEXPECTED_TYPE : QCBORError := 61.
Definition QCBOR_ERR_EXIT_MISMATCH : QCBORError := 62.

(** The errors that say the input is not well-formed CBOR. *)
Definition QCBORDecode_IsNotWellFormedError (e : QCBORError) : bool :=
  (20 <=? e) && (e <=? 39).

Definition QCBOR_MAX_NESTING : nat := 16.

Definition with_error (d : tree_decoder) (e : QCBORError) : tree_decoder :=
  {| levels := levels d; trailing := trailing d; last_error := e |}.

Definition with_levels (d : tree_decoder) (l : list (level_kind * list cbor))
  : tree_decoder :=
  {| levels := l; trailing := trailing d; last_error := last_error d |}.

Definition tree_Init (input : list Z) : tree_decoder :=
  match decode QCBOR_MAX_NESTING input with
  | Some (c, rest) =>
      {| levels := [(LevelTop, [c])]; trailing := rest; last_error := QCBOR_SUCCESS |}
  | None =>
      {| levels := [(LevelTop, [])]; trailing := input; last_error := QCBOR_ERR_HIT_END |}
  end.

(** The tag numbers in front of an item, outermost first, and the item
    itself: the decoder reports tags along with the item they are on. *)
Fixpoint untag (c : cbor) : list Z * cbor :=
  match c with
  | CTag t item => let (ts, c') := untag item in (t :: ts, c')
  | _ => ([], c)
  end.

(** The next item at the current level, looked at without consuming. *)
Definition tree_peek (d : tree_decoder) : option cbor :=
  match levels d with
  | (_, c :: _) :: _ => Some c
  | _ => None
  end.

(** Drop the next item of the current level. *)
Definition tree_advance (d : tree_decoder) : tree_decoder :=
  match levels d with
  | (k, _ :: more) :: outer => with_levels d ((k, more) :: outer)
  | _ => d
  end.

Definition tree_enter (kind : level_kind) (d : tree_decoder) : tree_decoder :=
  if negb (last_error d =? QCBOR_SUCCESS) then d
  else
    match tree_peek d with
    | None => with_error d QCBOR_ERR_NO_MORE_ITEMS
    | Some c =>
        match kind, snd (untag c) with
        | LevelArray, CArr items | LevelMap, CMap items =>
            with_levels d ((kind, items) :: levels (tree_advance d))
        | _, _ => with_error d QCBOR_ERR_UNEXPECTED_TYPE
        end
    end.

Definition tree_exit (kind : level_kind) (d : tree_decoder) : tree_decoder :=
  if negb (last_error d =? QCBOR_SUCCESS) then d
  else
    match kind, levels d with
    | LevelArray, (LevelArray, _) :: outer
    | LevelMap, (LevelMap, _) :: outer => with_levels d outer
    | _, _ => with_error d QCBOR_ERR_EXIT_MISMATCH
    end.

Definition tree_EnterArray : tree_decoder -> tree_decoder := tree_enter LevelArray.
Definition tree_ExitArray : tree_decoder -> tree_decoder := tree_exit LevelArray.

Definition tree_GetByteString (d : tree_decoder) : tree_decoder * q_useful_buf_c :=
  if negb (last_error d =? QCBOR_SUCCESS) then (d, NULL_Q_USEFUL_BUF_C)
  else
    match tree_peek d with
    | None => (with_error d QCBOR_ERR_NO_MORE_ITEMS, NULL_Q_USEFUL_BUF_C)
    | Some c =>
        match snd (untag c) with
        | CBstr b => (tree_advance d, UsefulBufC b)
        | _ => (with_error d QCBOR_ERR_UNEXPECTED_TYPE, NULL_Q_USEFUL_BUF_C)
        end
    end.

(** Any next item; [None] and the error set when there is none. *)
Definition tree_GetNext (d : tree_decoder) : tree_decoder * option cbor :=
  if negb (last_error d =? QCBOR_SUCCESS) then (d, None)
  else
    match tree_peek d with
    | None => (with_error d QCBOR_ERR_NO_MORE_ITEMS, None)
    | Some c => (tree_advance d, Some c)
    end.

Definition tree_GetError (d : tree_decoder) : QCBORError := last_error d.

(** The end of decoding: the error so far, or what is left undecoded. *)
Definition tree_Finish (d : tree_decoder) : QCBORError :=
  if negb (last_error d =? QCBOR_SUCCESS) then last_error d
  else
    match levels d with
    | [(LevelTop, [])] =>
        match trailing d with
        | [] => QCBOR_SUCCESS
        | _ => QCBOR_ERR_EXTRA_BYTES
        end
    | [(LevelTop, _)] => QCBOR_ERR_EXTRA_BYTES
    | _ => QCBOR_ERR_ARRAY_OR_MAP_UNCONSUMED
    end.

#[export] Instance tree_QCBORDecoder : QCBORDecoder := {|
  QCBORDecodeContext := tree_decoder;
  QCBORDecode_EnterArray := tree_EnterArray;
  QCBORDecode_GetByteString := tree_GetByteString;
  QCBORDecode_ExitArray := tree_ExitArray;
  QCBORDecode_GetError := tree_GetError
|}.

(* ================================================================== *)
(** * The header parameter model (Section 4.1)                         *)
(* ================================================================== *)

(** A step that fails with an error code or gives a value. *)
Definition res (A : Type) : Type := (t_cose_err_t + A)%type.

Definition res_bind {A B : Type} (m : res A) (k : A -> res B) : res B :=
  match m with
  | inl e => inl e
  | inr a => k a
  end.

Notation "x <-? m ;; k" := (res_bind m (fun x => k))
  (at level 100, m at next level, right associativity) : tc_scope.

(** The well-known labels of Section 3. *)
Definition T_COSE_HEADER_PARAM_ALG : Z := 1.
Definition T_COSE_HEADER_PARAM_CRIT : Z := 2.
Definition T_COSE_HEADER_PARAM_CONTENT_TYPE : Z := 3.
Definition T_COSE_HEADER_PARAM_KID : Z := 4.
Definition T_COSE_HEADER_PARAM_IV : Z := 5.

(** The algorithm identifier that stands for "none": zero is reserved
    in the registry of COSE algorithms. *)
Definition T_COSE_ALGORITHM_NONE : Z := 0.

Definition list_eqb (l1 l2 : list Z) : bool :=
  (length l1 =? length l2)%nat && (memcmp l1 l2 =? 0).

Definition label_eqb (a b : param_label) : bool :=
  match a, b with
  | LabelInt x, LabelInt y => x =? y
  | LabelText x, LabelText y => list_eqb x y
  | _, _ => false
  end.

Definition cbor_of_int (n : Z) : cbor :=
  if 0 <=? n then CUint n else CNint (-1 - n).

Definition int_of_cbor (c : cbor) : option Z :=
  match c with
  | CUint n => Some n
  | CNint n => Some (-1 - n)
  | _ => None
  end.

Definition cbor_of_label (l : param_label) : cbor :=
  match l with
  | LabelInt n => cbor_of_int n
  | LabelText s => CTstr s
  end.

Definition label_of_cbor (c : cbor) : option param_label :=
  match c with
  | CUint _ | CNint _ => option_map LabelInt (int_of_cbor c)
  | CTstr s => Some (LabelText s)
  | _ => None
  end.

Definition cbor_of_value (v : param_value) : cbor :=
  match v with
  | ValInt n => cbor_of_int n
  | ValBstr b => CBstr b
  | ValTstr s => CTstr s
  | ValBool b => if b then CBOR_TRUE else CBOR_FALSE
  end.

Definition value_of_cbor (c : cbor) : option param_value :=
  match c with
  | CUint _ | CNint _ => option_map ValInt (int_of_cbor c)
  | CBstr b => Some (ValBstr b)
  | CTstr s => Some (ValTstr s)
  | CSimple v => if v =? 20 then Some (ValBool false)
                 else if v =? 21 then Some (ValBool true)
                 else None
  | _ => None
  end.

(** Modelled from the spec: [t_cose_find_parameter_alg_id] is defined in
    t_cose_parameters.c, which is not among the sources.  Sections 3 and
    4.6: the algorithm is the integer under label 1, and it is looked
    for in the protected bucket. *)
Fixpoint spec_find_parameter_alg_id (ps : list t_cose_parameter) : Z :=
  match ps with
  | [] => T_COSE_ALGORITHM_NONE
  | p :: ps' =>
      match label p, value p with
      | LabelInt l, ValInt a =>
          if (l =? T_COSE_HEADER_PARAM_ALG) && in_protected p then a
          else spec_find_parameter_alg_id ps'
      | _, _ => spec_find_parameter_alg_id ps'
      end
  end.

(** Modelled from the spec: [t_cose_find_parameter_kid] is defined in
    t_cose_parameters.c, which is not among the sources.  Section 3: the
    kid is the byte string under label 4; without one the result is the
    null buffer. *)
Fixpoint spec_find_parameter_kid (ps : list t_cose_parameter) : q_useful_buf_c :=
  match ps with
  | [] => NULL_Q_USEFUL_BUF_C
  | p :: ps' =>
      match label p, value p with
      | LabelInt l, ValBstr b =>
          if l =? T_COSE_HEADER_PARAM_KID then UsefulBufC b
          else spec_find_parameter_kid ps'
      | _, _ => spec_find_parameter_kid ps'
      end
  end.

(** ** Encoding *)

Definition param_entries (ps : list t_cose_parameter) : list cbor :=
  flat_map (fun p => [cbor_of_label (label p); cbor_of_value (value p)]) ps.

(** The entries of the protected map: the protected parameters, and the
    [crit] array of the labels of those marked critical when there are
    any. *)
Definition protected_entries (ps : list t_cose_parameter) : list cbor :=
  let prot := filter in_protected ps in
  let crit := map (fun p => cbor_of_label (label p)) (filter critical prot) in
  param_entries prot ++
  match crit with
  | [] => []
  | _ => [CUint T_COSE_HEADER_PARAM_CRIT; CArr crit]
  end.

(** The byte string of the protected bucket: zero-length when the bucket
    is empty, the serialised map otherwise. *)
Definition encode_protected (ps : list t_cose_parameter) : list Z :=
  match protected_entries ps with
  | [] => []
  | entries => encode (CMap entries)
  end.

Definition unprotected_map (ps : list t_cose_parameter) : cbor :=
  CMap (param_entries (filter (fun p => negb (in_protected p)) ps)).

(** No two parameters of the list share a label, in or across the
    buckets. *)
Fixpoint no_duplicate_labels (ps : list t_cose_parameter) : bool :=
  match ps with
  | [] => true
  | p :: ps' =>
      negb (existsb (fun q => label_eqb (label p) (label q)) ps') &&
      no_duplicate_labels ps'
  end.

(** Merging the contribution of a signer into the body parameters. *)
Definition merge_parameters (signer_params body_params : list t_cose_parameter)
  : res (list t_cose_parameter) :=
  let all := signer_params ++ body_params in
  if no_duplicate_labels all then inr all else inl T_COSE_ERR_DUPLICATE_PARAMETER.

(** ** Decoding *)

(** A custom reader is offered a label and the item under it and says
    whether it takes the parameter. *)
Definition header_reader : Type := param_label -> cbor -> bool.

Definition known_label (l : param_label) : bool :=
  match l with
  | LabelInt n => (T_COSE_HEADER_PARAM_ALG <=? n) && (n <=? T_COSE_HEADER_PARAM_IV)
  | LabelText _ => false
  end.

(** The value types of the well-known labels (the table of Section 3). *)
Definition well_typed (l : param_label) (v : param_value) : bool :=
  match l, v with
  | LabelInt n, ValInt _ =>
      (n =? T_COSE_HEADER_PARAM_ALG) || (n =? T_COSE_HEADER_PARAM_CONTENT_TYPE) ||
      negb (known_label l)
  | LabelInt n, ValTstr _ =>
      (n =? T_COSE_HEADER_PARAM_CONTENT_TYPE) || negb (known_label l)
  | LabelInt n, ValBstr _ =>
      (n =? T_COSE_HEADER_PARAM_KID) || (n =? T_COSE_HEADER_PARAM_IV) ||
      negb (known_label l)
  | LabelInt n, ValBool _ => negb (known_label l)
  | LabelText _, _ => true
  end.

Definition reader_takes (reader : option header_reader) (l : param_label) (v : cbor)
  : bool :=
  match reader with
  | Some r => r l v
  | None => false
  end.

Definition is_crit_label (l : param_label) : bool :=
  label_eqb l (LabelInt T_COSE_HEADER_PARAM_CRIT).

(** One entry of a bucket: the parameter to store, nothing to store, or
    an error.  A label that the engine does not know is offered to the
    custom reader; it is an error only when it is listed in [crit] and
    nobody takes it. *)
Definition decode_entry (in_prot : bool) (reader : option header_reader)
    (crit : list param_label) (k v : cbor) : res (option t_cose_parameter) :=
  match label_of_cbor k with
  | None => inl T_COSE_ERR_PARAMETER_TYPE
  | Some l =>
      let listed := existsb (label_eqb l) crit in
      if is_crit_label l then
        if in_prot then inr None else inl T_COSE_ERR_PARAMETER_TYPE
      else if known_label l then
        match value_of_cbor v with
        | Some val =>
            if well_typed l val
            then inr (Some {| label := l; value := val;
                              in_protected := in_prot; critical := listed |})
            else inl T_COSE_ERR_PARAMETER_TYPE
        | None => inl T_COSE_ERR_PARAMETER_TYPE
        end
      else if reader_takes reader l v then inr None
      else if listed then inl T_COSE_ERR_UNKNOWN_CRITICAL_PARAMETER
      else
        match value_of_cbor v with
        | Some val => inr (Some {| label := l; value := val;
                                   in_protected := in_prot; critical := false |})
        | None => inr None
        end
  end.

Fixpoint decode_bucket (in_prot : bool) (reader : option header_reader)
    (crit : list param_label) (entries : list cbor) : res (list t_cose_parameter) :=
  match entries with
  | [] => inr []
  | k :: v :: more =>
      p <-? decode_entry in_prot reader crit k v ;;
      ps <-? decode_bucket in_prot reader crit more ;;
      inr (match p with Some p => p :: ps | None => ps end)
  | [_] => inl T_COSE_ERR_CBOR_NOT_WELL_FORMED
  end.

Fixpoint labels_of_cbor (cs : list cbor) : res (list param_label) :=
  match cs with
  | [] => inr []
  | c :: cs' =>
      match label_of_cbor c with
      | Some l => ls <-? labels_of_cbor cs' ;; inr (l :: ls)
      | None => inl T_COSE_ERR_PARAMETER_TYPE
      end
  end.

(** The labels that the [crit] array of a bucket lists. *)
Fixpoint find_crit (entries : list cbor) : res (list param_label) :=
  match entries with
  | k :: v :: more =>
      match label_of_cbor k with
      | Some l =>
          if is_crit_label l then
            match v with
            | CArr ls => labels_of_cbor ls
            | _ => inl T_COSE_ERR_PARAMETER_TYPE
            end
          else find_crit more
      | None => find_crit more
      end
  | _ => inr []
  end.

(** The labels that are keys of a bucket. *)
Fixpoint bucket_labels (entries : list cbor) : list param_label :=
  match entries with
  | k :: _ :: more =>
      match label_of_cbor k with
      | Some l => l :: bucket_labels more
      | None => bucket_labels more
      end
  | _ => []
  end.

(** The contents of the protected byte string as the entries of a map:
    the zero-length string and the empty map both stand for no entry. *)
Definition protected_map_entries (b : list Z) : res (list cbor) :=
  match b with
  | [] => inr []
  | _ =>
      match decode QCBOR_MAX_NESTING b with
      | Some (CMap entries, []) => inr entries
      | Some _ => inl T_COSE_ERR_PARAMETER_TYPE
      | None => inl T_COSE_ERR_CBOR_NOT_WELL_FORMED
      end
  end.

(** Both buckets, from the entries of the two maps. *)
Definition decode_parameters (reader : option header_reader)
    (prot unprot : list cbor) : res (list t_cose_parameter) :=
  crit <-? find_crit prot ;;
  if negb (forallb (fun l => existsb (label_eqb l) (bucket_labels prot)) crit)
  then inl T_COSE_ERR_UNKNOWN_CRITICAL_PARAMETER
  else
    pp <-? decode_bucket true reader crit prot ;;
    up <-? decode_bucket false reader [] unprot ;;
    if no_duplicate_labels (pp ++ up) then inr (pp ++ up)
    else inl T_COSE_ERR_DUPLICATE_PARAMETER.

(** Modelled from the spec: [qcbor_decode_error_to_t_cose_error] is
    defined in t_cose_util.c, which is not among the sources.  Section 7
    has one error for CBOR that is not well formed and format errors for
    the rest; the caller names the format error. *)
Definition spec_qcbor_decode_error_to_t_cose_error
    (qcbor_error : QCBORError) (format_error : t_cose_err_t) : t_cose_err_t :=
  if qcbor_error =? QCBOR_SUCCESS then T_COSE_SUCCESS
  else if QCBORDecode_IsNotWellFormedError qcbor_error then T_COSE_ERR_CBOR_NOT_WELL_FORMED
  else format_error.

(** Modelled from the spec: [t_cose_headers_decode] is defined in
    t_cose_parameters.c, which is not among the sources.  Section 4.1:
    two items back to back, the byte string of the protected map and the
    unprotected map; every parameter goes to its bucket; duplicates and
    critical parameters that nobody understands are rejected; the
    decoded parameters go to the caller's pool, and running out of it is
    TOO_MANY_PARAMETERS.  On an error the pool and the list are as they
    were. *)
Definition spec_headers_decode (d : tree_decoder) (loc : t_cose_header_location)
    (reader : option header_reader) (reader_ctx : option unit)
    (params : t_cose_parameter_storage) (decoded_parameters : list t_cose_parameter)
  : t_cose_err_t * tree_decoder * t_cose_parameter_storage *
    list t_cose_parameter * q_useful_buf_c :=
  let (d1, protected_parameters) := tree_GetByteString d in
  let d2 := tree_enter LevelMap d1 in
  let unprot := match levels d2 with (LevelMap, es) :: _ => es | _ => [] end in
  let d3 := tree_exit LevelMap d2 in
  if negb (tree_GetError d3 =? QCBOR_SUCCESS) then
    (spec_qcbor_decode_error_to_t_cose_error (tree_GetError d3) T_COSE_ERR_CBOR_DECODE,
     d3, params, decoded_parameters, NULL_Q_USEFUL_BUF_C)
  else
    match (prot <-? protected_map_entries (ub_bytes protected_parameters) ;;
           decode_parameters reader prot unprot) with
    | inl e => (e, d3, params, decoded_parameters, NULL_Q_USEFUL_BUF_C)
    | inr ps =>
        if (storage_size params <? length (storage params) + length ps)%nat then
          (T_COSE_ERR_TOO_MANY_PARAMETERS, d3, params, decoded_parameters,
           NULL_Q_USEFUL_BUF_C)
        else
          (T_COSE_SUCCESS, d3,
           {| storage_size := storage_size params;
              storage := storage params ++ ps |},
           ps, protected_parameters)
    end.

(* ================================================================== *)
(** * The TBS builder (Section 4.2)                                    *)
(* ================================================================== *)

(** "Signature1" and "Signature" in ASCII. *)
Definition COSE_SIG_CONTEXT_STRING_SIGNATURE1 : list Z :=
  [83; 105; 103; 110; 97; 116; 117; 114; 101; 49].
Definition COSE_SIG_CONTEXT_STRING_SIGNATURE : list Z :=
  [83; 105; 103; 110; 97; 116; 117; 114; 101].

(** The Sig_structure; a null [sign_protected] is the COSE_Sign1 case. *)
Definition sig_structure (body_protected sign_protected aad payload : q_useful_buf_c)
  : cbor :=
  match sign_protected with
  | NULL_Q_USEFUL_BUF_C =>
      CArr [CTstr COSE_SIG_CONTEXT_STRING_SIGNATURE1;
            CBstr (ub_bytes body_protected);
            CBstr (ub_bytes aad);
            CBstr (ub_bytes payload)]
  | UsefulBufC sp =>
      CArr [CTstr COSE_SIG_CONTEXT_STRING_SIGNATURE;
            CBstr (ub_bytes body_protected);
            CBstr sp;
            CBstr (ub_bytes aad);
            CBstr (ub_bytes payload)]
  end.

(** Modelled from the spec: [create_tbs_hash] is defined in
    t_cose_util.c, which is not among the sources.  Section 4.2: the
    Sig_structure is serialised and fed to the hash of the algorithm;
    the digest has to fit the buffer of the caller. *)
Definition spec_create_tbs_hash `{CryptoAdapter} (cose_algorithm_id : Z)
    (protected_body_headers protected_signature_headers aad payload : q_useful_buf_c)
    (buffer_for_hash : Z) : t_cose_err_t * q_useful_buf_c :=
  match adapter_hash cose_algorithm_id
          (encode (sig_structure protected_body_headers protected_signature_headers
                     aad payload)) with
  | None => (T_COSE_ERR_UNSUPPORTED_SIGNING_ALG, NULL_Q_USEFUL_BUF_C)
  | Some digest =>
      if buffer_for_hash <? len digest
      then (T_COSE_ERR_HASH_GENERAL_FAIL, NULL_Q_USEFUL_BUF_C)
      else (T_COSE_SUCCESS, UsefulBufC digest)
  end.

(** The kid that the short-circuit signer of the examples puts in its
    messages. *)
Definition example_short_circuit_kid : q_useful_buf_c :=
  UsefulBufC [115; 104; 111; 114; 116; 45; 99; 105; 114; 99; 117; 105; 116].

(** The size of the buffers that hold a hash. *)
Definition spec_max_hash_size : Z := 64.

(** The imports of the verifier, filled in with the definitions modelled
    from the spec, over any crypto adapter. *)
#[export] Instance spec_imports (A : CryptoAdapter) : @Imports tree_QCBORDecoder A := {|
  T_COSE_OPT_DECODE_ONLY := 8;
  T_COSE_CRYPTO_MAX_HASH_SIZE := spec_max_hash_size;
  t_cose_header_reader := header_reader;
  reader_context := unit;
  t_cose_find_parameter_alg_id := spec_find_parameter_alg_id;
  t_cose_find_parameter_kid := spec_find_parameter_kid;
  get_short_circuit_kid := example_short_circuit_kid;
  create_tbs_hash := spec_create_tbs_hash;
  t_cose_headers_decode := spec_headers_decode;
  qcbor_decode_error_to_t_cose_error := spec_qcbor_decode_error_to_t_cose_error
|}.

(* ================================================================== *)
(** * A reference encoder                                              *)
(* ================================================================== *)

(** The encoder that the engine of Section 4.5 writes to, after the
    interface Section 6 asks of the codec: append items, report the
    byte offset, keep one error, and run in size-only mode.  A null
    output buffer ([out_buffer] is [None]) is the size calculation: the
    bytes are counted and not kept. *)
Record QCBOREncodeContext : Type := {
  out_buffer : option Z;
  out_data : list Z;
  out_len : Z;
  out_error : bool
}.

Definition QCBOREncode_Init (buffer : option Z) : QCBOREncodeContext :=
  {| out_buffer := buffer; out_data := []; out_len := 0; out_error := false |}.

Definition QCBOREncode_IsBufferNULL (e : QCBOREncodeContext) : bool :=
  match out_buffer e with
  | None => true
  | Some _ => false
  end.

Definition encoder_fail (e : QCBOREncodeContext) : QCBOREncodeContext :=
  {| out_buffer := out_buffer e; out_data := out_data e; out_len := out_len e;
     out_error := true |}.

(** Append [n] bytes; [content] is [None] when the caller has a length
    and no bytes, which only a size calculation can take. *)
Definition encoder_append (e : QCBOREncodeContext) (content : option (list Z)) (n : Z)
  : QCBOREncodeContext :=
  if out_error e then e
  else
    match out_buffer e with
    | None =>
        {| out_buffer := None; out_data := out_data e; out_len := out_len e + n;
           out_error := false |}
    | Some capacity =>
        match content with
        | Some bytes =>
            if capacity <? out_len e + n then encoder_fail e
            else {| out_buffer := Some capacity; out_data := out_data e ++ bytes;
                    out_len := out_len e + n; out_error := false |}
        | None => encoder_fail e
        end
    end.

Definition QCBOREncode_AddEncoded (e : QCBOREncodeContext) (bytes : list Z)
  : QCBOREncodeContext :=
  encoder_append e (Some bytes) (len bytes).

Definition QCBOREncode_AddTag (e : QCBOREncodeContext) (t : Z) : QCBOREncodeContext :=
  QCBOREncode_AddEncoded e (encode_head 6 t).

(** Arrays are opened with their length. *)
Definition QCBOREncode_OpenArray (e : QCBOREncodeContext) (n : Z) : QCBOREncodeContext :=
  QCBOREncode_AddEncoded e (encode_head 4 n).

Definition QCBOREncode_CloseArray (e : QCBOREncodeContext) : QCBOREncodeContext := e.

Definition QCBOREncode_AddItem (e : QCBOREncodeContext) (c : cbor) : QCBOREncodeContext :=
  QCBOREncode_AddEncoded e (encode c).

Definition QCBOREncode_AddBytes (e : QCBOREncodeContext) (b : q_useful_buf_c)
  : QCBOREncodeContext :=
  QCBOREncode_AddItem e (CBstr (ub_bytes b)).

(** A byte string of [n] bytes that are not there: the buffer that is
    added has a null pointer and the length [n]. *)
Definition QCBOREncode_AddBytesLenOnly (e : QCBOREncodeContext) (n : Z)
  : QCBOREncodeContext :=
  encoder_append (QCBOREncode_AddEncoded e (encode_head 2 n)) None n.

Definition QCBOREncode_AddNULL (e : QCBOREncodeContext) : QCBOREncodeContext :=
  QCBOREncode_AddItem e CBOR_NULL.

(** An encoder call in the monad: log it and run it. *)
Definition encoder_call (ev : event) (f : QCBOREncodeContext -> QCBOREncodeContext)
  : M QCBOREncodeContext unit :=
  on_codec ev (fun e => (tt, f e)).

(* ================================================================== *)
(** * The signer abstraction: t_cose/t_cose_signature_sign.h           *)
(* ================================================================== *)

Module Signer.

(** [t_cose_signature_sign_callback]: the context [me] and the encoder
    may be written, so they come back with the error code. *)
Definition t_cose_signature_sign_callback (Me : Type) : Type :=
  Me ->                  (* me *)
  Z ->                   (* option_flags *)
  q_useful_buf_c ->      (* protected_body_headers *)
  q_useful_buf_c ->      (* aad *)
  q_useful_buf_c ->      (* payload *)
  QCBOREncodeContext ->  (* qcbor_encoder *)
  t_cose_err_t * Me * QCBOREncodeContext.

(** [t_cose_signature_sign_h_callback]: the return type is [void]; what
    comes back is the context and the list [*header_params]. *)
Definition t_cose_signature_sign_h_callback (Me : Type) : Type :=
  Me -> list t_cose_parameter -> Me * list t_cose_parameter.

(** [struct t_cose_signature_sign], the first part of the context of
    every concrete signer; [me] is the rest of that context. *)
#[warnings="-register-all"] Inductive t_cose_signature_sign (Me : Type) : Type := Build_signer {
  callback : t_cose_signature_sign_callback Me;
  h_callback : t_cose_signature_sign_h_callback Me;
  next_in_list : option (t_cose_signature_sign Me);
  me : Me
}.
Arguments Build_signer {Me}.
Arguments callback {Me}.
Arguments h_callback {Me}.
Arguments next_in_list {Me}.
Arguments me {Me}.

Definition with_me {Me : Type} (signer : t_cose_signature_sign Me) (m : Me)
  : t_cose_signature_sign Me :=
  Build_signer (callback signer) (h_callback signer) (next_in_list signer) m.

End Signer.

(* ================================================================== *)
(** * The sign engine for COSE_Sign1 (Section 4.5)                     *)
(* ================================================================== *)

(** Modelled from the spec: the option flags are defined in
    t_cose_common.h, which is not among the sources.  Section 6 names
    them; each is given a bit of its own here. *)
Definition T_COSE_OPT_OMIT_CBOR_TAG : Z := 2.
Definition T_COSE_OPT_TAG_REQUIRED : Z := 4.
Definition T_COSE_OPT_TAG_PROHIBITED : Z := 16.
Definition T_COSE_OPT_DETACHED_PAYLOAD : Z := 32.

(** Modelled from the spec: the comment on
    [t_cose_signature_sign_callback] has the signer look at the option
    flags "to check whether to make a COSE_Sign or COSE_Sign1".  The
    flag that says COSE_Sign1 has a bit of its own as well; without it
    the message is a COSE_Sign. *)
Definition T_COSE_OPT_COSE_SIGN1 : Z := 64.

Definition CBOR_TAG_COSE_SIGN1 : Z := 18.

(** Modelled from the spec: the engine is t_cose_sign_sign.c, which is
    not among the sources.  This is the pipeline for COSE_Sign1 of
    Section 4.5, step by step; the one signer of the chain is the
    argument.  The first error is the result of the run, and the steps
    that encode the body are skipped after it (Section 7).  The sign
    callback is called in every run, as the comment on
    [t_cose_signature_sign_h_callback] says, so that a signer can
    return what its header callback stored; the option flags it is given
    say that the message is a COSE_Sign1.  An error of the encoder stays
    in the encoder until the output is finished. *)
Definition t_cose_sign1_encode {Me : Type} (option_flags : Z)
    (signer : Signer.t_cose_signature_sign Me)
    (body_parameters : list t_cose_parameter)
    (aad payload : q_useful_buf_c)
  : M QCBOREncodeContext (t_cose_err_t * Signer.t_cose_signature_sign Me) :=
  (* 1. collect the header contributions of the signer *)
  collected <- call Ev_h_callback (Signer.h_callback signer (Signer.me signer) []) ;;
  let (me1, header_params) := collected in
  (* 2. merge them into the body parameters *)
  merged <- call Ev_merge_parameters (merge_parameters header_params body_parameters) ;;
  body_protected <-
    match merged with
    | inl _ => ret NULL_Q_USEFUL_BUF_C
    | inr parameters =>
        (* 3. the tag *)
        (if flag_is_set option_flags T_COSE_OPT_OMIT_CBOR_TAG then ret tt
         else encoder_call Ev_AddTag (fun e => QCBOREncode_AddTag e CBOR_TAG_COSE_SIGN1)) ;;;
        (* 4. the array of four *)
        encoder_call Ev_OpenArray (fun e => QCBOREncode_OpenArray e 4) ;;;
        (* 5. the protected headers; remember them as body_protected *)
        let body_protected := UsefulBufC (encode_protected parameters) in
        encoder_call Ev_protected_headers (fun e => QCBOREncode_AddBytes e body_protected) ;;;
        (* 6. the unprotected headers *)
        encoder_call Ev_unprotected_headers
          (fun e => QCBOREncode_AddItem e (unprotected_map parameters)) ;;;
        (* 7. the payload, or nil when it is detached *)
        encoder_call Ev_payload
          (fun e => if flag_is_set option_flags T_COSE_OPT_DETACHED_PAYLOAD
                    then QCBOREncode_AddNULL e
                    else QCBOREncode_AddBytes e payload) ;;;
        ret body_protected
    end ;;
  (* 8. the signer writes the signature, or returns its error *)
  signed <-
    on_codec Ev_sign_callback
      (Signer.callback signer me1 (Z.lor option_flags T_COSE_OPT_COSE_SIGN1)
         body_protected aad payload) ;;
  let (sign_error, me2) := signed in
  let return_value :=
    match merged with
    | inl merge_error => merge_error
    | inr _ => sign_error
    end in
  if is_error return_value then ret (return_value, Signer.with_me signer me2)
  else
    (* 9. close the array *)
    encoder_call Ev_CloseArray QCBOREncode_CloseArray ;;;
    ret (T_COSE_SUCCESS, Signer.with_me signer me2).

(** The whole of sign(): run the pipeline on a fresh encoder over the
    output buffer ([None] for a size calculation, [Some capacity]
    otherwise) and finish the encoder.  The result is the error code,
    the message (null in a size calculation) and its length. *)
Definition t_cose_sign1_sign {Me : Type} (option_flags : Z)
    (signer : Signer.t_cose_signature_sign Me)
    (body_parameters : list t_cose_parameter)
    (aad payload : q_useful_buf_c) (out_buf : option Z)
  : t_cose_err_t * q_useful_buf_c * Z :=
  let (r, w) := run (t_cose_sign1_encode option_flags signer body_parameters aad payload)
                    (QCBOREncode_Init out_buf) in
  let e := codec w in
  if is_error (fst r) then (fst r, NULL_Q_USEFUL_BUF_C, 0)
  else if out_error e then (T_COSE_ERR_ENCODE_BUFFER_TOO_SMALL, NULL_Q_USEFUL_BUF_C, 0)
  else if QCBOREncode_IsBufferNULL e then (T_COSE_SUCCESS, NULL_Q_USEFUL_BUF_C, out_len e)
  else (T_COSE_SUCCESS, UsefulBufC (out_data e), out_len e).

(** ** A concrete signer *)

(** The context of the signer: the algorithm it signs with, the key and
    an optional kid (Section 3). *)
Record signer_context `{CryptoAdapter} : Type := {
  cose_algorithm_id : Z;
  signing_key : t_cose_key;
  signer_kid : q_useful_buf_c
}.

Definition alg_parameter (alg : Z) : t_cose_parameter :=
  {| label := LabelInt T_COSE_HEADER_PARAM_ALG; value := ValInt alg;
     in_protected := true; critical := false |}.

Definition kid_parameter (kid : list Z) : t_cose_parameter :=
  {| label := LabelInt T_COSE_HEADER_PARAM_KID; value := ValBstr kid;
     in_protected := false; critical := false |}.

(** Modelled from the spec: the concrete signers are
    t_cose_signature_sign_*.c, which are not among the sources.
    Section 4.1: the header callback yields [alg], and [kid] when the
    signer has one. *)
Definition spec_sign_h_callback `{CryptoAdapter} (me : signer_context)
    (header_params : list t_cose_parameter) : signer_context * list t_cose_parameter :=
  (me,
   alg_parameter (cose_algorithm_id me) ::
   match signer_kid me with
   | NULL_Q_USEFUL_BUF_C => []
   | UsefulBufC kid => [kid_parameter kid]
   end).

(** Modelled from the spec: [t_cose_crypto_sig_size] lives in the
    crypto adapter, which is not among the sources.  Section 4.3 gives the
    adapter [sig_size(alg, key)]. *)
Definition t_cose_crypto_sig_size `{CryptoAdapter}
    (cose_algorithm_id : Z) (signing_key : t_cose_key) : t_cose_err_t * Z :=
  adapter_sig_size cose_algorithm_id signing_key.

(** Modelled from the spec: the concrete signers are
    t_cose_signature_sign_*.c, which are not among the sources.
    Section 3: the header parameters of a COSE_Signature, which the
    signer writes itself in a COSE_Sign, where the header callback is
    not called: [alg], and [kid] when the signer has one. *)
Definition spec_signature_headers `{CryptoAdapter} (me : signer_context)
  : list t_cose_parameter :=
  alg_parameter (cose_algorithm_id me) ::
  match signer_kid me with
  | NULL_Q_USEFUL_BUF_C => []
  | UsefulBufC kid => [kid_parameter kid]
  end.

(** Modelled from the spec: the concrete signers are
    t_cose_signature_sign_*.c, which are not among the sources.
    Sections 4.2, 4.4 and 4.5 and the comment on
    [t_cose_signature_sign_callback]: the callback outputs "either a
    bare signature for a COSE_Sign1 or a full COSE_Signature for a
    COSE_Sign", and the option flags say which.  For a COSE_Sign1 it
    appends the signature as a byte string.  For a COSE_Sign it opens
    the array of a COSE_Signature, writes the protected and the
    unprotected headers of the signer, signs with these protected
    headers in the Sig_structure, appends the signature and closes the
    array.  When the output buffer of the encoder is null it asks the
    adapter for the size of the signature and adds that size instead of
    signing. *)
Definition spec_sign_callback `{CryptoAdapter} (me : signer_context)
    (option_flags : Z) (protected_body_headers aad payload : q_useful_buf_c)
    (qcbor_encoder : QCBOREncodeContext)
  : t_cose_err_t * signer_context * QCBOREncodeContext :=
  let alg := cose_algorithm_id me in
  let cose_sign1 := flag_is_set option_flags T_COSE_OPT_COSE_SIGN1 in
  (* the headers, if it is a COSE_Sign *)
  let parameters := spec_signature_headers me in
  let signer_protected_headers :=
    if cose_sign1 then NULL_Q_USEFUL_BUF_C
    else UsefulBufC (encode_protected parameters) in
  let qcbor_encoder :=
    if cose_sign1 then qcbor_encoder
    else
      QCBOREncode_AddItem
        (QCBOREncode_AddBytes (QCBOREncode_OpenArray qcbor_encoder 3)
           signer_protected_headers)
        (unprotected_map parameters) in
  (* the end of the COSE_Signature, if it is a COSE_Sign *)
  let close := fun e => if cose_sign1 then e else QCBOREncode_CloseArray e in
  (* the signature *)
  if QCBOREncode_IsBufferNULL qcbor_encoder then
    (* size-calculation mode *)
    let (return_value, signature_len) := t_cose_crypto_sig_size alg (signing_key me) in
    if is_error return_value then (return_value, me, qcbor_encoder)
    else (T_COSE_SUCCESS, me,
          close (QCBOREncode_AddBytesLenOnly qcbor_encoder signature_len))
  else
    let (return_value, tbs_hash) :=
      spec_create_tbs_hash alg protected_body_headers signer_protected_headers aad payload
        spec_max_hash_size in
    if is_error return_value then (return_value, me, qcbor_encoder)
    else
      let (return_value, signature) := t_cose_crypto_sign alg (signing_key me) tbs_hash in
      if is_error return_value then (return_value, me, qcbor_encoder)
      else (T_COSE_SUCCESS, me, close (QCBOREncode_AddBytes qcbor_encoder signature)).

Definition spec_signer `{CryptoAdapter} (alg : Z) (key : t_cose_key)
    (kid : q_useful_buf_c) : Signer.t_cose_signature_sign signer_context :=
  Signer.Build_signer spec_sign_callback spec_sign_h_callback None
    {| cose_algorithm_id := alg; signing_key := key; signer_kid := kid |}.

(* ================================================================== *)
(** * The verify engine for COSE_Sign1 (Section 4.6)                   *)
(* ================================================================== *)

(** A verifier as the engine sees it: its verify1 callback, already
    applied to its own context.  The arguments are the option flags, the
    protected body headers, the protected signature headers, the
    payload, the aad, the decoded parameters and the signature. *)
Record verifier : Type := {
  run_callback1 :
    Z -> q_useful_buf_c -> q_useful_buf_c -> q_useful_buf_c -> q_useful_buf_c ->
    list t_cose_parameter -> q_useful_buf_c -> M tree_decoder t_cose_err_t
}.

(** The short-circuit verifier of t_cose_signature_verify_short.c. *)
Definition short_verifier `{A : CryptoAdapter}
    (me : @struct_t_cose_signature_verify_short _ _ (spec_imports A)) : verifier :=
  {| run_callback1 := t_cose_signature_verify1_short me |}.

(** The context of a verifier for the algorithms of the crypto library:
    the algorithm it handles and the key (Section 3). *)
Record verifier_context `{CryptoAdapter} : Type := {
  verifier_algorithm_id : Z;
  verification_key : t_cose_key
}.

(** Modelled from the spec: the concrete verifiers other than the
    short-circuit one are t_cose_signature_verify_*.c, which are not
    among the sources.  Section 4.4: a verifier that the algorithm of the
    message is not for declines; Section 4.6, step 9: with DECODE_ONLY the
    verification is skipped; otherwise the TBS hash goes to the verify of
    the adapter with the key of the verifier. *)
Definition spec_verify1_callback `{A : CryptoAdapter} (me : verifier_context)
    (option_flags : Z)
    (protected_body_headers protected_signature_headers payload aad : q_useful_buf_c)
    (body_parameters : list t_cose_parameter) (signature : q_useful_buf_c)
  : M tree_decoder t_cose_err_t :=
  alg <- call Ev_find_parameter_alg_id (spec_find_parameter_alg_id body_parameters) ;;
  if negb (alg =? verifier_algorithm_id me) then ret T_COSE_ERR_DECLINE
  else
    kid <- call Ev_find_parameter_kid (spec_find_parameter_kid body_parameters) ;;
    if flag_is_set option_flags (@T_COSE_OPT_DECODE_ONLY _ _ (spec_imports A)) then
      ret T_COSE_SUCCESS
    else
      hashed <-
        call (Ev_create_tbs_hash alg protected_body_headers protected_signature_headers
                aad payload)
             (spec_create_tbs_hash alg protected_body_headers protected_signature_headers
                aad payload spec_max_hash_size) ;;
      let (return_value, tbs_hash) := hashed in
      if is_error return_value then ret return_value
      else
        call (Ev_crypto_verify alg kid tbs_hash signature)
             (t_cose_crypto_verify alg (verification_key me) kid tbs_hash signature).

Definition spec_verifier `{A : CryptoAdapter} (alg : Z) (key : t_cose_key) : verifier :=
  {| run_callback1 :=
       spec_verify1_callback {| verifier_algorithm_id := alg; verification_key := key |} |}.

(** Dispatch over the chain: the first verifier that does not decline
    decides; when all decline there is no verifier for the algorithm. *)
Fixpoint dispatch_verify1 (verifiers : list verifier) (n : nat) (option_flags : Z)
    (protected_body_headers payload aad : q_useful_buf_c)
    (parameters : list t_cose_parameter) (signature : q_useful_buf_c)
  : M tree_decoder t_cose_err_t :=
  match verifiers with
  | [] => ret T_COSE_ERR_NO_VERIFIER_FOR_ALG
  | v :: more =>
      return_value <-
        (call (Ev_verify1_callback n) tt ;;;
         run_callback1 v option_flags protected_body_headers NULL_Q_USEFUL_BUF_C
           payload aad parameters signature) ;;
      if t_cose_err_eqb return_value T_COSE_ERR_DECLINE
      then dispatch_verify1 more (S n) option_flags protected_body_headers payload aad
             parameters signature
      else ret return_value
  end.

(** Step 1: the tag in front of the message against the tag policy. *)
Definition check_tag (option_flags : Z) (top : option cbor) : t_cose_err_t :=
  match top with
  | None => T_COSE_ERR_SIGN1_FORMAT
  | Some c =>
      match fst (untag c) with
      | [] => if flag_is_set option_flags T_COSE_OPT_TAG_REQUIRED
              then T_COSE_ERR_TAG_REQUIRED else T_COSE_SUCCESS
      | [t] => if flag_is_set option_flags T_COSE_OPT_TAG_PROHIBITED
               then T_COSE_ERR_TAG_PROHIBITED
               else if t =? CBOR_TAG_COSE_SIGN1 then T_COSE_SUCCESS
               else T_COSE_ERR_SIGN1_FORMAT
      | _ => if flag_is_set option_flags T_COSE_OPT_TAG_PROHIBITED
             then T_COSE_ERR_TAG_PROHIBITED else T_COSE_ERR_SIGN1_FORMAT
      end
  end.

(** The number of items of the array that has been entered. *)
Definition entered_array_size (d : tree_decoder) : option nat :=
  match levels d with
  | (LevelArray, items) :: _ => Some (length items)
  | _ => None
  end.

(** Modelled from the spec: the engine is t_cose_sign_verify.c, which is
    not among the sources.  This is the pipeline for COSE_Sign1 of
    Section 4.6, step by step, on the decoder; [detached_payload] is
    null when the caller supplies no payload.  The result is the error
    code, the verified payload and the decoded parameters. *)
Definition t_cose_sign1_decode `{A : CryptoAdapter} (option_flags : Z)
    (verifiers : list verifier) (detached_payload aad : q_useful_buf_c)
    (params : t_cose_parameter_storage)
  : M tree_decoder (t_cose_err_t * q_useful_buf_c * list t_cose_parameter) :=
  let fail e := ret (e, NULL_Q_USEFUL_BUF_C, []) in
  (* 1. the tag *)
  top <- on_codec Ev_PeekNext (fun d => (tree_peek d, d)) ;;
  if is_error (check_tag option_flags top) then fail (check_tag option_flags top)
  else
    (* 2. the array of four *)
    size <- on_codec Ev_EnterArray
              (fun d => let d' := tree_EnterArray d in (entered_array_size d', d')) ;;
    match size with
    | Some 4%nat =>
        (* 3 to 5. the headers *)
        decoded <-
          on_codec Ev_headers_decode
            (fun d =>
               match spec_headers_decode d {| nesting := 0; index := 0 |} None None
                       params [] with
               | (e, d', params', decoded', protected_parameters) =>
                   ((e, decoded', protected_parameters), d')
               end) ;;
        match decoded with
        | (return_value, parameters, protected_parameters) =>
          if is_error return_value then fail return_value
          else
            (* 6. the payload *)
            item <- on_codec Ev_GetNext (fun d => let (d', c) := tree_GetNext d in (c, d')) ;;
            (* 7. the signature *)
            signature <-
              on_codec Ev_GetByteString
                (fun d => let (d', b) := tree_GetByteString d in (b, d')) ;;
            on_codec Ev_ExitArray (fun d => (tt, tree_ExitArray d)) ;;;
            qcbor_error <- on_codec Ev_Finish (fun d => (tree_Finish d, d)) ;;
            if negb (qcbor_error =? QCBOR_SUCCESS) then
              fail (spec_qcbor_decode_error_to_t_cose_error qcbor_error
                      T_COSE_ERR_SIGN1_FORMAT)
            else
              let payload :=
                match item with
                | Some (CBstr p) => inr (UsefulBufC p)
                | Some (CSimple 22) =>
                    if q_useful_buf_c_is_null detached_payload
                    then inl T_COSE_ERR_MISSING_PAYLOAD
                    else inr detached_payload
                | _ => inl T_COSE_ERR_SIGN1_FORMAT
                end in
              match payload with
              | inl e => fail e
              | inr payload =>
                  (* 8 and 9. select the verifier and verify *)
                  return_value <-
                    dispatch_verify1 verifiers 0 option_flags protected_parameters
                      payload aad parameters signature ;;
                  if is_error return_value then fail return_value
                  else ret (T_COSE_SUCCESS, payload, parameters)
              end
        end
    | _ => fail T_COSE_ERR_SIGN1_FORMAT
    end.

(** The whole of verify(): the pipeline on a decoder over the message. *)
Definition t_cose_sign1_verify `{A : CryptoAdapter} (option_flags : Z)
    (verifiers : list verifier) (message detached_payload aad : q_useful_buf_c)
    (params : t_cose_parameter_storage)
  : t_cose_err_t * q_useful_buf_c * list t_cose_parameter :=
  fst (run (t_cose_sign1_decode option_flags verifiers detached_payload aad params)
           (tree_Init (ub_bytes message))).

(* ================================================================== *)
(** * The crypto adapter of the Makefile: short-circuit over SHA-256   *)
(* ================================================================== *)

(** The Makefile builds t_cose with the test crypto: no signing
    algorithm of a crypto library, only the bundled SHA-256.  The hash
    follows FIPS 180-4 on 32-bit words kept in [Z]. *)
Module SHA256.

Definition w32 (x : Z) : Z := x mod 4294967296.
Definition rotr (n x : Z) : Z := Z.lor (Z.shiftr x n) (w32 (Z.shiftl x (32 - n))).
Definition Ch (x y z : Z) : Z :=
  Z.lxor (Z.land x y) (Z.land (Z.lxor x 4294967295) z).
Definition Maj (x y z : Z) : Z :=
  Z.lxor (Z.lxor (Z.land x y) (Z.land x z)) (Z.land y z).
Definition Sigma0 (x : Z) : Z := Z.lxor (Z.lxor (rotr 2 x) (rotr 13 x)) (rotr 22 x).
Definition Sigma1 (x : Z) : Z := Z.lxor (Z.lxor (rotr 6 x) (rotr 11 x)) (rotr 25 x).
Definition sigma0 (x : Z) : Z := Z.lxor (Z.lxor (rotr 7 x) (rotr 18 x)) (Z.shiftr x 3).
Definition sigma1 (x : Z) : Z := Z.lxor (Z.lxor (rotr 17 x) (rotr 19 x)) (Z.shiftr x 10).

(** The constants are "the first thirty-two bits of the fractional parts"
    of the cube roots of the first sixty-four primes (the round
    constants) and of the square roots of the first eight (the initial
    hash value). *)
Definition is_prime (n : Z) : bool :=
  forallb (fun d => negb (n mod Z.of_nat d =? 0)) (seq 2 (Z.to_nat n - 2)).

Definition primes : list Z := filter is_prime (map Z.of_nat (seq 2 310)).

(** The integer cube root below 2 ^ [bits]: the bits are tried from the
    top. *)
Fixpoint icbrt (bits : nat) (n r : Z) : Z :=
  match bits with
  | O => r
  | S b =>
      let r' := r + 2 ^ Z.of_nat b in
      icbrt b n (if r' * r' * r' <=? n then r' else r)
  end.

Definition K : list Z :=
  Eval vm_compute in map (fun p => w32 (icbrt 36 (p * 2 ^ 96) 0)) primes.

Definition state : Type := (Z * Z * Z * Z * Z * Z * Z * Z)%type.

Definition H0 : state :=
  Eval vm_compute in
    match map (fun p => w32 (Z.sqrt (p * 2 ^ 64))) (firstn 8 primes) with
    | [a; b; c; d; e; f; g; h] => (a, b, c, d, e, f, g, h)
    | _ => (0, 0, 0, 0, 0, 0, 0, 0)
    end.

(** The message, the bit 1, zeros up to 56 modulo 64, and the length in
    bits on 8 bytes. *)
Definition pad (m : list Z) : list Z :=
  let l := len m in
  m ++ [128] ++ repeat 0 (Z.to_nat ((55 - l) mod 64)) ++ be_bytes 8 (8 * l).

(** The big-endian 32-bit words of a run of bytes. *)
Fixpoint words (n : nat) (bs : list Z) : list Z :=
  match n with
  | O => []
  | S n' => be_value (firstn 4 bs) :: words n' (skipn 4 bs)
  end.

(** The message schedule, latest word first: [n] more words after
    those of [w]. *)
Fixpoint schedule (n : nat) (w : list Z) : list Z :=
  match n with
  | O => w
  | S n' =>
      schedule n'
        (w32 (sigma1 (nth 1 w 0) + nth 6 w 0 + sigma0 (nth 14 w 0) + nth 15 w 0) :: w)
  end.

Definition round (s : state) (kw : Z * Z) : state :=
  let '(a, b, c, d, e, f, g, h) := s in
  let (k, w) := kw in
  let t1 := h + Sigma1 e + Ch e f g + k + w in
  let t2 := Sigma0 a + Maj a b c in
  (w32 (t1 + t2), a, b, c, w32 (d + t1), e, f, g).

Definition compress (s : state) (block : list Z) : state :=
  let w := rev (schedule 48 (rev (words 16 block))) in
  let '(a, b, c, d, e, f, g, h) := s in
  let '(a', b', c', d', e', f', g', h') := fold_left round (combine K w) s in
  (w32 (a + a'), w32 (b + b'), w32 (c + c'), w32 (d + d'),
   w32 (e + e'), w32 (f + f'), w32 (g + g'), w32 (h + h')).

Fixpoint blocks (n : nat) (s : state) (bs : list Z) : state :=
  match n with
  | O => s
  | S n' => blocks n' (compress s (firstn 64 bs)) (skipn 64 bs)
  end.

Definition digest_bytes (s : state) : list Z :=
  let '(a, b, c, d, e, f, g, h) := s in
  be_bytes 4 a ++ be_bytes 4 b ++ be_bytes 4 c ++ be_bytes 4 d ++
  be_bytes 4 e ++ be_bytes 4 f ++ be_bytes 4 g ++ be_bytes 4 h.

Definition sha256 (m : list Z) : list Z :=
  let p := pad m in
  digest_bytes (blocks (length p / 64) H0 p).

End SHA256.

(** The algorithm identifiers: ES256 from the registry (Section 6) and
    the identifier reserved for short-circuit signing over SHA-256. *)
Definition T_COSE_ALGORITHM_ES256 : Z := -7.
Definition T_COSE_ALGORITHM_SHORT_CIRCUIT_256 : Z := -1000256.

(** The test crypto: SHA-256 for the two algorithms that hash with it,
    no signing algorithm of its own, and the size of a short-circuit
    signature, which is the size of the hash. *)
#[export] Instance test_crypto : CryptoAdapter := {|
  t_cose_key := Z;
  T_COSE_NULL_KEY := 0;
  t_cose_algorithm_is_short_circuit := fun alg => alg =? T_COSE_ALGORITHM_SHORT_CIRCUIT_256;
  adapter_hash := fun alg m =>
    if (alg =? T_COSE_ALGORITHM_SHORT_CIRCUIT_256) || (alg =? T_COSE_ALGORITHM_ES256)
    then Some (SHA256.sha256 m) else None;
  adapter_sign := fun _ _ _ => (T_COSE_ERR_UNSUPPORTED_SIGNING_ALG, NULL_Q_USEFUL_BUF_C);
  adapter_verify := fun _ _ _ _ _ => T_COSE_ERR_UNSUPPORTED_SIGNING_ALG;
  adapter_sig_size := fun alg _ =>
    if alg =? T_COSE_ALGORITHM_SHORT_CIRCUIT_256 then (T_COSE_SUCCESS, 32)
    else (T_COSE_ERR_UNSUPPORTED_SIGNING_ALG, 0)
|}.

(** [payload] of test/t_cose_austere_test.c: sixteen rows of
    0x00, 0x01, 0x02, 0x03 twice over. *)
Definition payload : list Z :=
  concat (repeat [0; 1; 2; 3; 0; 1; 2; 3] 16).

(** A verifier context fresh from the initialiser, a parameter pool and
    the short-circuit signer of the examples. *)
Definition example_verifier_context
  : @struct_t_cose_signature_verify_short _ _ (spec_imports test_crypto) :=
  t_cose_signature_verify_short_init
    {| s := {| callback := None; callback1 := None; next_in_list := Some 7%nat |};
       reader := None; reader_ctx := Some tt |}.

Definition example_storage : t_cose_parameter_storage :=
  {| storage_size := 10; storage := [] |}.

Definition example_signer : Signer.t_cose_signature_sign signer_context :=
  spec_signer T_COSE_ALGORITHM_SHORT_CIRCUIT_256 0 example_short_circuit_kid.

(** A signer that follows the comment on
    [t_cose_signature_sign_h_callback]: its header callback meets an
    error, stores it in the context and contributes [alg]; its sign
    callback returns what the context holds. *)
Definition error_storing_signer : Signer.t_cose_signature_sign t_cose_err_t :=
  Signer.Build_signer
    (fun me _ _ _ _ qcbor_encoder => (me, me, qcbor_encoder))
    (fun _ _ => (T_COSE_ERR_UNSUPPORTED_SIGNING_ALG, [alg_parameter T_COSE_ALGORITHM_NONE]))
    None
    T_COSE_SUCCESS.

Definition is_sign_callback_event (e : event) : bool :=
  match e with
  | Ev_sign_callback => true
  | _ => false
  end.

(** What Section 4.5 takes for granted in a two-pass emission: the size
    that the adapter announces for the algorithm and the key is the
    length of the signatures it makes over the TBS hashes. *)
Definition sig_size_exact `{CryptoAdapter} (alg : Z) (key : t_cose_key) : Prop :=
  forall (protected_body_headers protected_signature_headers aad payload
          tbs_hash signature : q_useful_buf_c),
    spec_create_tbs_hash alg protected_body_headers protected_signature_headers aad payload
      spec_max_hash_size = (T_COSE_SUCCESS, tbs_hash) ->
    t_cose_crypto_sign alg key tbs_hash = (T_COSE_SUCCESS, signature) ->
    t_cose_crypto_sig_size alg key = (T_COSE_SUCCESS, ub_len signature).

(** The size calculation [en] and the real emission [er] are in step:
    the size calculation has no error, and as long as the real encoder
    has none either, both have counted the bytes that the real one
    holds. *)
Definition in_step (en er : QCBOREncodeContext) : Prop :=
  out_buffer en = None /\
  out_error en = false /\
  out_buffer er <> None /\
  (out_error er = false -> out_len en = out_len er /\ out_len er = len (out_data er)).

(** What steps 3 to 7 of the COSE_Sign1 pipeline hand to the encoder,
    one run of bytes per call, and the events that a run logs: steps 3
    to 7 are there when the merge accepted the parameters, step 9 when
    the run has no error. *)
Definition sign1_chunks (option_flags : Z) (parameters : list t_cose_parameter)
    (payload : q_useful_buf_c) : list (list Z) :=
  (if flag_is_set option_flags T_COSE_OPT_OMIT_CBOR_TAG then []
   else [encode_head 6 CBOR_TAG_COSE_SIGN1]) ++
  [encode_head 4 4;
   encode (CBstr (encode_protected parameters));
   encode (unprotected_map parameters);
   if flag_is_set option_flags T_COSE_OPT_DETACHED_PAYLOAD then encode CBOR_NULL
   else encode (CBstr (ub_bytes payload))].

Definition sign1_body_events (option_flags : Z) : list event :=
  (if flag_is_set option_flags T_COSE_OPT_OMIT_CBOR_TAG then [] else [Ev_AddTag]) ++
  [Ev_OpenArray; Ev_protected_headers; Ev_unprotected_headers; Ev_payload].

Definition sign1_events (option_flags : Z) (merged : bool) (return_value : t_cose_err_t)
  : list event :=
  [Ev_h_callback; Ev_merge_parameters] ++
  (if merged then sign1_body_events option_flags else []) ++
  [Ev_sign_callback] ++
  (if is_error return_value then [] else [Ev_CloseArray]).

(** The message as one CBOR item: the tag, and the array of the
    protected headers, the unprotected headers, the payload and the
    signature (Section 3). *)
Definition cose_sign1_item (protected : list Z) (unprotected : list cbor)
    (payload signature : list Z) : cbor :=
  CTag CBOR_TAG_COSE_SIGN1
    (CArr [CBstr protected; CMap unprotected; CBstr payload; CBstr signature]).

(** What "a key with a supported algorithm" asks of the crypto adapter:
    the algorithm identifier is an [int32_t], its hash digests every
    message into the hash buffer, and over every hash the key signs and
    the bytes of the signature verify under the same key, whatever the
    kid. *)
Definition supported_algorithm `{CryptoAdapter} (alg : Z) (key : t_cose_key) : Prop :=
  - 2 ^ 31 <= alg < 2 ^ 31 /\
  (forall m, exists digest,
      adapter_hash alg m = Some digest /\ len digest <= spec_max_hash_size) /\
  (forall kid tbs_hash,
      ub_len tbs_hash <= spec_max_hash_size ->
      exists signature,
        t_cose_crypto_sign alg key tbs_hash = (T_COSE_SUCCESS, signature) /\
        ub_len signature < 2 ^ 64 /\
        t_cose_crypto_verify alg key kid tbs_hash (UsefulBufC (ub_bytes signature))
        = T_COSE_SUCCESS).

(** The body parameters that the signer of the examples contributes. *)
Definition signer_parameters (alg : Z) (kid : q_useful_buf_c) : list t_cose_parameter :=
  alg_parameter alg ::
  match kid with
  | NULL_Q_USEFUL_BUF_C => []
  | UsefulBufC kid => [kid_parameter kid]
  end.

(** The test function of test/t_cose_austere_test.c.  The helper
    [make_ecdsa_key_pair] and the constant
    T_COSE_MINI_SIGN_SIZE_OVERHEAD_ES256 are parameters.

    Modelled from the spec: [t_cose_mini_sign] and [t_cose_sign1_verify]
    are not among the sources; they are sign() and verify() of Sections
    4.5 and 4.6 for ES256: a signer without a kid and no aad on one side,
    the verifier for the key on the other. *)
Definition t_cose_mini_sign `{CryptoAdapter} (payload : q_useful_buf_c)
    (signing_key : t_cose_key) (output_buffer : Z) : t_cose_err_t * q_useful_buf_c * Z :=
  t_cose_sign1_sign 0 (spec_signer T_COSE_ALGORITHM_ES256 signing_key NULL_Q_USEFUL_BUF_C)
    [] NULL_Q_USEFUL_BUF_C payload (Some output_buffer).

Definition austere_test `{CryptoAdapter}
    (make_ecdsa_key_pair : Z -> t_cose_err_t * t_cose_key)
    (T_COSE_MINI_SIGN_SIZE_OVERHEAD_ES256 : Z) : Z :=
  let (err, key_pair) := make_ecdsa_key_pair T_COSE_ALGORITHM_ES256 in
  if is_error err then 10
  else
    let output := len payload + T_COSE_MINI_SIGN_SIZE_OVERHEAD_ES256 in
    let '(err, cose_sign1, _) := t_cose_mini_sign (UsefulBufC payload) key_pair output in
    if is_error err then 20
    else
      let '(err, verified_payload, _) :=
        t_cose_sign1_verify 0 [spec_verifier T_COSE_ALGORITHM_ES256 key_pair]
          cose_sign1 NULL_Q_USEFUL_BUF_C NULL_Q_USEFUL_BUF_C example_storage in
      if is_error err then 30 else 0.

(** ** Inputs of the examples *)

(** A decoder with nothing to decode, for the calls that do not use
    it. *)
Definition example_world : world tree_decoder :=
  {| codec := tree_Init []; log := [] |}.

(** The protected headers and the parameters of a short-circuit
    message, and the hash of its Sig_structure over [payload] without
    aad. *)
Definition example_protected : q_useful_buf_c :=
  UsefulBufC (encode (CMap [CUint 1; cbor_of_int T_COSE_ALGORITHM_SHORT_CIRCUIT_256])).

Definition example_parameters : list t_cose_parameter :=
  signer_parameters T_COSE_ALGORITHM_SHORT_CIRCUIT_256 example_short_circuit_kid.

Definition example_tbs_hash : q_useful_buf_c :=
  UsefulBufC
    (SHA256.sha256
       (encode (sig_structure example_protected NULL_Q_USEFUL_BUF_C
                  (UsefulBufC []) (UsefulBufC payload)))).

(** A COSE_Signature of a COSE_Sign message over [payload]: its own
    protected and unprotected headers and the short-circuit signature,
    which is the hash of the Sig_structure with both protected
    buckets. *)
Definition example_body_protected : q_useful_buf_c :=
  UsefulBufC (encode (CMap [CUint 3; CUint 0])).

Definition example_cose_signature : cbor :=
  CArr [CBstr (ub_bytes example_protected);
        CMap [CUint 4; CBstr (ub_bytes example_short_circuit_kid)];
        CBstr (SHA256.sha256
                 (encode (sig_structure example_body_protected example_protected
                            (UsefulBufC []) (UsefulBufC payload))))].

(** A decoder inside the array of signatures of a COSE_Sign message with
    two signatures, in front of the first. *)
Definition example_signatures_world : world tree_decoder :=
  {| codec :=
       tree_EnterArray
         (tree_Init (encode (CArr [example_cose_signature; example_cose_signature])));
     log := [] |}.

(** The same with a first element that is no COSE_Signature: the place
    of the protected headers holds an integer. *)
Definition example_bad_signatures_world : world tree_decoder :=
  {| codec :=
       tree_EnterArray
         (tree_Init (encode (CArr [CArr [CUint 1; CMap []; CBstr [1; 2]];
                                   example_cose_signature])));
     log := [] |}.

(* ================================================================== *)
(** * Proof tools                                                      *)
(* ================================================================== *)

Ltac split_andb :=
  repeat match goal with
         | H : _ && _ = true |- _ => apply andb_prop in H; destruct H
         | H : (_ <? _) = true |- _ => apply Z.ltb_lt in H
         | H : (_ <=? _) = true |- _ => apply Z.leb_le in H
         | H : (_ =? _) = true |- _ => apply Z.eqb_eq in H
         end.

Ltac arith := unfold len in *; Z.div_mod_to_equations; lia.

(** Prove the premise of [H] by evaluation and drop it. *)
Ltac by_evaluation H :=
  match type of H with
  | ?P -> _ =>
      let Hp := fresh "Hp" in
      assert (Hp : P) by (vm_compute; first [reflexivity | discriminate]);
      specialize (H Hp); clear Hp
  end.

(* ================================================================== *)
(** * test/run_tests.c                                                 *)
(* ================================================================== *)

(** A [const char *] is a [String.string]; the names of the tests, the
    pieces of the report and the strings that [NumToString] returns are
    of that type. *)

(** QCBOR's [UsefulOutBuf], which [NumToString] writes the digits to: a
    buffer of a fixed size, the bytes written so far and one error flag.
    A byte that does not fit sets the flag, and once the flag is set
    nothing is written any more. *)
Record UsefulOutBuf : Type := {
  ob_size : Z;
  ob_data : list Z;
  ob_err : bool
}.

(** [UsefulOutBuf_Init(&OutBuf, StringMem)], with the size of
    [StringMem]. *)
Definition UsefulOutBuf_Init (size : Z) : UsefulOutBuf :=
  {| ob_size := size; ob_data := []; ob_err := false |}.

(** The argument is a [uint8_t]. *)
Definition UsefulOutBuf_AppendByte (me : UsefulOutBuf) (byte : Z) : UsefulOutBuf :=
  if ob_err me then me
  else if ob_size me <? len (ob_data me) + 1 then
    {| ob_size := ob_size me; ob_data := ob_data me; ob_err := true |}
  else
    {| ob_size := ob_size me; ob_data := ob_data me ++ [byte mod 256]; ob_err := false |}.

Definition UsefulOutBuf_GetError (me : UsefulOutBuf) : bool := ob_err me.

(** The C string that starts at the first byte: the characters in front
    of the first NUL. *)
Fixpoint c_string (bytes : list Z) : String.string :=
  match bytes with
  | [] => String.EmptyString
  | b :: rest =>
      if b =? 0 then String.EmptyString
      else String.String (Ascii.ascii_of_N (Z.to_N b)) (c_string rest)
  end.

Section NumToString.
Import String.
Local Open Scope string_scope.
Local Open Scope Z_scope.

Definition nMax : Z := 1000000000.

(** The loop [for(int n = nMax; n > 0; n/=10)] of [NumToString], from
    the divisor [n] on.  The division of two [int]s truncates
    ([Z.quot]); ['0'] is 48.  The divisor loses a digit with every
    turn, so ten turns end the loop that starts at [nMax]. *)
Fixpoint NumToString_loop (turns : nat) (n nNum : Z) (bDidSomeOutput : bool)
    (OutBuf : UsefulOutBuf) : Z * bool * UsefulOutBuf :=
  match turns with
  | O => (nNum, bDidSomeOutput, OutBuf)
  | S turns =>
      if n >? 0 then
        let x := Z.quot nNum n in
        if negb (x =? 0) || bDidSomeOutput then
          NumToString_loop turns (Z.quot n 10) (nNum - x * n) true
            (UsefulOutBuf_AppendByte OutBuf (48 + x))
        else
          NumToString_loop turns (Z.quot n 10) nNum bDidSomeOutput OutBuf
      else (nNum, bDidSomeOutput, OutBuf)
  end.

(** [NumToString(nNum, StringMem)]; [StringMem] is given by its size,
    45 is ['-'].  [nNum] is an [int32_t]: the negation of INT32_MIN
    overflows, which C leaves undefined, so the properties below take
    [- 2 ^ 31 < nNum]. *)
Definition NumToString (nNum : Z) (StringMem : Z) : String.string :=
  let OutBuf := UsefulOutBuf_Init StringMem in
  let (OutBuf, nNum) :=
    if nNum <? 0 then (UsefulOutBuf_AppendByte OutBuf 45, - nNum)
    else (OutBuf, nNum) in
  if nNum >? nMax - 1 then "XXX"
  else
    let '(_, bDidSomeOutput, OutBuf) :=
      NumToString_loop 11 nMax nNum false OutBuf in
    let OutBuf :=
      if negb bDidSomeOutput then UsefulOutBuf_AppendByte OutBuf 48 else OutBuf in
    let OutBuf := UsefulOutBuf_AppendByte OutBuf 0 in
    if UsefulOutBuf_GetError OutBuf then "" else c_string (ob_data OutBuf).

End NumToString.

(* ================================================================== *)
(** * Decimal digits                                                   *)
(* ================================================================== *)

(** What the properties of [NumToString] are stated with. *)

(** The digits of [m], the most significant first: [k] of them, and
    those that are left without the zeros in front. *)
Fixpoint digits_fixed (k : nat) (m : Z) : list Z :=
  match k with
  | O => []
  | S k => m / 10 ^ Z.of_nat k :: digits_fixed k (m mod 10 ^ Z.of_nat k)
  end.

Fixpoint drop_zeros (ds : list Z) : list Z :=
  match ds with
  | d :: ds' => if d =? 0 then drop_zeros ds' else ds
  | [] => []
  end.

Definition decimal_value (ds : list Z) : Z := fold_left (fun a d => 10 * a + d) ds 0.

Definition is_digit (d : Z) : Prop := 0 <= d <= 9.

(** The digits as a number of the standard library. *)
Definition uint_of_digit (d : Z) (u : Decimal.uint) : Decimal.uint :=
  match d with
  | 0 => Decimal.D0 u
  | 1 => Decimal.D1 u
  | 2 => Decimal.D2 u
  | 3 => Decimal.D3 u
  | 4 => Decimal.D4 u
  | 5 => Decimal.D5 u
  | 6 => Decimal.D6 u
  | 7 => Decimal.D7 u
  | 8 => Decimal.D8 u
  | _ => Decimal.D9 u
  end.

Definition uint_of_digits (ds : list Z) : Decimal.uint :=
  fold_right uint_of_digit Decimal.Nil ds.

(** The characters of the digits. *)
Definition digit_bytes (ds : list Z) : list Z := map (fun d => 48 + d) ds.

(** One [UsefulOutBuf_AppendByte] after the other. *)
Definition append_bytes (OutBuf : UsefulOutBuf) (bytes : list Z) : UsefulOutBuf :=
  fold_left UsefulOutBuf_AppendByte bytes OutBuf.

(** The number in decimal, as the standard library writes it: a minus
    sign in front of a negative number, no zeros in front, "0" for
    zero. *)
Definition decimal_string (n : Z) : String.string :=
  DecimalString.NilEmpty.string_of_int (Z.to_int n).

(** The bytes that [NumToString] hands to the buffer for a number of at
    most nine digits: the sign, the digits and the NUL. *)
Definition number_bytes (n : Z) : list Z :=
  (if n <? 0 then [45] else []) ++
  digit_bytes (drop_zeros (digits_fixed 10 (Z.abs n))) ++
  (if Z.abs n =? 0 then [48] else []) ++ [0].

Ltac digit_cases d :=
  match goal with
  | H : is_digit d |- _ =>
      let E := fresh "E" in
      assert (E : d = 0 \/ d = 1 \/ d = 2 \/ d = 3 \/ d = 4 \/ d = 5 \/ d = 6 \/
                  d = 7 \/ d = 8 \/ d = 9) by (unfold is_digit in H; lia);
      clear H;
      repeat (destruct E as [E|E]; [subst d | ]); [ .. | subst d]
  end.

(* ================================================================== *)
(** * The test runner                                                  *)
(* ================================================================== *)

(** What [RunTests] and [PrintSize] do to the world: they run tests and
    they call the output function.  Every such call is logged, a test
    with what it returned. *)
Inductive run_event : Type :=
| Ev_test (szTestName : String.string) (nTestResult : Z)
| Ev_output (sz : String.string) (bNewline : Z).

Section RunTests.
Import String.
Local Open Scope string_scope.
Local Open Scope Z_scope.

(** The state that the test functions and the output function act on,
    and the type of the context pointer that the output function is
    handed. *)
Variable W : Type.
Variable Ctx : Type.

Record run_state : Type := {
  test_world : W;
  calls : list run_event
}.

(** [typedef int (test_fun_t)(void)] *)
Definition test_fun_t : Type := W -> Z * W.

Record test_entry : Type := {
  szTestName : String.string;
  test_fun : test_fun_t;
  bEnabled : bool
}.

Definition TEST_ENTRY (name : String.string) (test_name : test_fun_t) : test_entry :=
  {| szTestName := name; test_fun := test_name; bEnabled := true |}.

Definition TEST_ENTRY_DISABLED (name : String.string) (test_name : test_fun_t)
  : test_entry :=
  {| szTestName := name; test_fun := test_name; bEnabled := false |}.

(** [OutputStringCB] of run_tests.h: the string, the context, and
    whether a new line follows. *)
Definition OutputStringCB : Type := String.string -> Ctx -> Z -> W -> W.

(** [( *pfOutput)(sz, poutCtx, bNewline)] *)
Definition call_output (pfOutput : OutputStringCB) (sz : String.string)
    (poutCtx : Ctx) (bNewline : Z) (st : run_state) : run_state :=
  {| test_world := pfOutput sz poutCtx bNewline (test_world st);
     calls := (calls st ++ [Ev_output sz bNewline])%list |}.

(** [(t->test_fun)()] *)
Definition call_test (t : test_entry) (st : run_state) : Z * run_state :=
  let (nTestResult, w) := test_fun t (test_world st) in
  (nTestResult,
   {| test_world := w;
      calls := (calls st ++ [Ev_test (szTestName t) nTestResult])%list |}).

(** The table of the tests.  Its entries are functions of other files;
    the table of run_tests.c is [s_tests_of_file] below. *)
Variable s_tests : list test_entry.

(** The search of the requested names for the name of a test: the loop
    stops at the name that matches, or at the null pointer that ends
    the array. *)
Fixpoint name_is_requested (szRequestedNames : list String.string)
    (szTestName : String.string) : bool :=
  match szRequestedNames with
  | [] => false
  | name :: szRequestedNames =>
      if String.eqb szTestName name then true
      else name_is_requested szRequestedNames szTestName
  end.

(** The loop [for(t = s_tests; t < s_tests_end; t++)] of [RunTests],
    from the entry [t] on.  The two counters are [int]s; they count
    entries of the table. *)
Fixpoint RunTests_loop (t : list test_entry) (szTestNames : list String.string)
    (pfOutput : option OutputStringCB) (poutCtx : Ctx) (StringStorage : Z)
    (nTestsFailed nTestsRun : Z) (st : run_state) : Z * Z * run_state :=
  match t with
  | [] => (nTestsFailed, nTestsRun, st)
  | t :: rest =>
      let skipped :=
        match szTestNames with
        | _ :: _ =>
            (* Some tests have been named *)
            negb (name_is_requested szTestNames (szTestName t))
        | [] =>
            (* no tests named, but don't run "disabled" tests *)
            negb (bEnabled t)
        end in
      if skipped then
        RunTests_loop rest szTestNames pfOutput poutCtx StringStorage
          nTestsFailed nTestsRun st
      else
        let (nTestResult, st) := call_test t st in
        let nTestsRun := nTestsRun + 1 in
        let st :=
          match pfOutput with
          | Some pfOutput => call_output pfOutput (szTestName t) poutCtx 0 st
          | None => st
          end in
        if negb (nTestResult =? 0) then
          let st :=
            match pfOutput with
            | Some pfOutput =>
                let st := call_output pfOutput " FAILED (returned " poutCtx 0 st in
                let st :=
                  call_output pfOutput (NumToString nTestResult StringStorage)
                    poutCtx 0 st in
                call_output pfOutput ")" poutCtx 1 st
            | None => st
            end in
          RunTests_loop rest szTestNames pfOutput poutCtx StringStorage
            (nTestsFailed + 1) nTestsRun st
        else
          let st :=
            match pfOutput with
            | Some pfOutput => call_output pfOutput " PASSED" poutCtx 1 st
            | None => st
            end in
          RunTests_loop rest szTestNames pfOutput poutCtx StringStorage
            nTestsFailed nTestsRun st
  end.

(** [RunTests].  [szTestNames] is the array of names without the null
    pointer that ends it; [pNumTestsRun] holds what the pointer points
    to, [None] for a null pointer.  The loop over [s_tests2] is compiled
    under STRING_RETURNING_TESTS only, and [s_tests2] has no entries. *)
Definition RunTests (szTestNames : list String.string)
    (pfOutput : option OutputStringCB) (poutCtx : Ctx) (pNumTestsRun : option Z)
    (w : W) : Z * option Z * run_state :=
  let StringStorage := 12 in
  let '(nTestsFailed, nTestsRun, st) :=
    RunTests_loop s_tests szTestNames pfOutput poutCtx StringStorage 0 0
      {| test_world := w; calls := [] |} in
  let pNumTestsRun :=
    match pNumTestsRun with
    | Some _ => Some nTestsRun
    | None => None
    end in
  let st :=
    match pfOutput with
    | Some pfOutput =>
        let st := call_output pfOutput "SUMMARY: " poutCtx 0 st in
        let st := call_output pfOutput (NumToString nTestsRun StringStorage) poutCtx 0 st in
        let st := call_output pfOutput " tests run; " poutCtx 0 st in
        let st :=
          call_output pfOutput (NumToString nTestsFailed StringStorage) poutCtx 0 st in
        call_output pfOutput " tests failed" poutCtx 1 st
    | None => st
    end in
  (nTestsFailed, pNumTestsRun, st).

(** The conversion of a [uint32_t] argument to the [int32_t] parameter
    of [NumToString]. *)
Definition int32_of_uint32 (u : Z) : Z :=
  if u <? 2 ^ 31 then u else u - 2 ^ 32.

(** [PrintSize]. The output function is called without a test for the
    null pointer. *)
Definition PrintSize (szWhat : String.string) (uSize : Z) (pfOutput : OutputStringCB)
    (pOutCtx : Ctx) (st : run_state) : run_state :=
  let buffer := 20 in
  let st := call_output pfOutput szWhat pOutCtx 0 st in
  let st := call_output pfOutput " " pOutCtx 0 st in
  let st := call_output pfOutput (NumToString (int32_of_uint32 uSize) buffer) pOutCtx 0 st in
  call_output pfOutput "" pOutCtx 1 st.

(** [PrintSizes]; the three [sizeof] are the platform's, and each is
    cast to [uint32_t]. *)
Definition PrintSizes
    (sizeof_t_cose_sign1_sign_ctx sizeof_t_cose_key sizeof_t_cose_crypto_hash : Z)
    (pfOutput : OutputStringCB) (pOutCtx : Ctx) (st : run_state) : run_state :=
  let st :=
    PrintSize "sizeof(struct t_cose_sign1_ctx)"
      (sizeof_t_cose_sign1_sign_ctx mod 2 ^ 32) pfOutput pOutCtx st in
  let st :=
    PrintSize "sizeof(struct t_cose_signing_key)"
      (sizeof_t_cose_key mod 2 ^ 32) pfOutput pOutCtx st in
  let st :=
    PrintSize "sizeof(struct t_cose_crypto_hash)"
      (sizeof_t_cose_crypto_hash mod 2 ^ 32) pfOutput pOutCtx st in
  call_output pfOutput "" pOutCtx 1 st.

(** ** Reading the log *)

(** The tests that were run, with what they returned, and the calls of
    the output function, both in the order of the calls. *)
Definition tests_run (l : list run_event) : list (String.string * Z) :=
  flat_map (fun e => match e with Ev_test name r => [(name, r)] | _ => [] end) l.

Definition outputs (l : list run_event) : list (String.string * Z) :=
  flat_map (fun e => match e with Ev_output sz nl => [(sz, nl)] | _ => [] end) l.

(** The text that the calls of the output function make: the lines that
    were ended, and what follows the last end of line. *)
Fixpoint lines_from (pending : String.string) (out : list (String.string * Z))
  : list String.string * String.string :=
  match out with
  | [] => ([], pending)
  | (sz, bNewline) :: out =>
      if bNewline =? 0 then lines_from (pending ++ sz) out
      else
        let (lines, rest) := lines_from "" out in
        ((pending ++ sz) :: lines, rest)
  end.

Definition output_text (l : list run_event) : list String.string * String.string :=
  lines_from "" (outputs l).

(** Whether [RunTests] runs the entry, by the text of the two comments
    in the loop: the enabled tests when no test is named, the named
    tests otherwise. *)
Definition selected (szTestNames : list String.string) (t : test_entry) : bool :=
  match szTestNames with
  | [] => bEnabled t
  | _ => if in_dec String.string_dec (szTestName t) szTestNames then true else false
  end.

Definition test_failed (r : String.string * Z) : bool := negb (snd r =? 0).

(** What the report shows for an [int]: the number in decimal when it
    has at most nine digits. *)
Definition printed_number (n : Z) : String.string :=
  if (- nMax <? n) && (n <? nMax) then decimal_string n else "XXX".

(** The line of the report for one test that was run, and the last
    line. *)
Definition report_line (r : String.string * Z) : String.string :=
  if snd r =? 0 then fst r ++ " PASSED"
  else fst r ++ " FAILED (returned " ++ printed_number (snd r) ++ ")".

Definition summary_line (nTestsRun nTestsFailed : Z) : String.string :=
  "SUMMARY: " ++ decimal_string nTestsRun ++ " tests run; " ++
  decimal_string nTestsFailed ++ " tests failed".

(** The calls of the output function that [RunTests] makes for one
    test. *)
Definition report_outputs (StringStorage : Z) (r : String.string * Z)
  : list (String.string * Z) :=
  (fst r, 0) ::
  (if snd r =? 0 then [(" PASSED", 1)]
   else [(" FAILED (returned ", 0); (NumToString (snd r) StringStorage, 0); (")", 1)]).

(** The five calls for the last line of the report. *)
Definition summary_outputs (nTestsRun nTestsFailed : Z) : list (String.string * Z) :=
  [("SUMMARY: ", 0); (NumToString nTestsRun 12, 0); (" tests run; ", 0);
   (NumToString nTestsFailed 12, 0); (" tests failed", 1)].

(** The world after the tests of a list, one after the other, and
    nothing else. *)
Definition run_selected (ts : list test_entry) (w : W) : W :=
  fold_left (fun w t => snd (test_fun t w)) ts w.

End RunTests.

Arguments test_world {W} _.
Arguments calls {W} _.
Arguments szTestName {W} _.
Arguments test_fun {W} _.
Arguments bEnabled {W} _.
Arguments TEST_ENTRY {W} _ _.
Arguments TEST_ENTRY_DISABLED {W} _ _.
Arguments call_output {W Ctx} _ _ _ _ _.
Arguments call_test {W} _ _.
Arguments RunTests_loop {W Ctx} _ _ _ _ _ _ _ _.
Arguments RunTests {W Ctx} _ _ _ _ _ _.
Arguments PrintSize {W Ctx} _ _ _ _ _.
Arguments PrintSizes {W Ctx} _ _ _ _ _ _.
Arguments selected {W} _ _.
Arguments run_selected {W} _ _.

(** The table [s_tests] of run_tests.c.  The test functions are those of
    t_cose_test.c and t_cose_sign_verify_test.c; the two booleans are
    the macros T_COSE_DISABLE_SIGN_VERIFY_TESTS and
    T_COSE_ENABLE_HASH_FAIL_TEST. *)
Section TestTable.
Import String.
Local Open Scope string_scope.
Local Open Scope Z_scope.
Variable W : Type.
Variables T_COSE_DISABLE_SIGN_VERIFY_TESTS T_COSE_ENABLE_HASH_FAIL_TEST : bool.
Variables sign_verify_basic_test sign_verify_make_cwt_test sign_verify_sig_fail_test
  : test_fun_t W.
Variables sign1_structure_decode_test content_type_test all_headers_test
  cose_example_test critical_headers_test bad_headers_test
  short_circuit_no_parse_test short_circuit_make_cwt_test
  short_circuit_signing_error_conditions_test short_circuit_verify_fail_test
  short_circuit_self_test short_circuit_hash_fail_test : test_fun_t W.

Definition s_tests_of_file : list (test_entry W) :=
  ((if T_COSE_DISABLE_SIGN_VERIFY_TESTS then []
    else [TEST_ENTRY "sign_verify_basic_test" sign_verify_basic_test;
          TEST_ENTRY "sign_verify_make_cwt_test" sign_verify_make_cwt_test;
          TEST_ENTRY "sign_verify_sig_fail_test" sign_verify_sig_fail_test]) ++
   [TEST_ENTRY "sign1_structure_decode_test" sign1_structure_decode_test;
    TEST_ENTRY "content_type_test" content_type_test;
    TEST_ENTRY "all_headers_test" all_headers_test;
    TEST_ENTRY "cose_example_test" cose_example_test;
    TEST_ENTRY "critical_headers_test" critical_headers_test;
    TEST_ENTRY "bad_headers_test" bad_headers_test;
    TEST_ENTRY "short_circuit_no_parse_test" short_circuit_no_parse_test;
    TEST_ENTRY "short_circuit_make_cwt_test" short_circuit_make_cwt_test;
    TEST_ENTRY "short_circuit_signing_error_conditions_test"
      short_circuit_signing_error_conditions_test;
    TEST_ENTRY "short_circuit_verify_fail_test" short_circuit_verify_fail_test;
    TEST_ENTRY "short_circuit_self_test" short_circuit_self_test] ++
   (if T_COSE_ENABLE_HASH_FAIL_TEST
    then [TEST_ENTRY "short_circuit_hash_fail_test" short_circuit_hash_fail_test]
    else []))%list.

End TestTable.


(* ================================================================== *)
(** * Inputs of the examples for the test runner and the hash failure  *)
(* ================================================================== *)

Section RunTestsExamples.
Import String.
Local Open Scope string_scope.
Local Open Scope Z_scope.

(** A table of three tests over a counter: one that passes, one that
    fails with 3, and a disabled one that fails with a number of ten
    digits.  The output function leaves the counter alone. *)
Definition example_tests : list (test_entry Z) :=
  [TEST_ENTRY "first_test" (fun w => (0, w + 1));
   TEST_ENTRY "second_test" (fun w => (3, w + 10));
   TEST_ENTRY_DISABLED "third_test" (fun w => (-1000000000, w + 100))].

Definition example_output : OutputStringCB Z unit := fun _ _ _ w => w.

End RunTestsExamples.

(** The test crypto with the hash made to fail, which is what the test
    that T_COSE_ENABLE_HASH_FAIL_TEST adds to the table is about. *)
Definition hash_fail_crypto : CryptoAdapter := {|
  t_cose_key := Z;
  T_COSE_NULL_KEY := 0;
  t_cose_algorithm_is_short_circuit := fun alg => alg =? T_COSE_ALGORITHM_SHORT_CIRCUIT_256;
  adapter_hash := fun _ _ => None;
  adapter_sign := fun _ _ _ => (T_COSE_ERR_UNSUPPORTED_SIGNING_ALG, NULL_Q_USEFUL_BUF_C);
  adapter_verify := fun _ _ _ _ _ => T_COSE_ERR_UNSUPPORTED_SIGNING_ALG;
  adapter_sig_size := fun _ _ => (T_COSE_ERR_UNSUPPORTED_SIGNING_ALG, 0)
|}.

Definition hash_fail_verifier_context
  : @struct_t_cose_signature_verify_short _ _ (spec_imports hash_fail_crypto) :=
  t_cose_signature_verify_short_init
    {| s := {| callback := None; callback1 := None; next_in_list := None |};
       reader := None; reader_ctx := None |}.

(** A stand-in for a crypto library with ES256, of the shape that the
    test needs and of no cryptographic value: SHA-256 for the hash, and
    for the signature the hash filled up to 64 bytes with a byte of the
    key, which verifies under the key that made it. *)
Definition stand_in_signature (key : Z) (hash : list Z) : list Z :=
  firstn 64 (hash ++ repeat (key mod 256) 64).

Definition stand_in_es256_crypto : CryptoAdapter := {|
  t_cose_key := Z;
  T_COSE_NULL_KEY := 0;
  t_cose_algorithm_is_short_circuit := fun _ => false;
  adapter_hash := fun alg m =>
    if alg =? T_COSE_ALGORITHM_ES256 then Some (SHA256.sha256 m) else None;
  adapter_sign := fun alg key tbs =>
    if alg =? T_COSE_ALGORITHM_ES256
    then (T_COSE_SUCCESS, UsefulBufC (stand_in_signature key (ub_bytes tbs)))
    else (T_COSE_ERR_UNSUPPORTED_SIGNING_ALG, NULL_Q_USEFUL_BUF_C);
  adapter_verify := fun alg key _ tbs signature =>
    if alg =? T_COSE_ALGORITHM_ES256 then
      if q_useful_buf_compare signature
           (UsefulBufC (stand_in_signature key (ub_bytes tbs))) =? 0
      then T_COSE_SUCCESS else T_COSE_ERR_SIG_VERIFY_FAIL
    else T_COSE_ERR_UNSUPPORTED_SIGNING_ALG;
  adapter_sig_size := fun alg _ =>
    if alg =? T_COSE_ALGORITHM_ES256 then (T_COSE_SUCCESS, 64)
    else (T_COSE_ERR_UNSUPPORTED_SIGNING_ALG, 0)
|}.

(* ================================================================== *)
(** * Properties of the byte-buffer comparison                         *)
(* ================================================================== *)

Lemma memcmp_refl (l : list Z) : memcmp l l = 0.
Proof.
  induction l as [|a l IH]; simpl; [reflexivity|].
  now rewrite Z.eqb_refl.
Qed.

Lemma memcmp_zero_eq (l1 l2 : list Z) :
  length l1 = length l2 -> memcmp l1 l2 = 0 -> l1 = l2.
Proof.
  revert l2; induction l1 as [|a l1 IH]; intros [|b l2] Hlen Hcmp;
    simpl in *; try discriminate; [reflexivity|].
  destruct (Z.eqb_spec a b) as [->|Hne].
  - f_equal. apply IH; [congruence | assumption].
  - lia.
Qed.

Lemma q_useful_buf_compare_zero_iff (b1 b2 : q_useful_buf_c) :
  q_useful_buf_compare b1 b2 = 0 <-> ub_bytes b1 = ub_bytes b2.
Proof.
  unfold q_useful_buf_compare, ub_len. split.
  - destruct (Z.ltb_spec (Z.of_nat (length (ub_bytes b1)))
                         (Z.of_nat (length (ub_bytes b2)))); [discriminate|].
    destruct (Z.gtb_spec (Z.of_nat (length (ub_bytes b1)))
                         (Z.of_nat (length (ub_bytes b2)))); [discriminate|].
    apply memcmp_zero_eq. lia.
  - intros ->. rewrite Z.ltb_irrefl.
    destruct (Z.gtb_spec (Z.of_nat (length (ub_bytes b2)))
                         (Z.of_nat (length (ub_bytes b2)))); [lia|].
    apply memcmp_refl.
Qed.

Lemma is_error_false_iff (e : t_cose_err_t) :
  is_error e = false <-> e = T_COSE_SUCCESS.
Proof. destruct e; cbv; split; intro; congruence. Qed.

Lemma is_error_true_iff (e : t_cose_err_t) :
  is_error e = true <-> e <> T_COSE_SUCCESS.
Proof. destruct e; cbv; split; intro; congruence. Qed.

(* ================================================================== *)
(** * The short-circuit verifier                                       *)
(* ================================================================== *)

(** The verify1 callback never touches the decoder, and it only adds to
    the log. *)
Lemma verify1_short_frame `{I : Imports}
    (me_x : struct_t_cose_signature_verify_short) (option_flags : Z)
    (pbh psh payload aad : q_useful_buf_c) (ps : list t_cose_parameter)
    (signature : q_useful_buf_c) (w : world QCBORDecodeContext) :
  exists l,
    snd (t_cose_signature_verify1_short me_x option_flags pbh psh payload aad
           ps signature w)
    = {| codec := codec w; log := log w ++ l |}.
Proof.
  unfold t_cose_signature_verify1_short, bind, call, ret; simpl.
  destruct (t_cose_algorithm_is_short_circuit _); simpl; [|eauto].
  destruct (q_useful_buf_compare _ _ =? 0); simpl; [|rewrite <- !app_assoc; eauto].
  destruct (flag_is_set _ _); simpl; [rewrite <- !app_assoc; eauto|].
  destruct (create_tbs_hash _ _ _ _ _ _) as [rv h]; simpl.
  destruct (is_error rv); simpl; rewrite <- !app_assoc; eauto.
Qed.

Section VerifyShort.
Context `{I : Imports}.

Variable me_x : struct_t_cose_signature_verify_short.
Variable option_flags : Z.
Variables protected_body_headers protected_signature_headers : q_useful_buf_c.
Variables payload aad signature : q_useful_buf_c.
Variable body_parameters : list t_cose_parameter.

Local Abbreviation alg := (t_cose_find_parameter_alg_id body_parameters).
Local Abbreviation kid := (t_cose_find_parameter_kid body_parameters).
Local Abbreviation verify1 :=
  (t_cose_signature_verify1_short me_x option_flags protected_body_headers
     protected_signature_headers payload aad body_parameters signature).

(** C4.  When the algorithm found in the body parameters is not a
    short-circuit one, the verify1 callback returns
    T_COSE_ERR_UNSUPPORTED_SIGNING_ALG at once: the only call made is the
    lookup of the algorithm, so no kid is compared, no hash is computed
    and no signature is verified. *)
Theorem verify1_short_other_alg_unsupported (w : world QCBORDecodeContext) :
  t_cose_algorithm_is_short_circuit alg = false ->
  verify1 w =
    (T_COSE_ERR_UNSUPPORTED_SIGNING_ALG,
     {| codec := codec w; log := log w ++ [Ev_find_parameter_alg_id] |}).
Proof.
  intros Halg.
  unfold t_cose_signature_verify1_short, bind, call, ret; simpl.
  now rewrite Halg.
Qed.

(** C5.  During short-circuit verification (the algorithm is a
    short-circuit one), a kid that differs bytewise from
    get_short_circuit_kid() makes the verify1 callback fail with
    T_COSE_ERR_KID_UNMATCHED, whatever the option flags; the calls made
    are the two lookups and the comparison, so no signature is
    verified. *)
Theorem verify1_short_kid_unmatched (w : world QCBORDecodeContext) :
  t_cose_algorithm_is_short_circuit alg = true ->
  ub_bytes kid <> ub_bytes get_short_circuit_kid ->
  verify1 w =
    (T_COSE_ERR_KID_UNMATCHED,
     {| codec := codec w;
        log := log w ++ [Ev_find_parameter_alg_id; Ev_find_parameter_kid;
                         Ev_kid_compare kid] |}).
Proof.
  intros Halg Hkid.
  unfold t_cose_signature_verify1_short, bind, call, ret; simpl.
  rewrite Halg; simpl.
  destruct (Z.eqb_spec (q_useful_buf_compare kid get_short_circuit_kid) 0) as [E|_].
  - apply q_useful_buf_compare_zero_iff in E. contradiction.
  - simpl. now rewrite <- !app_assoc.
Qed.

(** C3.  With T_COSE_OPT_DECODE_ONLY set, the verify1 callback skips the
    verification step: the calls it makes include neither the
    computation of the TBS hash nor the signature check, the decoder is
    left alone, and the result is success exactly when the two header
    checks pass (the algorithm is a short-circuit one and the kid is the
    short-circuit kid). *)
Theorem verify1_short_decode_only (w : world QCBORDecodeContext) :
  flag_is_set option_flags T_COSE_OPT_DECODE_ONLY = true ->
  (exists l,
      snd (verify1 w) = {| codec := codec w; log := log w ++ l |} /\
      forallb (fun e => negb (is_verification_event e)) l = true) /\
  (fst (verify1 w) = T_COSE_SUCCESS <->
   t_cose_algorithm_is_short_circuit alg = true /\
   ub_bytes kid = ub_bytes get_short_circuit_kid).
Proof.
  intros Hflag.
  unfold t_cose_signature_verify1_short, bind, call, ret; simpl.
  destruct (t_cose_algorithm_is_short_circuit alg); simpl.
  - destruct (Z.eqb_spec (q_useful_buf_compare kid get_short_circuit_kid) 0) as [E|E];
      simpl.
    + rewrite Hflag; simpl. split.
      * eexists. rewrite <- !app_assoc. split; reflexivity.
      * apply q_useful_buf_compare_zero_iff in E. tauto.
    + split.
      * eexists. rewrite <- !app_assoc. split; reflexivity.
      * rewrite <- q_useful_buf_compare_zero_iff.
        split; [discriminate | tauto].
  - split.
    + eexists. split; reflexivity.
    + split; [discriminate | intros [? _]; discriminate].
Qed.

(** The path of the verify1 callback that verifies. *)
Lemma verify1_short_verification_path
    (w : world QCBORDecodeContext) (tbs_hash : q_useful_buf_c) :
  t_cose_algorithm_is_short_circuit alg = true ->
  ub_bytes kid = ub_bytes get_short_circuit_kid ->
  flag_is_set option_flags T_COSE_OPT_DECODE_ONLY = false ->
  create_tbs_hash alg protected_body_headers protected_signature_headers
    aad payload T_COSE_CRYPTO_MAX_HASH_SIZE = (T_COSE_SUCCESS, tbs_hash) ->
  snd (verify1 w) =
    {| codec := codec w;
       log := log w ++
         [Ev_find_parameter_alg_id; Ev_find_parameter_kid; Ev_kid_compare kid;
          Ev_create_tbs_hash alg protected_body_headers
            protected_signature_headers aad payload;
          Ev_crypto_verify alg kid tbs_hash signature] |} /\
  fst (verify1 w) = t_cose_crypto_verify alg T_COSE_NULL_KEY kid tbs_hash signature /\
  (fst (verify1 w) = T_COSE_SUCCESS <-> ub_bytes signature = ub_bytes tbs_hash) /\
  (ub_bytes signature <> ub_bytes tbs_hash ->
   fst (verify1 w) = T_COSE_ERR_SIG_VERIFY_FAIL).
Proof.
  intros Halg Hkid Hflag Hhash.
  apply q_useful_buf_compare_zero_iff in Hkid.
  unfold t_cose_signature_verify1_short, bind, call, ret; simpl.
  rewrite Halg; simpl. rewrite Hkid; simpl.
  rewrite Hflag. rewrite Hhash; simpl.
  rewrite <- !app_assoc; simpl.
  split; [reflexivity|]. split; [reflexivity|].
  unfold t_cose_crypto_verify. rewrite Halg.
  destruct (Z.eqb_spec (q_useful_buf_compare signature tbs_hash) 0) as [E|E].
  - apply q_useful_buf_compare_zero_iff in E. split; [tauto|contradiction].
  - rewrite q_useful_buf_compare_zero_iff in E.
    split; [split; [discriminate|contradiction] | reflexivity].
Qed.

(** C2.  In short-circuit mode, past the header checks and without
    T_COSE_OPT_DECODE_ONLY, the verify1 callback computes the TBS hash
    from the protected body headers, the protected signature headers,
    the aad and the payload, hands the hash and the signature to
    t_cose_crypto_verify, and returns what the bytewise compare gives:
    success exactly when the signature bytes are the hash bytes, and
    T_COSE_ERR_SIG_VERIFY_FAIL otherwise. *)
Theorem verify1_short_compares_signature_with_hash
    (w : world QCBORDecodeContext) (tbs_hash : q_useful_buf_c) :
  t_cose_algorithm_is_short_circuit alg = true ->
  ub_bytes kid = ub_bytes get_short_circuit_kid ->
  flag_is_set option_flags T_COSE_OPT_DECODE_ONLY = false ->
  create_tbs_hash alg protected_body_headers protected_signature_headers
    aad payload T_COSE_CRYPTO_MAX_HASH_SIZE = (T_COSE_SUCCESS, tbs_hash) ->
  snd (verify1 w) =
    {| codec := codec w;
       log := log w ++
         [Ev_find_parameter_alg_id; Ev_find_parameter_kid; Ev_kid_compare kid;
          Ev_create_tbs_hash alg protected_body_headers
            protected_signature_headers aad payload;
          Ev_crypto_verify alg kid tbs_hash signature] |} /\
  fst (verify1 w) = t_cose_crypto_verify alg T_COSE_NULL_KEY kid tbs_hash signature /\
  (fst (verify1 w) = T_COSE_SUCCESS <-> ub_bytes signature = ub_bytes tbs_hash) /\
  (ub_bytes signature <> ub_bytes tbs_hash ->
   fst (verify1 w) = T_COSE_ERR_SIG_VERIFY_FAIL).
Proof. apply verify1_short_verification_path. Qed.


Variable loc : t_cose_header_location.
Variable params : t_cose_parameter_storage.
Variable decoded_parameters : list t_cose_parameter.

Local Abbreviation verify :=
  (t_cose_signature_verify_short me_x option_flags loc protected_body_headers
     payload aad params decoded_parameters).

(** C6.  First error wins in the verify callback: when decoding the
    headers of the COSE_Signature fails, that error is the result,
    unchanged, and nothing follows the call that failed - the signature
    is not read, the array is not exited, the decoder error is not
    queried or converted and the verification is not invoked. *)
Theorem verify_short_header_error_wins (w : world QCBORDecodeContext)
    (e : t_cose_err_t) (d' : QCBORDecodeContext)
    (params' : t_cose_parameter_storage) (decoded' : list t_cose_parameter)
    (protected_parameters : q_useful_buf_c) :
  t_cose_headers_decode (QCBORDecode_EnterArray (codec w)) loc
    (reader me_x) (reader_ctx me_x) params decoded_parameters
    = (e, d', params', decoded', protected_parameters) ->
  e <> T_COSE_SUCCESS ->
  verify w =
    ((e, params', decoded'),
     {| codec := d'; log := log w ++ [Ev_EnterArray; Ev_headers_decode] |}).
Proof.
  intros Hdec He. apply is_error_true_iff in He.
  unfold t_cose_signature_verify_short, bind, on_codec, ret; simpl.
  rewrite Hdec; simpl. rewrite He.
  now rewrite <- !app_assoc.
Qed.

(** C7.  When the headers decode, the verify callback makes exactly this
    sequence of calls on the decoder: enter one array, decode the
    headers, get one byte string (the signature), exit the array, query
    the decoder error.  A decoder error is converted with
    T_COSE_ERR_SIGN1_FORMAT as the format error and returned without the
    verification being attempted; otherwise the verify1 callback runs on
    the decoded parameters, the protected headers and the signature, and
    the decoder is left where the exit of the array put it. *)
Theorem verify_short_decodes_one_signature (w : world QCBORDecodeContext)
    (d1 : QCBORDecodeContext)
    (params' : t_cose_parameter_storage) (decoded' : list t_cose_parameter)
    (protected_parameters : q_useful_buf_c) :
  t_cose_headers_decode (QCBORDecode_EnterArray (codec w)) loc
    (reader me_x) (reader_ctx me_x) params decoded_parameters =
    (T_COSE_SUCCESS, d1, params', decoded', protected_parameters) ->
  let sig := snd (QCBORDecode_GetByteString d1) in
  let d3 := QCBORDecode_ExitArray (fst (QCBORDecode_GetByteString d1)) in
  let decoding :=
    [Ev_EnterArray; Ev_headers_decode; Ev_GetByteString; Ev_ExitArray; Ev_GetError] in
  let w3 := {| codec := d3; log := log w ++ decoding |} in
  (QCBORDecode_GetError d3 <> QCBOR_SUCCESS ->
   verify w =
     ((qcbor_decode_error_to_t_cose_error (QCBORDecode_GetError d3)
         T_COSE_ERR_SIGN1_FORMAT, params', decoded'),
      {| codec := d3;
         log := log w ++ decoding ++
                [Ev_decode_error_to_t_cose_error (QCBORDecode_GetError d3)] |})) /\
  (QCBORDecode_GetError d3 = QCBOR_SUCCESS ->
   let v1 :=
     t_cose_signature_verify1_short me_x option_flags protected_body_headers
       protected_parameters payload aad decoded' sig w3 in
   verify w = ((fst v1, params', decoded'), snd v1) /\
   codec (snd v1) = d3).
Proof.
  intros Hdec sig d3 decoding w3.
  unfold t_cose_signature_verify_short, bind, on_codec, call, ret; simpl.
  rewrite Hdec; simpl.
  destruct (QCBORDecode_GetByteString d1) as [d2 b] eqn:Hget. simpl.
  subst sig d3 w3 decoding. simpl.
  split.
  - intros Herr. apply Z.eqb_neq in Herr. rewrite Herr; simpl.
    now rewrite <- !app_assoc.
  - intros Herr. rewrite Herr; simpl.
    rewrite <- !app_assoc; simpl.
    match goal with
    | |- context [t_cose_signature_verify1_short ?a ?b ?c ?d ?e ?f ?g ?h ?x] =>
        pose proof (verify1_short_frame a b c d e f g h x) as [l Hl];
        destruct (t_cose_signature_verify1_short a b c d e f g h x) as [r wr]
    end.
    simpl in *. subst wr. split; reflexivity.
Qed.

(** C10.  After t_cose_signature_verify_short_init, every member of the
    verifier context is null except the two slots of the vtable: callback
    holds the address of t_cose_signature_verify_short and callback1 the
    address of t_cose_signature_verify1_short; the custom reader, its
    context and the link to the next verifier are null.  The two
    addresses resolve to the functions of this file. *)
Theorem verify_short_init_installs_vtable :
  (t_cose_signature_verify_short_init me_x =
    {| s := {| callback := Some addr_t_cose_signature_verify_short;
               callback1 := Some addr_t_cose_signature_verify1_short;
               next_in_list := None |};
       reader := None;
       reader_ctx := None |}) /\
  (option_map verify_callback_at
     (callback (s (t_cose_signature_verify_short_init me_x)))
   = Some (Some t_cose_signature_verify_short)) /\
  (option_map verify1_callback_at
     (callback1 (s (t_cose_signature_verify_short_init me_x)))
   = Some (Some t_cose_signature_verify1_short)).
Proof. repeat split. Qed.

End VerifyShort.

(* ================================================================== *)
(** * The verify callback on the reference decoder                     *)
(* ================================================================== *)

(** Entering takes the next item of the current level and opens a level
    with its content. *)
Lemma tree_enter_consumes (kind : level_kind) (d : tree_decoder) :
  last_error (tree_enter kind d) = QCBOR_SUCCESS ->
  exists k c more outer items,
    levels d = (k, c :: more) :: outer /\
    levels (tree_enter kind d) = (kind, items) :: (k, more) :: outer.
Proof.
  unfold tree_enter, tree_peek, tree_advance.
  destruct (last_error d =? QCBOR_SUCCESS) eqn:Herr; cbn [negb].
  - destruct d as [[|[k [|c more]] outer] tr e]; cbn [levels with_error last_error];
      try discriminate.
    destruct kind, (snd (untag c)) as [| | | |items|items| |];
      cbn [with_error with_levels levels last_error];
      try discriminate; intros _; now exists k, c, more, outer, items.
  - intros H. rewrite H in Herr. discriminate.
Qed.

(** Leaving closes the level that was entered. *)
Lemma tree_exit_pops (kind : level_kind) (d : tree_decoder) items outer :
  levels d = (kind, items) :: outer ->
  kind <> LevelTop ->
  last_error d = QCBOR_SUCCESS ->
  levels (tree_exit kind d) = outer /\ last_error (tree_exit kind d) = QCBOR_SUCCESS.
Proof.
  intros Hl Hk He. unfold tree_exit. rewrite He, Hl. cbn.
  destruct kind; try congruence; cbn; auto.
Qed.

(** A byte string read without error is one item of the current level. *)
Lemma tree_GetByteString_consumes (d : tree_decoder) :
  last_error (fst (tree_GetByteString d)) = QCBOR_SUCCESS ->
  exists k c more outer,
    levels d = (k, c :: more) :: outer /\
    levels (fst (tree_GetByteString d)) = (k, more) :: outer.
Proof.
  unfold tree_GetByteString, tree_peek, tree_advance.
  destruct (last_error d =? QCBOR_SUCCESS) eqn:Herr; cbn [negb].
  - destruct d as [[|[k [|c more]] outer] tr e]; cbn [levels with_error last_error fst];
      try discriminate.
    destruct (snd (untag c)); cbn [with_error with_levels levels last_error fst];
      try discriminate; intros _; now exists k, c, more, outer.
  - cbn [fst]. intros H. rewrite H in Herr. discriminate.
Qed.

(** The error of the decoder is sticky: no operation clears it. *)
Lemma tree_enter_error (kind : level_kind) (d : tree_decoder) :
  last_error (tree_enter kind d) = QCBOR_SUCCESS -> last_error d = QCBOR_SUCCESS.
Proof.
  unfold tree_enter. destruct (last_error d =? QCBOR_SUCCESS) eqn:Herr; cbn [negb].
  - intros _. now apply Z.eqb_eq.
  - auto.
Qed.

Lemma tree_exit_error (kind : level_kind) (d : tree_decoder) :
  last_error (tree_exit kind d) = QCBOR_SUCCESS -> last_error d = QCBOR_SUCCESS.
Proof.
  unfold tree_exit. destruct (last_error d =? QCBOR_SUCCESS) eqn:Herr; cbn [negb].
  - intros _. now apply Z.eqb_eq.
  - auto.
Qed.

Lemma tree_GetByteString_error (d : tree_decoder) :
  last_error (fst (tree_GetByteString d)) = QCBOR_SUCCESS -> last_error d = QCBOR_SUCCESS.
Proof.
  unfold tree_GetByteString. destruct (last_error d =? QCBOR_SUCCESS) eqn:Herr; cbn [negb].
  - intros _. now apply Z.eqb_eq.
  - auto.
Qed.

(** The headers are two items of the current level. *)
Lemma spec_headers_decode_consumes (d : tree_decoder) loc reader reader_ctx params decoded
    d' params' decoded' prot :
  spec_headers_decode d loc reader reader_ctx params decoded
    = (T_COSE_SUCCESS, d', params', decoded', prot) ->
  last_error d = QCBOR_SUCCESS /\
  last_error d' = QCBOR_SUCCESS /\
  exists k c1 c2 more outer,
    levels d = (k, c1 :: c2 :: more) :: outer /\
    levels d' = (k, more) :: outer.
Proof.
  unfold spec_headers_decode.
  pose proof (tree_GetByteString_consumes d) as Hbstr.
  pose proof (tree_GetByteString_error d) as Hbstr_err.
  destruct (tree_GetByteString d) as [d1 pp]. cbn [fst] in Hbstr, Hbstr_err.
  pose proof (tree_enter_consumes LevelMap d1) as Henter.
  pose proof (tree_enter_error LevelMap d1) as Henter_err.
  pose proof (tree_exit_error LevelMap (tree_enter LevelMap d1)) as Hexit_err.
  unfold tree_GetError.
  destruct (last_error (tree_exit LevelMap (tree_enter LevelMap d1)) =? QCBOR_SUCCESS)
    eqn:Herr; cbn [negb].
  2:{ intros [= He _]. revert He. unfold spec_qcbor_decode_error_to_t_cose_error.
      rewrite Herr. destruct (QCBORDecode_IsNotWellFormedError _); discriminate. }
  apply Z.eqb_eq in Herr.
  specialize (Hexit_err Herr). specialize (Henter_err Hexit_err).
  destruct (Henter Hexit_err) as (k & c2 & more & outer & items & Hl1 & Hl2).
  destruct (Hbstr Henter_err) as (k' & c1 & more' & outer' & Hl0 & Hl1').
  rewrite Hl1 in Hl1'. injection Hl1' as <- <- <-.
  destruct (tree_exit_pops LevelMap _ _ _ Hl2 ltac:(discriminate) Hexit_err) as [Hl3 _].
  intros H.
  assert (d' = tree_exit LevelMap (tree_enter LevelMap d1)) as ->.
  { destruct (res_bind _ _) as [e|ps]; [now injection H|].
    destruct (_ <? _)%nat; now injection H. }
  split; [auto|]. split; [exact Herr|]. now exists k, c1, c2, more, outer.
Qed.

(** X17.  On the reference decoder, a run of the verify callback whose
    headers decode and that leaves no decoder error has taken exactly
    one item from the level the decoder was at: the array it entered
    and left. *)
Lemma verify_short_consumes_one_element `{A : CryptoAdapter}
    (me_x : @struct_t_cose_signature_verify_short _ _ (spec_imports A))
    (option_flags : Z) (loc : t_cose_header_location)
    (protected_body_headers payload aad : q_useful_buf_c)
    (params : t_cose_parameter_storage) (decoded_parameters : list t_cose_parameter)
    (w : world tree_decoder) :
  let r := t_cose_signature_verify_short me_x option_flags loc protected_body_headers
             payload aad params decoded_parameters w in
  fst (fst (fst (fst
    (spec_headers_decode (tree_EnterArray (codec w)) loc (reader me_x) (reader_ctx me_x)
       params decoded_parameters)))) = T_COSE_SUCCESS ->
  last_error (codec (snd r)) = QCBOR_SUCCESS ->
  exists k c rest outer,
    levels (codec w) = (k, c :: rest) :: outer /\
    levels (codec (snd r)) = (k, rest) :: outer.
Proof.
  intros r Hheaders Hfinal. subst r.
  destruct w as [d lg]. cbn [codec] in *.
  unfold t_cose_signature_verify_short, bind, on_codec, call, ret in *.
  cbn [codec log fst snd QCBORDecode_EnterArray QCBORDecode_GetByteString
       QCBORDecode_ExitArray QCBORDecode_GetError tree_QCBORDecoder
       t_cose_headers_decode qcbor_decode_error_to_t_cose_error spec_imports] in *.
  destruct (spec_headers_decode (tree_EnterArray d) loc (reader me_x) (reader_ctx me_x)
              params decoded_parameters)
    as [[[[e d1] params'] decoded'] prot] eqn:Hdec.
  cbn [fst snd] in *. subst e. cbn [is_error t_cose_err_eqb negb codec log fst snd] in *.
  apply spec_headers_decode_consumes in Hdec.
  destruct Hdec as (Herr0 & Herr1 & k1 & c1 & c2 & more & outer1 & Hl0 & Hl1).
  pose proof (tree_GetByteString_consumes d1) as Hbstr.
  pose proof (tree_GetByteString_error d1) as Hbstr_err.
  destruct (tree_GetByteString d1) as [d2 sig]. cbn [fst snd codec log] in *.
  pose proof (tree_exit_error LevelArray d2) as Hexit_err.
  fold tree_ExitArray in Hexit_err.
  unfold tree_GetError in *.
  destruct (last_error (tree_ExitArray d2) =? QCBOR_SUCCESS) eqn:Herr; cbn [negb] in *.
  2:{ cbn [codec snd] in Hfinal. rewrite Hfinal in Herr. discriminate. }
  apply Z.eqb_eq in Herr. specialize (Hexit_err Herr).
  destruct (Hbstr Hexit_err) as (k2 & c3 & more2 & outer2 & Hl1' & Hl2).
  rewrite Hl1 in Hl1'. injection Hl1' as <- -> <-.
  destruct (tree_enter_consumes LevelArray d Herr0)
    as (k & c & rest & outer & items & Hd & Hd').
  fold tree_EnterArray in Hd'. rewrite Hl0 in Hd'. injection Hd' as -> _ ->.
  exists k, c, rest, outer. split; [exact Hd|].
  match goal with
  | |- context [t_cose_signature_verify1_short ?a ?b ?c ?d ?e ?f ?g ?h ?i] =>
      destruct (verify1_short_frame a b c d e f g h i) as [l Hframe];
      destruct (t_cose_signature_verify1_short a b c d e f g h i) as [e1 w1]
  end.
  cbn [snd codec] in Hframe |- *. rewrite Hframe. cbn [codec].
  now destruct (tree_exit_pops LevelArray d2 _ _ Hl2 ltac:(discriminate) Hexit_err).
Qed.

(* ================================================================== *)
(** * The CBOR codec: decoding undoes encoding                         *)
(* ================================================================== *)

Lemma be_bytes_length (k : nat) (n : Z) : length (be_bytes k n) = k.
Proof.
  revert n; induction k as [|k IH]; intros n; simpl; [reflexivity|].
  rewrite length_app, IH. simpl. lia.
Qed.

Lemma be_value_snoc (l : list Z) (b : Z) :
  be_value (l ++ [b]) = be_value l * 256 + b.
Proof. unfold be_value. now rewrite fold_left_app. Qed.

Lemma be_value_be_bytes (k : nat) (n : Z) :
  0 <= n < 256 ^ Z.of_nat k -> be_value (be_bytes k n) = n.
Proof.
  revert n; induction k as [|k IH]; intros n Hn.
  - simpl in *. unfold be_value; simpl. lia.
  - simpl be_bytes. rewrite be_value_snoc, IH.
    + pose proof (Z.div_mod n 256). lia.
    + rewrite Nat2Z.inj_succ, Z.pow_succ_r in Hn by lia.
      split; [apply Z.div_pos; lia | apply Z.div_lt_upper_bound; lia].
Qed.

Lemma firstn_app_exact {A : Type} (l r : list A) (k : nat) :
  length l = k -> firstn k (l ++ r) = l.
Proof.
  intros <-. rewrite firstn_app, Nat.sub_diag, firstn_all. simpl.
  apply app_nil_r.
Qed.

Lemma skipn_app_exact {A : Type} (l r : list A) (k : nat) :
  length l = k -> skipn k (l ++ r) = r.
Proof.
  intros <-. rewrite skipn_app, Nat.sub_diag, skipn_all. reflexivity.
Qed.

Lemma head_byte_split (major x : Z) :
  0 <= x < 32 -> (major * 32 + x) / 32 = major /\ (major * 32 + x) mod 32 = x.
Proof.
  intros Hx. split.
  - rewrite Z.add_comm, Z.div_add by lia. rewrite Z.div_small; lia.
  - rewrite Z.add_comm, Z.mod_add by lia. apply Z.mod_small; lia.
Qed.

Lemma decode_head_encode_head (major arg : Z) (rest : list Z) :
  0 <= arg < 2 ^ 64 ->
  decode_head (encode_head major arg ++ rest) = Some (major, head_ai arg, arg, rest).
Proof.
  intros Harg. unfold encode_head, head_ai.
  destruct (Z.ltb_spec arg 24).
  { simpl. destruct (head_byte_split major arg) as [-> ->]; [lia|].
    destruct (Z.ltb_spec arg 24); [reflexivity | lia]. }
  assert (Hk : forall (k : nat) (x : Z),
             (x = 24 /\ k = 1%nat) \/ (x = 25 /\ k = 2%nat) \/
             (x = 26 /\ k = 4%nat) \/ (x = 27 /\ k = 8%nat) ->
             0 <= arg < 256 ^ Z.of_nat k ->
             decode_head (((major * 32 + x) :: be_bytes k arg) ++ rest)
             = Some (major, x, arg, rest)).
  { intros k x Hx Hr.
    assert (Hlen : (length (be_bytes k arg ++ rest) <? k)%nat = false).
    { apply Nat.ltb_ge. rewrite length_app, be_bytes_length. lia. }
    assert (Hfirst := firstn_app_exact (be_bytes k arg) rest k (be_bytes_length k arg)).
    assert (Hskip := skipn_app_exact (be_bytes k arg) rest k (be_bytes_length k arg)).
    assert (Hval := be_value_be_bytes k arg Hr).
    cbn [decode_head app].
    destruct (head_byte_split major x) as [-> ->]; [lia|].
    destruct Hx as [[-> ->]|[[-> ->]|[[-> ->]|[-> ->]]]];
      cbn -[be_bytes firstn skipn be_value Nat.ltb length];
      rewrite Hlen, Hfirst, Hskip, Hval; reflexivity. }
  destruct (Z.ltb_spec arg 256); [apply Hk; [tauto | simpl; lia]|].
  destruct (Z.ltb_spec arg 65536); [apply Hk; [tauto | simpl; lia]|].
  destruct (Z.ltb_spec arg 4294967296); [apply Hk; [tauto | simpl; lia]|].
  apply Hk; [tauto | simpl; lia].
Qed.

Lemma encode_head_nonempty (major arg : Z) : (1 <= length (encode_head major arg))%nat.
Proof.
  unfold encode_head.
  repeat match goal with |- context [if ?c then _ else _] => destruct c end;
    simpl; lia.
Qed.

Lemma encode_nonempty (c : cbor) : (1 <= length (encode c))%nat.
Proof.
  destruct c; simpl; try rewrite length_app;
    match goal with
    | |- context [encode_head ?m ?a] => pose proof (encode_head_nonempty m a)
    end; lia.
Qed.

Lemma flat_map_encode_length (items : list cbor) :
  (length items <= length (flat_map encode items))%nat.
Proof.
  induction items as [|c items IH]; simpl; [lia|].
  rewrite length_app. pose proof (encode_nonempty c). lia.
Qed.

Lemma decode_items_encode (dec : list Z -> option (cbor * list Z))
    (items : list cbor) (rest : list Z) :
  (forall c r, In c items -> dec (encode c ++ r) = Some (c, r)) ->
  decode_items dec (length items) (flat_map encode items ++ rest) = Some (items, rest).
Proof.
  induction items as [|c items IH]; intros Hdec; simpl; [reflexivity|].
  rewrite <- app_assoc, Hdec by (left; reflexivity).
  rewrite IH; [reflexivity|].
  intros c' r Hin. apply Hdec. now right.
Qed.

Lemma depth_in_items (items : list cbor) (c : cbor) :
  In c items ->
  (depth c <= fold_right (fun c d => Nat.max (depth c) d) O items)%nat.
Proof.
  induction items as [|c' items IH]; simpl; [tauto|].
  intros [->|Hin]; [lia|]. specialize (IH Hin). lia.
Qed.

(** Decoding undoes encoding, whatever follows the item in the input. *)
Lemma decode_encode (fuel : nat) :
  forall (c : cbor) (rest : list Z),
    (depth c <= fuel)%nat -> cbor_ok c = true ->
    decode fuel (encode c ++ rest) = Some (c, rest).
Proof.
  induction fuel as [|fuel IH]; intros c rest Hd Hok.
  - destruct c; simpl in Hd; lia.
  - assert (Hitems : forall items r,
               (fold_right (fun c d => Nat.max (depth c) d) O items <= fuel)%nat ->
               forallb cbor_ok items = true ->
               decode_items (decode fuel) (length items) (flat_map encode items ++ r)
               = Some (items, r)).
    { intros items r Hdi Hoki. apply decode_items_encode.
      intros c' r' Hin. apply IH.
      - pose proof (depth_in_items items c' Hin). lia.
      - rewrite forallb_forall in Hoki. now apply Hoki. }
    destruct c; cbn [encode cbor_ok depth] in *; split_andb;
      cbn [decode]; rewrite <- ?app_assoc;
      rewrite decode_head_encode_head by arith;
      cbn [Z.eqb andb].
    + reflexivity.
    + reflexivity.
    + unfold len in *.
      destruct (Z.ltb_spec (Z.of_nat (length (b ++ rest))) (Z.of_nat (length b))) as [Hlt|_].
      { rewrite length_app in Hlt. lia. }
      rewrite Nat2Z.id, firstn_app_exact, skipn_app_exact by reflexivity.
      reflexivity.
    + unfold len in *.
      destruct (Z.ltb_spec (Z.of_nat (length (b ++ rest))) (Z.of_nat (length b))) as [Hlt|_].
      { rewrite length_app in Hlt. lia. }
      rewrite Nat2Z.id, firstn_app_exact, skipn_app_exact by reflexivity.
      reflexivity.
    + unfold len in *.
      destruct (Z.ltb_spec (Z.of_nat (length (flat_map encode items ++ rest)))
                           (Z.of_nat (length items))) as [Hlt|_].
      { rewrite length_app in Hlt. pose proof (flat_map_encode_length items). lia. }
      rewrite Nat2Z.id, Hitems by (assumption || lia). reflexivity.
    + unfold len in *.
      assert (Hhalf : 2 * (Z.of_nat (length entries) / 2) = Z.of_nat (length entries)).
      { arith. }
      rewrite Hhalf.
      destruct (Z.ltb_spec (Z.of_nat (length (flat_map encode entries ++ rest)))
                           (Z.of_nat (length entries))) as [Hlt|_].
      { rewrite length_app in Hlt. pose proof (flat_map_encode_length entries). lia. }
      rewrite Nat2Z.id, Hitems by (assumption || lia). reflexivity.
    + rewrite IH by (assumption || lia). reflexivity.
    + unfold head_ai.
      destruct (Z.ltb_spec v 24) as [Hv|Hv]; [|lia].
      rewrite (proj2 (Z.ltb_lt v 24) Hv). reflexivity.
Qed.


(* ================================================================== *)
(** * The sign engine and the header callback                          *)
(* ================================================================== *)

Lemma flag_is_set_lor (option_flags flag : Z) :
  flag <> 0 -> flag_is_set (Z.lor option_flags flag) flag = true.
Proof.
  intros Hflag. unfold flag_is_set.
  destruct (Z.eqb_spec (Z.land (Z.lor option_flags flag) flag) 0) as [H0|]; [|reflexivity].
  exfalso. apply Hflag. apply Z.bits_inj'. intros n Hn.
  assert (Hbit : Z.testbit (Z.land (Z.lor option_flags flag) flag) n = false)
    by (rewrite H0; apply Z.bits_0).
  rewrite Z.land_spec, Z.lor_spec in Hbit. rewrite Z.bits_0.
  destruct (Z.testbit flag n); [|reflexivity].
  now rewrite orb_true_r in Hbit.
Qed.

Lemma merge_parameters_error (signer_params body_params : list t_cose_parameter)
    (e : t_cose_err_t) :
  merge_parameters signer_params body_params = inl e -> is_error e = true.
Proof.
  unfold merge_parameters.
  destruct (no_duplicate_labels _); [discriminate|]. now intros [= <-].
Qed.

Section SignEngine.
Context {Me : Type}.
Variable option_flags : Z.
Variable signer : Signer.t_cose_signature_sign Me.
Variable body_parameters : list t_cose_parameter.
Variables aad payload : q_useful_buf_c.

Local Abbreviation collected := (Signer.h_callback signer (Signer.me signer) []).
Local Abbreviation sign1 :=
  (t_cose_sign1_encode option_flags signer body_parameters aad payload).


End SignEngine.

(** The header callback of this signer stores an error and the merge
    rejects the parameters: the sign callback is called all the same,
    and the error of the merge, the first, is the result. *)
Example sign_callback_called_after_failed_merge :
  let r := run (t_cose_sign1_encode 0 error_storing_signer
                  [alg_parameter T_COSE_ALGORITHM_ES256]
                  (UsefulBufC []) (UsefulBufC payload))
               (QCBOREncode_Init (Some 400)) in
  Signer.me (snd (fst r)) = T_COSE_ERR_UNSUPPORTED_SIGNING_ALG /\
  fst (fst r) = T_COSE_ERR_DUPLICATE_PARAMETER /\
  log (snd r) = [Ev_h_callback; Ev_merge_parameters; Ev_sign_callback].
Proof. vm_compute. repeat split. Qed.

(** Without the duplicate, the error that the header callback stored is
    what the pipeline returns. *)
Example stored_error_is_reported :
  fst (fst (run (t_cose_sign1_encode 0 error_storing_signer []
                   (UsefulBufC []) (UsefulBufC payload))
                (QCBOREncode_Init (Some 400))))
  = T_COSE_ERR_UNSUPPORTED_SIGNING_ALG.
Proof. reflexivity. Qed.

(* ================================================================== *)
(** * Size calculation against real emission                           *)
(* ================================================================== *)

Lemma len_app {X : Type} (a b : list X) : len (a ++ b) = len a + len b.
Proof. unfold len. rewrite length_app. lia. Qed.

Lemma len_nonneg {X : Type} (a : list X) : 0 <= len a.
Proof. unfold len. lia. Qed.

Lemma encoder_append_error_sticky (e : QCBOREncodeContext)
    (content : option (list Z)) (n : Z) :
  out_error (encoder_append e content n) = false -> out_error e = false.
Proof.
  unfold encoder_append.
  destruct (out_error e) eqn:He; [intros H; now rewrite He in H|reflexivity].
Qed.

Lemma encoder_append_buffer (e : QCBOREncodeContext)
    (content : option (list Z)) (n : Z) :
  out_buffer (encoder_append e content n) = out_buffer e.
Proof.
  unfold encoder_append, encoder_fail.
  destruct (out_error e); [reflexivity|].
  destruct (out_buffer e) as [capacity|] eqn:Hbuf; [|reflexivity].
  destruct content; [destruct (capacity <? _)|]; simpl; congruence.
Qed.

Lemma in_step_init (capacity : Z) :
  in_step (QCBOREncode_Init None) (QCBOREncode_Init (Some capacity)).
Proof. repeat split; simpl; congruence. Qed.

Lemma in_step_AddEncoded (en er : QCBOREncodeContext) (bytes : list Z) :
  in_step en er ->
  in_step (QCBOREncode_AddEncoded en bytes) (QCBOREncode_AddEncoded er bytes).
Proof.
  intros (Hn & Hen & Hr & Hlen).
  unfold QCBOREncode_AddEncoded, encoder_append. rewrite Hen, Hn.
  destruct (out_error er) eqn:Her.
  { repeat split; simpl; congruence. }
  destruct (out_buffer er) as [capacity|] eqn:Hbuf; [|congruence].
  destruct (Hlen eq_refl) as [H1 H2].
  destruct (capacity <? out_len er + len bytes);
    (split; [|split; [|split]]); simpl; rewrite ?Hbuf; try congruence;
    intros Hok; try discriminate; rewrite ?len_app; lia.
Qed.

Lemma in_step_chunks (en er : QCBOREncodeContext) (chunks : list (list Z)) :
  in_step en er ->
  in_step (fold_left QCBOREncode_AddEncoded chunks en)
          (fold_left QCBOREncode_AddEncoded chunks er).
Proof.
  revert en er; induction chunks as [|c chunks IH]; intros en er Hstep; simpl;
    [exact Hstep|].
  apply IH. now apply in_step_AddEncoded.
Qed.

(** What a run of encoder calls leaves in a real buffer that has no
    error afterwards: the bytes of the calls, one after the other. *)
Lemma fold_AddEncoded_data (chunks : list (list Z)) (e : QCBOREncodeContext) :
  out_buffer e <> None ->
  out_error (fold_left QCBOREncode_AddEncoded chunks e) = false ->
  out_error e = false /\
  out_data (fold_left QCBOREncode_AddEncoded chunks e) = out_data e ++ concat chunks.
Proof.
  revert e; induction chunks as [|c chunks IH]; intros e Hbuf Hok; simpl in *.
  { split; [exact Hok | now rewrite app_nil_r]. }
  destruct (IH (QCBOREncode_AddEncoded e c)) as [Hc Hdata].
  { unfold QCBOREncode_AddEncoded. now rewrite encoder_append_buffer. }
  { exact Hok. }
  pose proof Hc as He. unfold QCBOREncode_AddEncoded in He.
  apply encoder_append_error_sticky in He. split; [exact He|].
  rewrite Hdata. unfold QCBOREncode_AddEncoded, encoder_append in *.
  rewrite He in *.
  destruct (out_buffer e) as [capacity|]; [|congruence].
  destruct (capacity <? _); simpl in *; [discriminate|].
  now rewrite <- app_assoc.
Qed.

(** The count of a size calculation after a run of encoder calls. *)
Lemma fold_AddEncoded_count (chunks : list (list Z)) (e : QCBOREncodeContext) :
  out_buffer e = None -> out_error e = false ->
  let e' := fold_left QCBOREncode_AddEncoded chunks e in
  out_buffer e' = None /\ out_error e' = false /\
  out_len e' = out_len e + len (concat chunks).
Proof.
  revert e; induction chunks as [|c chunks IH]; intros e Hbuf Herr; simpl.
  { unfold len; simpl. repeat split; try assumption. lia. }
  destruct (IH (QCBOREncode_AddEncoded e c)) as (H1 & H2 & H3).
  { unfold QCBOREncode_AddEncoded. now rewrite encoder_append_buffer. }
  { unfold QCBOREncode_AddEncoded, encoder_append. now rewrite Herr, Hbuf. }
  repeat split; try assumption. rewrite H3.
  unfold QCBOREncode_AddEncoded, encoder_append. rewrite Herr, Hbuf. simpl.
  rewrite len_app. lia.
Qed.

(** The COSE_Sign1 pipeline in one piece: the header callback, the
    merge, the bytes of steps 3 to 7 and the sign callback. *)
Lemma sign1_encode_normal_form {Me : Type} (option_flags : Z)
    (signer : Signer.t_cose_signature_sign Me)
    (body_parameters : list t_cose_parameter) (aad payload : q_useful_buf_c)
    (w : world QCBOREncodeContext) :
  t_cose_sign1_encode option_flags signer body_parameters aad payload w =
  let (me1, header_params) := Signer.h_callback signer (Signer.me signer) [] in
  let merged := merge_parameters header_params body_parameters in
  let called :=
    Signer.callback signer me1 (Z.lor option_flags T_COSE_OPT_COSE_SIGN1)
      (match merged with
       | inl _ => NULL_Q_USEFUL_BUF_C
       | inr parameters => UsefulBufC (encode_protected parameters)
       end) aad payload
      (fold_left QCBOREncode_AddEncoded
         (match merged with
          | inl _ => []
          | inr parameters => sign1_chunks option_flags parameters payload
          end) (codec w)) in
  let return_value :=
    match merged with
    | inl merge_error => merge_error
    | inr _ => fst (fst called)
    end in
  ((return_value, Signer.with_me signer (snd (fst called))),
   {| codec := snd called;
      log := log w ++
             sign1_events option_flags
               (match merged with inl _ => false | inr _ => true end) return_value |}).
Proof.
  unfold t_cose_sign1_encode, bind, call, ret, encoder_call, on_codec,
    sign1_chunks, sign1_events, sign1_body_events.
  destruct (Signer.h_callback signer (Signer.me signer) []) as [m hp].
  cbv zeta. cbn [fst snd codec log].
  destruct (merge_parameters hp body_parameters) as [e|ps]; cbn [fst snd codec log].
  { cbn [fold_left].
    destruct (Signer.callback signer m _ _ aad payload (codec w)) as [[rv m2] e2].
    cbn [fst snd codec log].
    destruct (is_error e) eqn:He; cbn [fst snd codec log app];
      rewrite <- !app_assoc; cbn [app];
      try (apply is_error_false_iff in He; subst e); reflexivity. }
  unfold QCBOREncode_AddTag, QCBOREncode_OpenArray, QCBOREncode_AddNULL,
    QCBOREncode_AddBytes, QCBOREncode_AddItem, QCBOREncode_CloseArray.
  destruct (flag_is_set option_flags T_COSE_OPT_OMIT_CBOR_TAG);
    destruct (flag_is_set option_flags T_COSE_OPT_DETACHED_PAYLOAD);
    cbn [fst snd codec log fold_left app ub_bytes];
    match goal with
    | |- context [Signer.callback signer m ?f ?pbh aad payload ?e1] =>
        destruct (Signer.callback signer m f pbh aad payload e1)
          as [[rv m2] e2]
    end; cbn [fst snd codec log];
    destruct (is_error rv) eqn:He; cbn [fst snd codec log app];
    rewrite <- !app_assoc; cbn [app];
    try (apply is_error_false_iff in He; subst rv); reflexivity.
Qed.

Section SizeMode.
Context `{A : CryptoAdapter}.
Variable alg : Z.
Variable key : t_cose_key.
Variable kid : q_useful_buf_c.
Hypothesis Hexact : sig_size_exact alg key.

Local Abbreviation me := {| cose_algorithm_id := alg; signing_key := key; signer_kid := kid |}.

(** The sign callback keeps the two passes in step, for a COSE_Sign1
    and for a COSE_Sign: where the real pass signs and appends what it
    has to, the size calculation succeeds as well, with the same
    context, and counts the bytes that the real pass wrote. *)
Lemma sign_callback_in_step (option_flags : Z)
    (protected_body_headers aad payload : q_useful_buf_c)
    (en er er' : QCBOREncodeContext) (me' : signer_context) :
  in_step en er ->
  spec_sign_callback me option_flags protected_body_headers aad payload er
    = (T_COSE_SUCCESS, me', er') ->
  out_error er' = false ->
  exists en',
    spec_sign_callback me option_flags protected_body_headers aad payload en
      = (T_COSE_SUCCESS, me', en') /\
    in_step en' er'.
Proof.
  intros Hstep Hreal Hok.
  unfold spec_sign_callback in *. cbv beta zeta in Hreal |- *.
  cbn [cose_algorithm_id signing_key] in *.
  set (ps := spec_signature_headers me) in *.
  set (sph := if flag_is_set option_flags T_COSE_OPT_COSE_SIGN1
              then NULL_Q_USEFUL_BUF_C else UsefulBufC (encode_protected ps)) in *.
  assert (Hstep1 :
            in_step
              (if flag_is_set option_flags T_COSE_OPT_COSE_SIGN1 then en
               else QCBOREncode_AddItem
                      (QCBOREncode_AddBytes (QCBOREncode_OpenArray en 3) sph)
                      (unprotected_map ps))
              (if flag_is_set option_flags T_COSE_OPT_COSE_SIGN1 then er
               else QCBOREncode_AddItem
                      (QCBOREncode_AddBytes (QCBOREncode_OpenArray er 3) sph)
                      (unprotected_map ps))).
  { destruct (flag_is_set option_flags T_COSE_OPT_COSE_SIGN1); [exact Hstep|].
    unfold QCBOREncode_AddItem, QCBOREncode_AddBytes, QCBOREncode_OpenArray,
      QCBOREncode_AddItem.
    now repeat apply in_step_AddEncoded. }
  set (en1 := if flag_is_set option_flags T_COSE_OPT_COSE_SIGN1 then en else _) in *.
  set (er1 := if flag_is_set option_flags T_COSE_OPT_COSE_SIGN1 then er else _) in *.
  clearbody en1 er1.
  assert (Hclose : forall e : QCBOREncodeContext,
             (if flag_is_set option_flags T_COSE_OPT_COSE_SIGN1 then e
              else QCBOREncode_CloseArray e) = e)
    by (intros e; now destruct (flag_is_set option_flags T_COSE_OPT_COSE_SIGN1)).
  destruct Hstep1 as (Hn & Hen & Hr & Hlen).
  unfold QCBOREncode_IsBufferNULL in *. rewrite Hn.
  destruct (out_buffer er1) as [capacity|] eqn:Hbuf; [|congruence].
  destruct (spec_create_tbs_hash alg protected_body_headers sph
              aad payload spec_max_hash_size) as [rv tbs_hash] eqn:Hhash.
  destruct (is_error rv) eqn:Hrv.
  { injection Hreal as -> _ _. discriminate. }
  apply is_error_false_iff in Hrv. subst rv.
  destruct (t_cose_crypto_sign alg key tbs_hash) as [rv signature] eqn:Hsign.
  destruct (is_error rv) eqn:Hrv.
  { injection Hreal as -> _ _. discriminate. }
  apply is_error_false_iff in Hrv. subst rv.
  rewrite Hclose in Hreal. injection Hreal as <- <-.
  rewrite (Hexact _ _ _ _ _ _ Hhash Hsign). simpl. rewrite Hclose.
  eexists. split; [reflexivity|].
  assert (Her : out_error er1 = false).
  { unfold QCBOREncode_AddBytes, QCBOREncode_AddItem, QCBOREncode_AddEncoded in Hok.
    now apply encoder_append_error_sticky in Hok. }
  destruct (Hlen Her) as [H1 H2].
  unfold QCBOREncode_AddBytes, QCBOREncode_AddItem, QCBOREncode_AddBytesLenOnly,
    QCBOREncode_AddEncoded, encoder_append in *.
  rewrite Hen, Hn, Her, Hbuf in *. simpl in *.
  destruct (capacity <? _) eqn:Hcap; simpl in Hok; [congruence|].
  (split; [|split; [|split]]); simpl; try congruence.
  intros _. rewrite ?len_app. unfold ub_len, len in *. lia.
Qed.

Local Abbreviation the_signer := (spec_signer alg key kid).

(** The whole pipeline keeps the two passes in step. *)
Lemma sign1_encode_in_step (option_flags : Z) (body_parameters : list t_cose_parameter)
    (aad payload : q_useful_buf_c) (wn wr : world QCBOREncodeContext) :
  in_step (codec wn) (codec wr) ->
  let real := t_cose_sign1_encode option_flags the_signer body_parameters aad payload wr in
  let size := t_cose_sign1_encode option_flags the_signer body_parameters aad payload wn in
  fst (fst real) = T_COSE_SUCCESS ->
  out_error (codec (snd real)) = false ->
  fst size = fst real /\ in_step (codec (snd size)) (codec (snd real)).
Proof.
  intros Hstep real size. subst real size.
  rewrite !sign1_encode_normal_form.
  cbn [Signer.h_callback Signer.me Signer.callback spec_signer].
  unfold spec_sign_h_callback.
  set (hp := alg_parameter _ :: _).
  cbv zeta.
  destruct (merge_parameters hp body_parameters) as [e|ps] eqn:Hmerge; cbn [fst snd codec].
  { intros He. apply merge_parameters_error in Hmerge. rewrite He in Hmerge.
    discriminate. }
  pose proof (in_step_chunks _ _ (sign1_chunks option_flags ps payload) Hstep) as H7.
  destruct (spec_sign_callback me (Z.lor option_flags T_COSE_OPT_COSE_SIGN1)
              (UsefulBufC (encode_protected ps)) aad payload
              (fold_left QCBOREncode_AddEncoded (sign1_chunks option_flags ps payload)
                 (codec wr))) as [[rv m2] er'] eqn:Hreal.
  cbn [fst snd codec]. intros -> Hok.
  destruct (sign_callback_in_step _ _ _ _ _ _ _ _ H7 Hreal Hok) as (en' & Hsize & Hstep').
  rewrite Hsize. cbn [fst snd codec]. split; [reflexivity | exact Hstep'].
Qed.

(** Size-mode equality over any crypto adapter, for an algorithm and a
    key whose signature size the adapter announces exactly: it holds of
    the sign callback, for both kinds of message, and of sign(). *)
Lemma size_calculation_when_exact (option_flags : Z)
    (body_parameters : list t_cose_parameter) (aad payload : q_useful_buf_c) :
  (forall (protected_body_headers : q_useful_buf_c)
          (en er er' : QCBOREncodeContext) (me' : signer_context),
      out_buffer en = None -> out_error en = false -> out_buffer er <> None ->
      spec_sign_callback me option_flags protected_body_headers aad payload er
        = (T_COSE_SUCCESS, me', er') ->
      out_error er' = false ->
      exists en' produced,
        spec_sign_callback me option_flags protected_body_headers aad payload en
          = (T_COSE_SUCCESS, me', en') /\
        out_error en' = false /\
        out_data er' = out_data er ++ produced /\
        out_len en' = out_len en + len produced) /\
  (forall (capacity : Z) (message : q_useful_buf_c) (n : Z),
      t_cose_sign1_sign option_flags the_signer body_parameters aad payload (Some capacity)
        = (T_COSE_SUCCESS, message, n) ->
      n = ub_len message /\
      t_cose_sign1_sign option_flags the_signer body_parameters aad payload None
        = (T_COSE_SUCCESS, NULL_Q_USEFUL_BUF_C, ub_len message)).
Proof.
  split.
  - intros pbh en er er' me' Hn Hen Hr Hreal Hok.
    unfold spec_sign_callback in *. cbv beta zeta in Hreal |- *.
    cbn [cose_algorithm_id signing_key] in *.
    set (ps := spec_signature_headers me) in *.
    set (sph := if flag_is_set option_flags T_COSE_OPT_COSE_SIGN1
                then NULL_Q_USEFUL_BUF_C else UsefulBufC (encode_protected ps)) in *.
    (* the headers of a COSE_Signature, as a run of encoder calls *)
    set (headers := if flag_is_set option_flags T_COSE_OPT_COSE_SIGN1 then []
                    else [encode_head 4 3; encode (CBstr (ub_bytes sph));
                          encode (unprotected_map ps)]).
    assert (Hheaders : forall e : QCBOREncodeContext,
               (if flag_is_set option_flags T_COSE_OPT_COSE_SIGN1 then e
                else QCBOREncode_AddItem
                       (QCBOREncode_AddBytes (QCBOREncode_OpenArray e 3) sph)
                       (unprotected_map ps))
               = fold_left QCBOREncode_AddEncoded headers e).
    { intros e. subst headers.
      now destruct (flag_is_set option_flags T_COSE_OPT_COSE_SIGN1). }
    assert (Hclose : forall e : QCBOREncodeContext,
               (if flag_is_set option_flags T_COSE_OPT_COSE_SIGN1 then e
                else QCBOREncode_CloseArray e) = e)
      by (intros e; now destruct (flag_is_set option_flags T_COSE_OPT_COSE_SIGN1)).
    rewrite !Hheaders in *.
    clearbody headers.
    destruct (fold_AddEncoded_count headers en Hn Hen) as (Hn1 & Hen1 & Hlen1).
    set (en1 := fold_left QCBOREncode_AddEncoded headers en) in *.
    assert (Hr1 : out_buffer (fold_left QCBOREncode_AddEncoded headers er) <> None).
    { clear - Hr. revert er Hr. induction headers as [|c cs IH]; intros er Hr; simpl;
        [exact Hr|]. apply IH. unfold QCBOREncode_AddEncoded.
      now rewrite encoder_append_buffer. }
    set (er1 := fold_left QCBOREncode_AddEncoded headers er) in *.
    unfold QCBOREncode_IsBufferNULL in *. rewrite Hn1.
    destruct (out_buffer er1) as [capacity|] eqn:Hbuf; [|congruence].
    destruct (spec_create_tbs_hash alg pbh sph aad payload
                spec_max_hash_size) as [rv tbs_hash] eqn:Hhash.
    destruct (is_error rv) eqn:Hrv; [injection Hreal as -> _ _; discriminate|].
    apply is_error_false_iff in Hrv. subst rv.
    destruct (t_cose_crypto_sign alg key tbs_hash) as [rv signature] eqn:Hsign.
    destruct (is_error rv) eqn:Hrv; [injection Hreal as -> _ _; discriminate|].
    apply is_error_false_iff in Hrv. subst rv.
    rewrite Hclose in Hreal. injection Hreal as <- <-.
    rewrite (Hexact _ _ _ _ _ _ Hhash Hsign). cbn [is_error t_cose_err_eqb negb].
    rewrite Hclose.
    assert (Her1 : out_error er1 = false).
    { unfold QCBOREncode_AddBytes, QCBOREncode_AddItem, QCBOREncode_AddEncoded in Hok.
      now apply encoder_append_error_sticky in Hok. }
    destruct (fold_AddEncoded_data headers er Hr Her1) as [Her Hdata].
    fold er1 in Hdata. clear Hheaders. clearbody en1 er1.
    unfold QCBOREncode_AddBytes, QCBOREncode_AddItem, QCBOREncode_AddBytesLenOnly,
      QCBOREncode_AddEncoded, encoder_append in *.
    rewrite Hen1, Hn1, Her1, Hbuf in *. simpl in *.
    destruct (capacity <? _) eqn:Hcap; simpl in Hok; [congruence|].
    eexists. exists (concat headers ++ encode (CBstr (ub_bytes signature))).
    split; [reflexivity|]. simpl.
    split; [reflexivity|]. split; [now rewrite Hdata, <- app_assoc|].
    rewrite Hlen1, !len_app. unfold ub_len, len. lia.
  - intros capacity message n.
    unfold t_cose_sign1_sign, run.
    pose proof (sign1_encode_in_step option_flags body_parameters aad payload
                  {| codec := QCBOREncode_Init None; log := [] |}
                  {| codec := QCBOREncode_Init (Some capacity); log := [] |}
                  (in_step_init capacity)) as Hstep.
    cbv zeta in Hstep.
    destruct (t_cose_sign1_encode option_flags the_signer body_parameters aad payload
                {| codec := QCBOREncode_Init (Some capacity); log := [] |})
      as [rr wr].
    destruct (t_cose_sign1_encode option_flags the_signer body_parameters aad payload
                {| codec := QCBOREncode_Init None; log := [] |})
      as [rn wn].
    cbn [fst snd] in *.
    destruct (is_error (fst rr)) eqn:Hrr;
      [intros [= Hs _ _]; rewrite Hs in Hrr; discriminate|].
    apply is_error_false_iff in Hrr.
    destruct (out_error (codec wr)) eqn:Herr; [intros [=]|].
    destruct (Hstep Hrr eq_refl) as [Hres (Hn & Hen & Hr & Hlen)].
    destruct (Hlen Herr) as [H1 H2].
    unfold QCBOREncode_IsBufferNULL.
    destruct (out_buffer (codec wr)) as [c|] eqn:Hbuf; [|congruence].
    intros [= <- <-].
    rewrite Hres, Hrr, Hen, Hn. cbn [is_error t_cose_err_eqb negb ub_len ub_bytes].
    fold (len (out_data (codec wr))).
    split; [exact H2 | ].
    rewrite H1, H2. reflexivity.
Qed.

End SizeMode.

(* ================================================================== *)
(** * Round trip: verify after sign                                    *)
(* ================================================================== *)

Lemma int_of_cbor_of_int (n : Z) : int_of_cbor (cbor_of_int n) = Some n.
Proof.
  unfold cbor_of_int. destruct (0 <=? n); cbn [int_of_cbor]; [reflexivity|].
  f_equal. lia.
Qed.

Lemma cbor_ok_of_int (n : Z) : - 2 ^ 64 <= n < 2 ^ 64 -> cbor_ok (cbor_of_int n) = true.
Proof.
  intros Hn. unfold cbor_of_int.
  destruct (Z.leb_spec 0 n); cbn [cbor_ok]; apply andb_true_intro; split;
    (apply Z.leb_le || apply Z.ltb_lt); lia.
Qed.

Lemma value_of_cbor_of_int (n : Z) : value_of_cbor (cbor_of_int n) = Some (ValInt n).
Proof.
  pose proof (int_of_cbor_of_int n) as H.
  unfold cbor_of_int in *.
  destruct (0 <=? n); cbn [value_of_cbor option_map] in *; now rewrite H.
Qed.

(** A real encoder with room takes a run of chunks whole. *)
Lemma fold_AddEncoded_room (chunks : list (list Z)) :
  forall (e : QCBOREncodeContext) (capacity : Z),
    out_buffer e = Some capacity -> out_error e = false ->
    out_len e = len (out_data e) ->
    out_len e + len (concat chunks) <= capacity ->
    fold_left QCBOREncode_AddEncoded chunks e =
      {| out_buffer := Some capacity; out_data := out_data e ++ concat chunks;
         out_len := out_len e + len (concat chunks); out_error := false |}.
Proof.
  induction chunks as [|c chunks IH]; intros e capacity Hbuf Herr Hlen Hroom; simpl in *.
  - rewrite app_nil_r, Z.add_0_r. destruct e; simpl in *; congruence.
  - rewrite len_app in Hroom.
    pose proof (len_nonneg (concat chunks)). pose proof (len_nonneg c).
    unfold QCBOREncode_AddEncoded at 2. unfold encoder_append.
    rewrite Herr, Hbuf.
    destruct (Z.ltb_spec capacity (out_len e + len c)); [lia|].
    rewrite (IH _ capacity); simpl; rewrite ?len_app; try reflexivity; try lia.
    now rewrite <- app_assoc, Z.add_assoc.
Qed.

Lemma flag_is_set_0 (flag : Z) : flag_is_set 0 flag = false.
Proof. reflexivity. Qed.

Lemma encode_protected_signer (alg : Z) (kid : q_useful_buf_c) :
  encode_protected (signer_parameters alg kid) = encode (CMap [CUint 1; cbor_of_int alg]).
Proof. destruct kid; reflexivity. Qed.

Lemma unprotected_map_signer (alg : Z) (kid : q_useful_buf_c) :
  unprotected_map (signer_parameters alg kid) =
  CMap match kid with
       | NULL_Q_USEFUL_BUF_C => []
       | UsefulBufC k => [CUint 4; CBstr k]
       end.
Proof. destruct kid; reflexivity. Qed.

Lemma merge_signer_parameters (alg : Z) (kid : q_useful_buf_c) :
  merge_parameters (signer_parameters alg kid) [] = inr (signer_parameters alg kid).
Proof. destruct kid; reflexivity. Qed.

Lemma encode_cose_sign1_item (p : list Z) (u : list cbor) (pl sg : list Z) :
  encode (cose_sign1_item p u pl sg) =
  concat [encode_head 6 CBOR_TAG_COSE_SIGN1; encode_head 4 4; encode (CBstr p);
          encode (CMap u); encode (CBstr pl)] ++ encode (CBstr sg).
Proof.
  unfold cose_sign1_item. cbn [encode flat_map concat len length Z.of_nat].
  rewrite !app_nil_r. now rewrite <- !app_assoc.
Qed.

Lemma encode_head_length (major arg : Z) : (length (encode_head major arg) <= 9)%nat.
Proof.
  unfold encode_head.
  repeat match goal with |- context [if ?c then _ else _] => destruct c end;
    simpl; lia.
Qed.

Lemma find_alg_signer_parameters (alg : Z) (kid : q_useful_buf_c) :
  spec_find_parameter_alg_id (signer_parameters alg kid) = alg.
Proof. reflexivity. Qed.

Lemma find_kid_signer_parameters (alg : Z) (kid : q_useful_buf_c) :
  spec_find_parameter_kid (signer_parameters alg kid) = kid.
Proof. destruct kid; reflexivity. Qed.

(** The two buckets that the signer wrote decode to its parameters. *)
Lemma decode_parameters_signer (alg : Z) (kid : q_useful_buf_c) :
  decode_parameters None [CUint 1; cbor_of_int alg]
    match kid with
    | NULL_Q_USEFUL_BUF_C => []
    | UsefulBufC k => [CUint 4; CBstr k]
    end
  = inr (signer_parameters alg kid).
Proof.
  unfold decode_parameters.
  cbn [find_crit label_of_cbor int_of_cbor option_map is_crit_label label_eqb
       T_COSE_HEADER_PARAM_CRIT Z.eqb Pos.eqb res_bind forallb negb].
  cbn [decode_bucket res_bind].
  unfold decode_entry at 1.
  cbn [label_of_cbor int_of_cbor option_map is_crit_label label_eqb existsb
       T_COSE_HEADER_PARAM_CRIT Z.eqb Pos.eqb known_label].
  rewrite value_of_cbor_of_int.
  destruct kid; reflexivity.
Qed.

Lemma protected_map_entries_signer (alg : Z) :
  - 2 ^ 64 <= alg < 2 ^ 64 ->
  protected_map_entries (encode (CMap [CUint 1; cbor_of_int alg]))
  = inr [CUint 1; cbor_of_int alg].
Proof.
  intros Halg. unfold protected_map_entries.
  destruct (encode (CMap [CUint 1; cbor_of_int alg])) as [|b bs] eqn:He.
  { pose proof (encode_nonempty (CMap [CUint 1; cbor_of_int alg])) as Hn.
    rewrite He in Hn. simpl in Hn. lia. }
  rewrite <- He, <- (app_nil_r (encode _)).
  rewrite decode_encode; [reflexivity | |].
  - unfold cbor_of_int, QCBOR_MAX_NESTING. destruct (0 <=? alg); cbn; lia.
  - cbn [cbor_ok forallb len length Z.of_nat]. rewrite cbor_ok_of_int by exact Halg.
    reflexivity.
Qed.

Section RoundTrip.
Context `{A : CryptoAdapter}.
Variable alg : Z.
Variable key : t_cose_key.
Variables kid aad payload : q_useful_buf_c.
Hypothesis Hsupported : supported_algorithm alg key.
Hypothesis Hpayload : ub_len payload < 2 ^ 64.
Hypothesis Hkid : ub_len kid < 2 ^ 64.

Local Abbreviation protected := (encode (CMap [CUint 1; cbor_of_int alg])).
Local Abbreviation unprotected :=
  (match kid with
   | NULL_Q_USEFUL_BUF_C => []
   | UsefulBufC k => [CUint 4; CBstr k]
   end).

(** What sign() writes: the item of Section 3 around the signature that
    the adapter makes over the TBS hash. *)
Lemma sign1_sign_output :
  exists digest signature,
    spec_create_tbs_hash alg (UsefulBufC protected) NULL_Q_USEFUL_BUF_C aad payload
      spec_max_hash_size = (T_COSE_SUCCESS, UsefulBufC digest) /\
    t_cose_crypto_sign alg key (UsefulBufC digest) = (T_COSE_SUCCESS, signature) /\
    ub_len signature < 2 ^ 64 /\
    (forall k, t_cose_crypto_verify alg key k (UsefulBufC digest)
                 (UsefulBufC (ub_bytes signature)) = T_COSE_SUCCESS) /\
    let message :=
      encode (cose_sign1_item protected unprotected (ub_bytes payload) (ub_bytes signature)) in
    forall capacity,
      len message <= capacity ->
      t_cose_sign1_sign 0 (spec_signer alg key kid) [] aad payload (Some capacity)
      = (T_COSE_SUCCESS, UsefulBufC message, len message).
Proof.
  destruct Hsupported as (Halg & Hhash & Hsign).
  destruct (Hhash (encode (sig_structure (UsefulBufC protected) NULL_Q_USEFUL_BUF_C
                             aad payload))) as (digest & Hd & Hdlen).
  assert (Htbs : spec_create_tbs_hash alg (UsefulBufC protected) NULL_Q_USEFUL_BUF_C
                   aad payload spec_max_hash_size = (T_COSE_SUCCESS, UsefulBufC digest)).
  { unfold spec_create_tbs_hash. rewrite Hd.
    destruct (Z.ltb_spec spec_max_hash_size (len digest)); [lia | reflexivity]. }
  destruct (Hsign NULL_Q_USEFUL_BUF_C (UsefulBufC digest) Hdlen) as (signature & Hs & Hslen & _).
  exists digest, signature.
  split; [exact Htbs|]. split; [exact Hs|]. split; [exact Hslen|].
  split.
  { intros k. destruct (Hsign k (UsefulBufC digest) Hdlen) as (s' & Hs' & _ & Hv).
    rewrite Hs in Hs'. injection Hs' as <-. exact Hv. }
  intros message capacity Hroom.
  unfold t_cose_sign1_sign, run.
  rewrite sign1_encode_normal_form.
  cbn [Signer.h_callback Signer.me Signer.callback spec_signer].
  unfold spec_sign_h_callback.
  cbn [cose_algorithm_id signer_kid].
  fold (signer_parameters alg kid).
  rewrite merge_signer_parameters.
  cbv zeta. cbn [codec log fst snd].
  unfold sign1_chunks. rewrite !flag_is_set_0.
  rewrite encode_protected_signer, unprotected_map_signer.
  cbn [app].
  subst message. rewrite encode_cose_sign1_item in *.
  set (chunks := [encode_head 6 CBOR_TAG_COSE_SIGN1; encode_head 4 4;
                  encode (CBstr protected); encode (CMap unprotected);
                  encode (CBstr (ub_bytes payload))]) in *.
  rewrite len_app in Hroom.
  pose proof (len_nonneg (encode (CBstr (ub_bytes signature)))).
  pose proof (len_nonneg (concat chunks)).
  rewrite (fold_AddEncoded_room chunks (QCBOREncode_Init (Some capacity)) capacity
             eq_refl eq_refl eq_refl) by (cbn [QCBOREncode_Init out_len]; lia).
  unfold spec_sign_callback.
  change (flag_is_set (Z.lor 0 T_COSE_OPT_COSE_SIGN1) T_COSE_OPT_COSE_SIGN1) with true.
  cbv iota.
  cbn [QCBOREncode_IsBufferNULL out_buffer cose_algorithm_id signing_key].
  rewrite Htbs. cbn [is_error t_cose_err_eqb negb].
  rewrite Hs. cbn [is_error t_cose_err_eqb negb fst snd].
  unfold QCBOREncode_AddBytes, QCBOREncode_AddItem, QCBOREncode_AddEncoded, encoder_append.
  cbn [out_error out_buffer out_len out_data QCBOREncode_Init app Z.add].
  destruct (Z.ltb_spec capacity
              (len (concat chunks) + len (encode (CBstr (ub_bytes signature)))));
    [lia|].
  cbn [out_error out_buffer out_len out_data QCBOREncode_IsBufferNULL].
  now rewrite len_app.
Qed.

Variable params : t_cose_parameter_storage.
Hypothesis Hroom : (length (storage params) + 2 <= storage_size params)%nat.

Lemma protected_length : len protected <= 11.
Proof.
  assert (Hint : (length (encode (cbor_of_int alg)) <= 9)%nat).
  { unfold cbor_of_int. destruct (0 <=? alg); apply encode_head_length. }
  assert (Heq : encode (CMap [CUint 1; cbor_of_int alg])
                = 161 :: 1 :: encode (cbor_of_int alg)).
  { cbn [encode flat_map]. now rewrite !app_nil_r. }
  rewrite Heq. unfold len. cbn [length]. lia.
Qed.

(** The decoder over a message of sign() holds the item of Section 3. *)
Lemma tree_Init_message (signature : list Z) :
  len signature < 2 ^ 64 ->
  tree_Init (encode (cose_sign1_item protected unprotected (ub_bytes payload) signature))
  = {| levels :=
         [(LevelTop,
           [cose_sign1_item protected unprotected (ub_bytes payload) signature])];
       trailing := [];
       last_error := QCBOR_SUCCESS |}.
Proof.
  intros Hsig. unfold tree_Init.
  rewrite <- (app_nil_r (encode _)).
  rewrite decode_encode; [reflexivity | |].
  - unfold QCBOR_MAX_NESTING. destruct kid; cbn; lia.
  - destruct Hsupported as (Halg & _).
    pose proof protected_length.
    unfold cose_sign1_item.
    cbn [cbor_ok forallb CBOR_TAG_COSE_SIGN1 Z.leb Z.ltb Z.compare Pos.compare
         Z.pow Z.pow_pos Pos.iter Z.mul Pos.mul andb len length Z.of_nat].
    unfold ub_len, len in *.
    repeat (apply andb_true_intro; split); try reflexivity;
      try (apply Z.ltb_lt; cbn [length]; lia).
    + destruct kid; cbn in *; [reflexivity|].
      repeat (apply andb_true_intro; split); try reflexivity; apply Z.ltb_lt; lia.
    + destruct kid; reflexivity.
    + destruct kid; cbn [forallb cbor_ok andb]; [reflexivity|].
      unfold len. cbn in Hkid.
      repeat (apply andb_true_intro; split); try reflexivity; apply Z.ltb_lt; lia.
Qed.

Lemma headers_decode_message (outer : list (level_kind * list cbor))
    (rest : list cbor) (loc : t_cose_header_location) :
  spec_headers_decode
    {| levels := (LevelArray, CBstr protected :: CMap unprotected :: rest) :: outer;
       trailing := []; last_error := QCBOR_SUCCESS |}
    loc None None params []
  = (T_COSE_SUCCESS,
     {| levels := (LevelArray, rest) :: outer;
        trailing := []; last_error := QCBOR_SUCCESS |},
     {| storage_size := storage_size params;
        storage := storage params ++ signer_parameters alg kid |},
     signer_parameters alg kid,
     UsefulBufC protected).
Proof.
  destruct Hsupported as (Halg & _).
  unfold spec_headers_decode.
  cbn [tree_GetByteString tree_enter tree_exit tree_peek tree_advance tree_GetError
       levels last_error trailing with_levels with_error untag snd fst
       QCBOR_SUCCESS Z.eqb negb ub_bytes].
  rewrite protected_map_entries_signer by lia.
  cbn [res_bind]. rewrite decode_parameters_signer.
  assert (Hlen : (length (signer_parameters alg kid) <= 2)%nat)
    by (destruct kid; cbn; lia).
  destruct (Nat.ltb_spec (storage_size params)
              (length (storage params) + length (signer_parameters alg kid)));
    [lia | reflexivity].
Qed.

Lemma create_tbs_hash_payload_bytes (a : Z) (p sp ad pl : q_useful_buf_c) (n : Z) :
  spec_create_tbs_hash a p sp ad (UsefulBufC (ub_bytes pl)) n
  = spec_create_tbs_hash a p sp ad pl n.
Proof. unfold spec_create_tbs_hash, sig_structure. destruct sp; reflexivity. Qed.

Lemma dispatch_message (digest : list Z) (signature : q_useful_buf_c)
    (w : world tree_decoder) :
  spec_create_tbs_hash alg (UsefulBufC protected) NULL_Q_USEFUL_BUF_C aad payload
    spec_max_hash_size = (T_COSE_SUCCESS, UsefulBufC digest) ->
  t_cose_crypto_verify alg key kid (UsefulBufC digest) signature = T_COSE_SUCCESS ->
  fst (dispatch_verify1 [spec_verifier alg key] 0 0 (UsefulBufC protected)
         (UsefulBufC (ub_bytes payload)) aad (signer_parameters alg kid) signature w)
  = T_COSE_SUCCESS.
Proof.
  intros Htbs Hverify.
  unfold dispatch_verify1, spec_verifier, spec_verify1_callback, bind, call, ret.
  cbn [run_callback1 fst snd codec log verifier_algorithm_id verification_key].
  rewrite find_alg_signer_parameters, find_kid_signer_parameters.
  rewrite Z.eqb_refl. cbn [negb]. rewrite flag_is_set_0.
  rewrite create_tbs_hash_payload_bytes, Htbs.
  cbn [is_error t_cose_err_eqb negb fst snd].
  rewrite Hverify. reflexivity.
Qed.

(** The same through the short-circuit verifier of
    t_cose_signature_verify_short.c, for a short-circuit algorithm and
    the short-circuit kid. *)
Lemma dispatch_message_short (digest : list Z)
    (me_x : @struct_t_cose_signature_verify_short _ _ (spec_imports A))
    (w : world tree_decoder) :
  t_cose_algorithm_is_short_circuit alg = true ->
  kid = example_short_circuit_kid ->
  spec_create_tbs_hash alg (UsefulBufC protected) NULL_Q_USEFUL_BUF_C aad payload
    spec_max_hash_size = (T_COSE_SUCCESS, UsefulBufC digest) ->
  fst (dispatch_verify1 [short_verifier me_x] 0 0 (UsefulBufC protected)
         (UsefulBufC (ub_bytes payload)) aad (signer_parameters alg kid)
         (UsefulBufC digest) w)
  = T_COSE_SUCCESS.
Proof.
  intros Hsc Hk Htbs.
  unfold dispatch_verify1, short_verifier, bind, call, ret.
  cbn [run_callback1 fst snd codec log].
  match goal with
  | |- context [t_cose_signature_verify1_short ?m ?f ?pbh ?psh ?pl ?ad ?ps ?sg ?w0] =>
      pose proof (verify1_short_verification_path
                    m f pbh psh pl ad sg ps w0 (UsefulBufC digest)) as Hc;
      destruct (t_cose_signature_verify1_short m f pbh psh pl ad ps sg w0) as [rv w1]
  end.
  cbn [t_cose_find_parameter_alg_id t_cose_find_parameter_kid get_short_circuit_kid
       T_COSE_OPT_DECODE_ONLY T_COSE_CRYPTO_MAX_HASH_SIZE create_tbs_hash
       spec_imports fst snd] in Hc.
  rewrite find_alg_signer_parameters, find_kid_signer_parameters in Hc.
  rewrite create_tbs_hash_payload_bytes in Hc.
  destruct (Hc Hsc (f_equal ub_bytes Hk) (flag_is_set_0 _) Htbs) as (_ & _ & Hiff & _).
  cbn [fst]. rewrite (proj2 Hiff eq_refl). reflexivity.
Qed.

Lemma verify_of_message (verifiers : list verifier) (signature : q_useful_buf_c) :
  ub_len signature < 2 ^ 64 ->
  (forall w,
      fst (dispatch_verify1 verifiers 0 0 (UsefulBufC protected)
             (UsefulBufC (ub_bytes payload)) aad (signer_parameters alg kid)
             (UsefulBufC (ub_bytes signature)) w) = T_COSE_SUCCESS) ->
  t_cose_sign1_verify 0 verifiers
    (UsefulBufC (encode (cose_sign1_item protected unprotected (ub_bytes payload)
                           (ub_bytes signature))))
    NULL_Q_USEFUL_BUF_C aad params
  = (T_COSE_SUCCESS, UsefulBufC (ub_bytes payload), signer_parameters alg kid).
Proof.
  intros Hslen Hdispatch.
  unfold t_cose_sign1_verify, run. cbn [ub_bytes].
  rewrite tree_Init_message by exact Hslen.
  unfold t_cose_sign1_decode, bind, on_codec, ret, cose_sign1_item.
  cbn [codec log fst snd tree_peek levels check_tag untag].
  rewrite flag_is_set_0, Z.eqb_refl.
  cbn [is_error t_cose_err_eqb negb codec log tree_EnterArray tree_enter tree_peek
       tree_advance levels last_error trailing with_levels with_error untag snd fst
       QCBOR_SUCCESS Z.eqb entered_array_size length].
  unfold with_levels. cbn [levels trailing last_error].
  rewrite headers_decode_message.
  cbn [is_error t_cose_err_eqb negb codec log fst snd].
  cbn [tree_GetNext tree_GetByteString tree_ExitArray tree_exit tree_Finish tree_peek
       tree_advance levels last_error trailing with_levels with_error untag snd fst
       QCBOR_SUCCESS Z.eqb negb codec log].
  unfold with_levels. cbn [levels trailing last_error Z.eqb negb QCBOR_SUCCESS].
  match goal with
  | |- context [dispatch_verify1 ?vs ?n ?f ?p ?pl ?ad ?ps ?sg ?w] =>
      pose proof (Hdispatch w) as Hd;
      destruct (dispatch_verify1 vs n f p pl ad ps sg w) as [rv w'] eqn:Hdisp
  end.
  cbn [fst] in Hd. subst rv. reflexivity.
Qed.

(** C1.  Round trip.  For every payload, aad and kid, and every key with
    a supported algorithm, sign() writes a message into any buffer that
    is large enough, and verifying that message with the verifier for
    the algorithm and the key yields success, the payload that was
    signed and the parameters of the signer.  When the algorithm is a
    short-circuit one and the kid is the short-circuit kid, the same
    holds with the short-circuit verifier of
    t_cose_signature_verify_short.c in place of the verifier for the
    key. *)
Theorem cose_sign1_round_trip :
  exists message : list Z,
    (forall capacity,
        len message <= capacity ->
        t_cose_sign1_sign 0 (spec_signer alg key kid) [] aad payload (Some capacity)
        = (T_COSE_SUCCESS, UsefulBufC message, len message)) /\
    t_cose_sign1_verify 0 [spec_verifier alg key] (UsefulBufC message)
      NULL_Q_USEFUL_BUF_C aad params
    = (T_COSE_SUCCESS, UsefulBufC (ub_bytes payload), signer_parameters alg kid) /\
    (t_cose_algorithm_is_short_circuit alg = true ->
     kid = example_short_circuit_kid ->
     forall me_x,
       t_cose_sign1_verify 0 [short_verifier me_x] (UsefulBufC message)
         NULL_Q_USEFUL_BUF_C aad params
       = (T_COSE_SUCCESS, UsefulBufC (ub_bytes payload), signer_parameters alg kid)).
Proof.
  destruct sign1_sign_output as (digest & signature & Htbs & Hs & Hslen & Hv & Hsign).
  cbv zeta in Hsign.
  eexists. split; [exact Hsign|]. split.
  - apply verify_of_message; [exact Hslen|].
    intros w. now apply (dispatch_message digest).
  - intros Hsc Hk me_x.
    apply verify_of_message; [exact Hslen|].
    intros w.
    assert (Hsig : signature = UsefulBufC digest).
    { unfold t_cose_crypto_sign in Hs. rewrite Hsc in Hs. now injection Hs. }
    subst signature. cbn [ub_bytes].
    now apply dispatch_message_short.
Qed.

End RoundTrip.

(* ================================================================== *)
(** * The test crypto and the examples                                 *)
(* ================================================================== *)

Lemma sha256_length (m : list Z) : length (SHA256.sha256 m) = 32%nat.
Proof.
  unfold SHA256.sha256, SHA256.digest_bytes.
  destruct (SHA256.blocks _ _ _) as [[[[[[[a b] c] d] e] f] g] h].
  rewrite !length_app, !be_bytes_length. reflexivity.
Qed.

(** A short-circuit algorithm is supported as soon as its hash is: the
    signature is the hash, and the hash compares equal to itself. *)
Lemma short_circuit_supported `{A : CryptoAdapter} (alg : Z) (key : t_cose_key) :
  t_cose_algorithm_is_short_circuit alg = true ->
  - 2 ^ 31 <= alg < 2 ^ 31 ->
  (forall m, exists digest,
      adapter_hash alg m = Some digest /\ len digest <= spec_max_hash_size) ->
  supported_algorithm alg key.
Proof.
  intros Hsc Halg Hhash. split; [exact Halg|]. split; [exact Hhash|].
  intros kid tbs_hash Hlen. exists tbs_hash.
  unfold t_cose_crypto_sign, t_cose_crypto_verify. rewrite Hsc.
  split; [reflexivity|]. split; [unfold spec_max_hash_size in Hlen; lia|].
  rewrite (proj2 (q_useful_buf_compare_zero_iff _ _)) by (destruct tbs_hash; reflexivity).
  reflexivity.
Qed.

Lemma test_crypto_supported (key : Z) :
  @supported_algorithm test_crypto T_COSE_ALGORITHM_SHORT_CIRCUIT_256 key.
Proof.
  apply short_circuit_supported; [reflexivity | split; reflexivity || discriminate |].
  intros m. exists (SHA256.sha256 m). split; [reflexivity|].
  unfold len. rewrite sha256_length. discriminate.
Qed.

Lemma test_crypto_sig_size_exact (key : Z) :
  @sig_size_exact test_crypto T_COSE_ALGORITHM_SHORT_CIRCUIT_256 key.
Proof.
  intros pbh psh aad pl tbs_hash signature Hhash Hsign.
  unfold spec_create_tbs_hash in Hhash. cbn [adapter_hash test_crypto] in Hhash.
  change (T_COSE_ALGORITHM_SHORT_CIRCUIT_256 =? T_COSE_ALGORITHM_SHORT_CIRCUIT_256)
    with true in Hhash.
  cbn [orb] in Hhash.
  destruct (spec_max_hash_size <? _); [discriminate|].
  injection Hhash as <-.
  cbv [t_cose_crypto_sign test_crypto t_cose_algorithm_is_short_circuit] in Hsign.
  change (T_COSE_ALGORITHM_SHORT_CIRCUIT_256 =? T_COSE_ALGORITHM_SHORT_CIRCUIT_256)
    with true in Hsign.
  injection Hsign as <-.
  unfold ub_len. cbn [ub_bytes]. rewrite sha256_length. reflexivity.
Qed.

(** The test crypto has no signing algorithm of its own: what it signs
    with is the short-circuit algorithm. *)
Lemma test_crypto_supported_short_circuit (alg : Z) (key : @t_cose_key test_crypto) :
  @supported_algorithm test_crypto alg key ->
  alg = T_COSE_ALGORITHM_SHORT_CIRCUIT_256.
Proof.
  intros (_ & _ & Hsign).
  destruct (Hsign NULL_Q_USEFUL_BUF_C (UsefulBufC [])) as (signature & Hs & _).
  { vm_compute. discriminate. }
  unfold t_cose_crypto_sign in Hs.
  cbn [t_cose_algorithm_is_short_circuit adapter_sign test_crypto] in Hs.
  destruct (Z.eqb_spec alg T_COSE_ALGORITHM_SHORT_CIRCUIT_256); [assumption|discriminate].
Qed.


(** The signer of the examples asked for a COSE_Sign: what it writes is
    the COSE_Signature of the examples, the one that the verifier of
    t_cose_signature_verify_short.c is run on, and the size calculation
    counts its bytes. *)
Example sign_callback_writes_cose_signature :
  let real :=
    spec_sign_callback (Signer.me example_signer) 0 example_body_protected
      (UsefulBufC []) (UsefulBufC payload) (QCBOREncode_Init (Some 200)) in
  let size :=
    spec_sign_callback (Signer.me example_signer) 0 example_body_protected
      (UsefulBufC []) (UsefulBufC payload) (QCBOREncode_Init None) in
  fst (fst real) = T_COSE_SUCCESS /\
  out_error (snd real) = false /\
  out_data (snd real) = encode example_cose_signature /\
  fst (fst size) = T_COSE_SUCCESS /\
  out_error (snd size) = false /\
  out_len (snd size) = len (encode example_cose_signature).
Proof.
  cbv zeta.
  split; [|split; [|split; [|split; [|split]]]]; vm_compute; reflexivity.
Qed.

(** An ES256 message before the short-circuit verifier. *)
Lemma verify1_short_other_alg_unsupported_witness :
  t_cose_algorithm_is_short_circuit
    (spec_find_parameter_alg_id
       (signer_parameters T_COSE_ALGORITHM_ES256 example_short_circuit_kid)) = false /\
  t_cose_signature_verify1_short example_verifier_context 0
    example_protected NULL_Q_USEFUL_BUF_C (UsefulBufC payload) (UsefulBufC [])
    (signer_parameters T_COSE_ALGORITHM_ES256 example_short_circuit_kid)
    example_tbs_hash example_world
  = (T_COSE_ERR_UNSUPPORTED_SIGNING_ALG,
     {| codec := tree_Init []; log := [Ev_find_parameter_alg_id] |}).
Proof.
  split; [reflexivity|].
  apply (verify1_short_other_alg_unsupported example_verifier_context 0
           example_protected NULL_Q_USEFUL_BUF_C (UsefulBufC payload) (UsefulBufC [])
           example_tbs_hash
           (signer_parameters T_COSE_ALGORITHM_ES256 example_short_circuit_kid)
           example_world).
  reflexivity.
Defined.

(** A short-circuit message under another kid, with and without
    T_COSE_OPT_DECODE_ONLY. *)
Lemma verify1_short_kid_unmatched_witness :
  fst (t_cose_signature_verify1_short example_verifier_context 0
         example_protected NULL_Q_USEFUL_BUF_C (UsefulBufC payload) (UsefulBufC [])
         (signer_parameters T_COSE_ALGORITHM_SHORT_CIRCUIT_256 (UsefulBufC [1; 2; 3]))
         example_tbs_hash example_world)
  = T_COSE_ERR_KID_UNMATCHED /\
  fst (t_cose_signature_verify1_short example_verifier_context 8
         example_protected NULL_Q_USEFUL_BUF_C (UsefulBufC payload) (UsefulBufC [])
         (signer_parameters T_COSE_ALGORITHM_SHORT_CIRCUIT_256 (UsefulBufC [1; 2; 3]))
         example_tbs_hash example_world)
  = T_COSE_ERR_KID_UNMATCHED.
Proof.
  split.
  - rewrite (verify1_short_kid_unmatched example_verifier_context 0
               example_protected NULL_Q_USEFUL_BUF_C (UsefulBufC payload) (UsefulBufC [])
               example_tbs_hash
               (signer_parameters T_COSE_ALGORITHM_SHORT_CIRCUIT_256 (UsefulBufC [1; 2; 3]))
               example_world);
      [reflexivity | reflexivity | discriminate].
  - rewrite (verify1_short_kid_unmatched example_verifier_context 8
               example_protected NULL_Q_USEFUL_BUF_C (UsefulBufC payload) (UsefulBufC [])
               example_tbs_hash
               (signer_parameters T_COSE_ALGORITHM_SHORT_CIRCUIT_256 (UsefulBufC [1; 2; 3]))
               example_world);
      [reflexivity | reflexivity | discriminate].
Defined.

(** A short-circuit message with a signature that would not verify,
    decoded with T_COSE_OPT_DECODE_ONLY. *)
Lemma verify1_short_decode_only_witness :
  flag_is_set 8 (@T_COSE_OPT_DECODE_ONLY _ _ (spec_imports test_crypto)) = true /\
  fst (t_cose_signature_verify1_short example_verifier_context 8
         example_protected NULL_Q_USEFUL_BUF_C (UsefulBufC payload) (UsefulBufC [])
         example_parameters (UsefulBufC [0]) example_world)
  = T_COSE_SUCCESS.
Proof.
  split; [reflexivity|].
  apply (verify1_short_decode_only example_verifier_context 8
           example_protected NULL_Q_USEFUL_BUF_C (UsefulBufC payload) (UsefulBufC [])
           (UsefulBufC [0]) example_parameters example_world eq_refl).
  split; reflexivity.
Defined.

(** A short-circuit message with its signature, the TBS hash. *)
Lemma verify1_short_compares_signature_with_hash_witness :
  fst (t_cose_signature_verify1_short example_verifier_context 0
         example_protected NULL_Q_USEFUL_BUF_C (UsefulBufC payload) (UsefulBufC [])
         example_parameters example_tbs_hash example_world)
  = T_COSE_SUCCESS /\
  fst (t_cose_signature_verify1_short example_verifier_context 0
         example_protected NULL_Q_USEFUL_BUF_C (UsefulBufC payload) (UsefulBufC [])
         example_parameters (UsefulBufC [0]) example_world)
  = T_COSE_ERR_SIG_VERIFY_FAIL.
Proof.
  split.
  - apply (verify1_short_compares_signature_with_hash example_verifier_context 0
             example_protected NULL_Q_USEFUL_BUF_C (UsefulBufC payload) (UsefulBufC [])
             example_tbs_hash example_parameters example_world example_tbs_hash
             eq_refl eq_refl eq_refl).
    + vm_compute. reflexivity.
    + reflexivity.
  - apply (verify1_short_compares_signature_with_hash example_verifier_context 0
             example_protected NULL_Q_USEFUL_BUF_C (UsefulBufC payload) (UsefulBufC [])
             (UsefulBufC [0]) example_parameters example_world example_tbs_hash
             eq_refl eq_refl eq_refl).
    + vm_compute. reflexivity.
    + vm_compute. discriminate.
Defined.

(** The headers of the first element do not decode: the error of the
    header decoder comes back and the decoder is read no further. *)
Lemma verify_short_header_error_wins_witness :
  fst (fst (fst
    (t_cose_signature_verify_short example_verifier_context 0
       {| nesting := 1; index := 0 |} example_body_protected (UsefulBufC payload)
       (UsefulBufC []) example_storage [] example_bad_signatures_world)))
  = T_COSE_ERR_CBOR_DECODE /\
  log (snd
    (t_cose_signature_verify_short example_verifier_context 0
       {| nesting := 1; index := 0 |} example_body_protected (UsefulBufC payload)
       (UsefulBufC []) example_storage [] example_bad_signatures_world))
  = [Ev_EnterArray; Ev_headers_decode].
Proof.
  pose proof
    (verify_short_header_error_wins example_verifier_context 0
       example_body_protected (UsefulBufC payload) (UsefulBufC [])
       {| nesting := 1; index := 0 |} example_storage []
       example_bad_signatures_world
       T_COSE_ERR_CBOR_DECODE
       (snd (fst (fst (fst
          (spec_headers_decode
             (tree_EnterArray (codec example_bad_signatures_world))
             {| nesting := 1; index := 0 |} None None example_storage [])))))
       example_storage [] NULL_Q_USEFUL_BUF_C) as H.
  assert (Hdecode :
    t_cose_headers_decode
      (QCBORDecode_EnterArray (codec example_bad_signatures_world))
      {| nesting := 1; index := 0 |} (reader example_verifier_context)
      (reader_ctx example_verifier_context) example_storage []
    = (T_COSE_ERR_CBOR_DECODE,
       snd (fst (fst (fst
         (spec_headers_decode
            (tree_EnterArray (codec example_bad_signatures_world))
            {| nesting := 1; index := 0 |} None None example_storage [])))),
       example_storage, [], NULL_Q_USEFUL_BUF_C))
    by (vm_compute; reflexivity).
  assert (Herror : T_COSE_ERR_CBOR_DECODE <> T_COSE_SUCCESS) by discriminate.
  rewrite (H Hdecode Herror). cbn [fst snd log].
  split; [reflexivity | vm_compute; reflexivity].
Defined.

(** The first of two COSE_Signatures is decoded and verified; the
    decoder is left in front of the second. *)
Lemma verify_short_decodes_one_signature_witness :
  fst (fst (fst
    (t_cose_signature_verify_short example_verifier_context 0
       {| nesting := 1; index := 0 |} example_body_protected (UsefulBufC payload)
       (UsefulBufC []) example_storage [] example_signatures_world)))
  = T_COSE_SUCCESS /\
  levels (codec (snd
    (t_cose_signature_verify_short example_verifier_context 0
       {| nesting := 1; index := 0 |} example_body_protected (UsefulBufC payload)
       (UsefulBufC []) example_storage [] example_signatures_world)))
  = [(LevelArray, [example_cose_signature]); (LevelTop, [])].
Proof.
  pose proof
    (verify_short_decodes_one_signature example_verifier_context 0
       example_body_protected (UsefulBufC payload) (UsefulBufC [])
       {| nesting := 1; index := 0 |} example_storage []
       example_signatures_world
       (snd (fst (fst (fst
          (spec_headers_decode
             (tree_EnterArray (codec example_signatures_world))
             {| nesting := 1; index := 0 |} None None example_storage [])))))
       {| storage_size := 10; storage := example_parameters |}
       example_parameters example_protected) as H.
  by_evaluation H.
  destruct H as [_ Hok].
  by_evaluation Hok.
  destruct Hok as [Hrun Hcodec].
  rewrite Hrun. split.
  - vm_compute. reflexivity.
  - vm_compute. reflexivity.
Defined.


(** The round trip of [payload] under the short-circuit algorithm of the
    test crypto. *)
Lemma cose_sign1_round_trip_witness :
  exists message : list Z,
    (forall capacity,
        len message <= capacity ->
        t_cose_sign1_sign 0
          (spec_signer T_COSE_ALGORITHM_SHORT_CIRCUIT_256 0 example_short_circuit_kid)
          [] (UsefulBufC []) (UsefulBufC payload) (Some capacity)
        = (T_COSE_SUCCESS, UsefulBufC message, len message)) /\
    t_cose_sign1_verify 0 [spec_verifier T_COSE_ALGORITHM_SHORT_CIRCUIT_256 0]
      (UsefulBufC message) NULL_Q_USEFUL_BUF_C (UsefulBufC []) example_storage
    = (T_COSE_SUCCESS, UsefulBufC payload, example_parameters) /\
    t_cose_sign1_verify 0 [short_verifier example_verifier_context]
      (UsefulBufC message) NULL_Q_USEFUL_BUF_C (UsefulBufC []) example_storage
    = (T_COSE_SUCCESS, UsefulBufC payload, example_parameters).
Proof.
  assert (Hpayload : ub_len (UsefulBufC payload) < 2 ^ 64) by (vm_compute; reflexivity).
  assert (Hkid : ub_len example_short_circuit_kid < 2 ^ 64) by (vm_compute; reflexivity).
  assert (Hroom : (length (storage example_storage) + 2 <= storage_size example_storage)%nat)
    by (vm_compute; lia).
  destruct (cose_sign1_round_trip (A:=test_crypto)
              T_COSE_ALGORITHM_SHORT_CIRCUIT_256 0
              example_short_circuit_kid (UsefulBufC []) (UsefulBufC payload)
              (test_crypto_supported 0) Hpayload Hkid example_storage Hroom)
    as (message & Hsign & Hmain & Hshort).
  exists message. split; [exact Hsign|]. split; [exact Hmain|].
  exact (Hshort eq_refl eq_refl example_verifier_context).
Defined.

(** X18.  The test of test/t_cose_austere_test.c returns 0, over any
    crypto adapter that supports ES256 with the key pair that
    [make_ecdsa_key_pair] gives and makes signatures of 64 bytes, when
    the overhead that the test adds to the size of the payload is at
    least the 75 bytes of framing and signature. *)
Corollary austere_test_passes `{A : CryptoAdapter}
    (make_ecdsa_key_pair : Z -> t_cose_err_t * t_cose_key)
    (key_pair : t_cose_key) (T_COSE_MINI_SIGN_SIZE_OVERHEAD_ES256 : Z) :
  make_ecdsa_key_pair T_COSE_ALGORITHM_ES256 = (T_COSE_SUCCESS, key_pair) ->
  supported_algorithm T_COSE_ALGORITHM_ES256 key_pair ->
  (forall tbs_hash signature,
      t_cose_crypto_sign T_COSE_ALGORITHM_ES256 key_pair tbs_hash
        = (T_COSE_SUCCESS, signature) ->
      ub_len signature = 64) ->
  75 <= T_COSE_MINI_SIGN_SIZE_OVERHEAD_ES256 ->
  austere_test make_ecdsa_key_pair T_COSE_MINI_SIGN_SIZE_OVERHEAD_ES256 = 0.
Proof.
  intros Hmake Hsupported Hsize Hoverhead.
  assert (Hpayload : ub_len (UsefulBufC payload) < 2 ^ 64) by (vm_compute; reflexivity).
  assert (Hkid : ub_len NULL_Q_USEFUL_BUF_C < 2 ^ 64) by (vm_compute; reflexivity).
  assert (Hroom : (length (storage example_storage) + 2 <= storage_size example_storage)%nat)
    by (vm_compute; lia).
  destruct (sign1_sign_output T_COSE_ALGORITHM_ES256 key_pair NULL_Q_USEFUL_BUF_C
              NULL_Q_USEFUL_BUF_C (UsefulBufC payload) Hsupported)
    as (digest & signature & Htbs & Hs & Hslen & Hv & Hsign).
  cbv zeta in Hsign.
  pose proof (Hsize _ _ Hs) as H64.
  unfold austere_test, t_cose_mini_sign. rewrite Hmake.
  cbn [is_error t_cose_err_eqb negb].
  rewrite Hsign.
  - cbn [is_error t_cose_err_eqb negb].
    rewrite (verify_of_message T_COSE_ALGORITHM_ES256 key_pair NULL_Q_USEFUL_BUF_C
               NULL_Q_USEFUL_BUF_C (UsefulBufC payload) Hsupported Hpayload Hkid
               example_storage Hroom
               [spec_verifier T_COSE_ALGORITHM_ES256 key_pair] signature Hslen).
    + reflexivity.
    + intros w. apply (dispatch_message _ _ _ _ _ digest); [exact Htbs | apply Hv].
  - rewrite encode_cose_sign1_item, len_app.
    unfold ub_len in H64. fold (len (ub_bytes signature)) in H64.
    cbn [encode]. rewrite (len_app (encode_head 2 _)), H64.
    change (len (encode_head 2 64)) with 2.
    change (len (concat _)) with 137.
    change (len payload) with 128. lia.
Qed.

(** What the test signs is 128 bytes long. *)
Example payload_length : length payload = 128%nat.
Proof. reflexivity. Qed.

(** The message that the short-circuit signer makes of it verifies, and
    does not once a byte of the payload is changed. *)
Example short_circuit_message_verifies :
  let message :=
    snd (fst (t_cose_sign1_sign 0 example_signer [] (UsefulBufC [])
                (UsefulBufC payload) (Some 200))) in
  fst (fst (t_cose_sign1_verify 0 [short_verifier example_verifier_context]
              message NULL_Q_USEFUL_BUF_C (UsefulBufC []) example_storage))
  = T_COSE_SUCCESS /\
  fst (fst (t_cose_sign1_verify 0 [short_verifier example_verifier_context]
              (UsefulBufC (firstn 40 (ub_bytes message) ++ [255] ++
                           skipn 41 (ub_bytes message)))
              NULL_Q_USEFUL_BUF_C (UsefulBufC []) example_storage))
  = T_COSE_ERR_SIG_VERIFY_FAIL.
Proof. vm_compute. split; reflexivity. Qed.

(** The digest of "abc", as in FIPS 180-4. *)
Example sha256_abc :
  SHA256.sha256 [97; 98; 99] =
  [186; 120; 22; 191; 143; 1; 207; 234; 65; 65; 64; 222; 93; 174; 34; 35;
   176; 3; 97; 163; 150; 23; 122; 156; 180; 16; 255; 97; 242; 0; 21; 173].
Proof. vm_compute. reflexivity. Qed.

(* ================================================================== *)
(** * [NumToString] prints decimal numbers                             *)
(* ================================================================== *)

Lemma pow10_pos (k : nat) : 0 < 10 ^ Z.of_nat k.
Proof. apply Z.pow_pos_nonneg; lia. Qed.

Lemma pow10_succ (k : nat) : 10 ^ Z.of_nat (S k) = 10 * 10 ^ Z.of_nat k.
Proof. rewrite Nat2Z.inj_succ, Z.pow_succ_r; lia. Qed.

Lemma digits_fixed_length (k : nat) (m : Z) : length (digits_fixed k m) = k.
Proof. revert m; induction k as [|k IH]; intros m; simpl; [reflexivity|]. now rewrite IH. Qed.

Lemma digits_fixed_digits (k : nat) (m : Z) :
  0 <= m < 10 ^ Z.of_nat k -> Forall is_digit (digits_fixed k m).
Proof.
  revert m; induction k as [|k IH]; intros m Hm; simpl; [constructor|].
  pose proof (pow10_pos k) as Hp. rewrite pow10_succ in Hm.
  constructor.
  - unfold is_digit. split.
    + apply Z.div_pos; lia.
    + assert (m / 10 ^ Z.of_nat k < 10) by (apply Z.div_lt_upper_bound; lia). lia.
  - apply IH. apply Z.mod_pos_bound. lia.
Qed.

Lemma fold_decimal (ds : list Z) (a : Z) :
  fold_left (fun a d => 10 * a + d) ds a
  = a * 10 ^ Z.of_nat (length ds) + decimal_value ds.
Proof.
  unfold decimal_value. revert a; induction ds as [|d ds IH]; intros a.
  - simpl. lia.
  - cbn [fold_left length]. rewrite IH, (IH (10 * 0 + d)), pow10_succ. lia.
Qed.

Lemma decimal_value_cons (d : Z) (ds : list Z) :
  decimal_value (d :: ds) = d * 10 ^ Z.of_nat (length ds) + decimal_value ds.
Proof. unfold decimal_value at 1. cbn [fold_left]. rewrite fold_decimal. lia. Qed.

Lemma decimal_value_digits_fixed (k : nat) (m : Z) :
  0 <= m < 10 ^ Z.of_nat k -> decimal_value (digits_fixed k m) = m.
Proof.
  revert m; induction k as [|k IH]; intros m Hm.
  - simpl in *. unfold decimal_value. simpl. lia.
  - pose proof (pow10_pos k) as Hp.
    cbn [digits_fixed]. rewrite decimal_value_cons, digits_fixed_length, IH.
    + pose proof (Z.div_mod m (10 ^ Z.of_nat k)). lia.
    + apply Z.mod_pos_bound. lia.
Qed.

Lemma drop_zeros_value (ds : list Z) : decimal_value (drop_zeros ds) = decimal_value ds.
Proof.
  induction ds as [|d ds IH]; [reflexivity|].
  cbn [drop_zeros]. destruct (Z.eqb_spec d 0) as [->|_]; [|reflexivity].
  rewrite IH, decimal_value_cons. lia.
Qed.

Lemma drop_zeros_digits (ds : list Z) : Forall is_digit ds -> Forall is_digit (drop_zeros ds).
Proof.
  induction 1 as [|d ds Hd Hds IH]; [constructor|].
  cbn [drop_zeros]. destruct (d =? 0); [assumption|now constructor].
Qed.

Lemma drop_zeros_length (ds : list Z) : (length (drop_zeros ds) <= length ds)%nat.
Proof.
  induction ds as [|d ds IH]; [simpl; lia|].
  cbn [drop_zeros]. destruct (d =? 0); simpl in *; lia.
Qed.

(** What is left has no zero in front. *)
Lemma drop_zeros_head (ds : list Z) :
  drop_zeros ds = [] \/ exists d ds', drop_zeros ds = d :: ds' /\ d <> 0.
Proof.
  induction ds as [|d ds IH]; [now left|].
  cbn [drop_zeros]. destruct (Z.eqb_spec d 0) as [->|Hd]; [assumption|].
  right. now exists d, ds.
Qed.

(** ** The digits as a number of the standard library *)

Lemma of_uint_acc_value (ds : list Z) (acc : positive) :
  Forall is_digit ds ->
  Z.pos (Pos.of_uint_acc (uint_of_digits ds) acc)
  = fold_left (fun a d => 10 * a + d) ds (Z.pos acc).
Proof.
  intros Hds; revert acc; induction Hds as [|d ds Hd Hds IH]; intros acc;
    [reflexivity|].
  digit_cases d; cbn [uint_of_digits fold_right uint_of_digit Pos.of_uint_acc fold_left];
    rewrite IH; f_equal; lia.
Qed.

Lemma of_uint_value (ds : list Z) :
  Forall is_digit ds ->
  Z.of_N (Pos.of_uint (uint_of_digits ds)) = decimal_value ds.
Proof.
  induction 1 as [|d ds Hd Hds IH]; [reflexivity|].
  unfold decimal_value.
  digit_cases d; cbn [uint_of_digits fold_right uint_of_digit Pos.of_uint fold_left];
    try (cbn [Z.of_N]; rewrite of_uint_acc_value by assumption; reflexivity).
  exact IH.
Qed.

Lemma unorm_digits (d : Z) (ds : list Z) :
  is_digit d -> d <> 0 ->
  Decimal.unorm (uint_of_digits (d :: ds)) = uint_of_digits (d :: ds).
Proof. intros Hd Hn. digit_cases d; try reflexivity. congruence. Qed.

(** The digits of a positive number without the zeros in front are the
    digits of the standard library. *)
Lemma to_uint_digits (k : nat) (m : Z) :
  0 < m < 10 ^ Z.of_nat k ->
  uint_of_digits (drop_zeros (digits_fixed k m)) = N.to_uint (Z.to_N m).
Proof.
  intros Hm.
  pose proof (digits_fixed_digits k m ltac:(lia)) as Hdig.
  pose proof (drop_zeros_digits _ Hdig) as Hdig'.
  pose proof (of_uint_value _ Hdig') as Hval.
  rewrite drop_zeros_value, decimal_value_digits_fixed in Hval by lia.
  assert (Pos.of_uint (uint_of_digits (drop_zeros (digits_fixed k m))) = Z.to_N m) as E
    by lia.
  rewrite <- E, DecimalPos.Unsigned.to_of.
  destruct (drop_zeros_head (digits_fixed k m)) as [Hnil|(d & ds' & Hc & Hd)].
  - rewrite Hnil in E. cbn in E. lia.
  - rewrite Hc in *. symmetry. apply unorm_digits; [|assumption].
    now inversion Hdig'.
Qed.

(** ** The loop *)

Lemma NumToString_loop_done (turns : nat) (m : Z) (b : bool) (ob : UsefulOutBuf) :
  NumToString_loop turns 0 m b ob = (m, b, ob).
Proof. destruct turns; reflexivity. Qed.

Lemma quot_pow10 (j : nat) : Z.quot (10 ^ Z.of_nat (S j)) 10 = 10 ^ Z.of_nat j.
Proof.
  pose proof (pow10_pos j). rewrite pow10_succ.
  rewrite Z.quot_div_nonneg by lia. rewrite Z.mul_comm, Z.div_mul; lia.
Qed.

(** Once a digit is out, the loop puts out one digit per turn. *)
Lemma NumToString_loop_all_digits (j : nat) :
  forall (turns : nat) (m : Z) (ob : UsefulOutBuf),
    (j <= turns)%nat ->
    0 <= m < 10 ^ Z.of_nat j ->
    exists r,
      NumToString_loop turns (Z.quot (10 ^ Z.of_nat j) 10) m true ob
      = (r, true, append_bytes ob (digit_bytes (digits_fixed j m))).
Proof.
  induction j as [|j IH]; intros turns m ob Hturns Hm.
  - exists m. change (Z.quot (10 ^ Z.of_nat 0) 10) with 0.
    now rewrite NumToString_loop_done.
  - destruct turns as [|turns]; [lia|].
    pose proof (pow10_pos j) as Hp.
    rewrite quot_pow10. cbn [NumToString_loop].
    destruct (Z.gtb_spec (10 ^ Z.of_nat j) 0) as [_|]; [|lia].
    rewrite orb_true_r.
    rewrite !(Z.quot_div_nonneg m) by lia.
    assert (m - m / 10 ^ Z.of_nat j * 10 ^ Z.of_nat j = m mod 10 ^ Z.of_nat j) as ->.
    { pose proof (Z.div_mod m (10 ^ Z.of_nat j)). lia. }
    destruct (IH turns (m mod 10 ^ Z.of_nat j)
                (UsefulOutBuf_AppendByte ob (48 + m / 10 ^ Z.of_nat j)))
      as [r Hr].
    + lia.
    + apply Z.mod_pos_bound. lia.
    + exists r. rewrite Hr. reflexivity.
Qed.

(** Before that, it skips the zeros. *)
Lemma NumToString_loop_digits (j : nat) :
  forall (turns : nat) (m : Z) (ob : UsefulOutBuf),
    (j <= turns)%nat ->
    0 <= m < 10 ^ Z.of_nat j ->
    exists r,
      NumToString_loop turns (Z.quot (10 ^ Z.of_nat j) 10) m false ob
      = (r, negb (m =? 0),
         append_bytes ob (digit_bytes (drop_zeros (digits_fixed j m)))).
Proof.
  induction j as [|j IH]; intros turns m ob Hturns Hm.
  - exists m. change (Z.quot (10 ^ Z.of_nat 0) 10) with 0.
    rewrite NumToString_loop_done. simpl in Hm.
    assert (m = 0) as -> by lia. reflexivity.
  - destruct turns as [|turns]; [lia|].
    pose proof (pow10_pos j) as Hp.
    rewrite quot_pow10. cbn [NumToString_loop digits_fixed drop_zeros].
    destruct (Z.gtb_spec (10 ^ Z.of_nat j) 0) as [_|]; [|lia].
    rewrite orb_false_r.
    rewrite !(Z.quot_div_nonneg m) by lia.
    pose proof (Z.div_mod m (10 ^ Z.of_nat j) ltac:(lia)) as Hdm.
    pose proof (Z.mod_pos_bound m (10 ^ Z.of_nat j) ltac:(lia)) as Hmod.
    destruct (Z.eqb_spec (m / 10 ^ Z.of_nat j) 0) as [Hx|Hx]; cbn [negb].
    + assert (m mod 10 ^ Z.of_nat j = m) as Hsmall by lia.
      rewrite Hsmall. apply IH; lia.
    + assert (m - m / 10 ^ Z.of_nat j * 10 ^ Z.of_nat j = m mod 10 ^ Z.of_nat j) as ->
        by lia.
      destruct (NumToString_loop_all_digits j turns (m mod 10 ^ Z.of_nat j)
                  (UsefulOutBuf_AppendByte ob (48 + m / 10 ^ Z.of_nat j)))
        as [r Hr]; [lia | lia |].
      exists r. rewrite Hr.
      assert (m <> 0) as Hm0.
      { intros ->. rewrite Z.div_0_l in Hx; lia. }
      apply Z.eqb_neq in Hm0. rewrite Hm0. reflexivity.
Qed.

(** Ten turns are all the loop takes from [nMax]: more turns change
    nothing of what is written. *)
Lemma NumToString_loop_turns (turns : nat) (m : Z) (ob : UsefulOutBuf) :
  (10 <= turns)%nat ->
  0 <= m < 10 * nMax ->
  snd (NumToString_loop turns nMax m false ob) = snd (NumToString_loop 10 nMax m false ob) /\
  snd (fst (NumToString_loop turns nMax m false ob))
  = snd (fst (NumToString_loop 10 nMax m false ob)).
Proof.
  intros Hturns Hm.
  assert (0 <= m < 10 ^ Z.of_nat 10) as Hm'
    by (change (10 ^ Z.of_nat 10) with (10 * nMax); exact Hm).
  destruct (NumToString_loop_digits 10 turns m ob Hturns Hm') as [r1 H1].
  destruct (NumToString_loop_digits 10 10 m ob (le_n _) Hm') as [r2 H2].
  change (Z.quot (10 ^ Z.of_nat 10) 10) with nMax in H1, H2.
  rewrite H1, H2. split; reflexivity.
Qed.

(** ** The buffer *)

Lemma append_bytes_error (ob : UsefulOutBuf) (bs : list Z) :
  ob_err ob = true -> append_bytes ob bs = ob.
Proof.
  intros Herr. induction bs as [|b bs IH]; [reflexivity|].
  unfold append_bytes in *. cbn [fold_left].
  unfold UsefulOutBuf_AppendByte at 2. now rewrite Herr.
Qed.

Lemma append_bytes_app (ob : UsefulOutBuf) (bs cs : list Z) :
  append_bytes ob (bs ++ cs) = append_bytes (append_bytes ob bs) cs.
Proof. apply fold_left_app. Qed.

(** The bytes go to the buffer as long as there is room, and the first
    one that finds none sets the error. *)
Lemma append_bytes_room (bs : list Z) :
  forall ob : UsefulOutBuf,
    ob_err ob = false ->
    len (ob_data ob) <= ob_size ob ->
    Forall (fun b => 0 <= b < 256) bs ->
    ob_err (append_bytes ob bs) = (ob_size ob <? len (ob_data ob) + len bs) /\
    (len (ob_data ob) + len bs <= ob_size ob ->
     ob_data (append_bytes ob bs) = ob_data ob ++ bs).
Proof.
  induction bs as [|b bs IH]; intros ob Herr Hroom Hbs.
  - cbn. rewrite Herr, app_nil_r. split; [|reflexivity].
    symmetry. apply Z.ltb_ge. unfold len in *. simpl. lia.
  - unfold append_bytes. cbn [fold_left]. fold (append_bytes (UsefulOutBuf_AppendByte ob b) bs).
    inversion Hbs as [|? ? Hb Hbs']; subst.
    unfold UsefulOutBuf_AppendByte. rewrite Herr.
    assert (len (b :: bs) = 1 + len bs) as Hlen by (unfold len; simpl length; lia).
    assert (0 <= len bs) as Hnn by (unfold len; lia).
    destruct (Z.ltb_spec (ob_size ob) (len (ob_data ob) + 1)) as [Hfull|Hfits].
    + rewrite append_bytes_error by reflexivity. cbn [ob_err ob_data]. split.
      * symmetry. apply Z.ltb_lt. lia.
      * lia.
    + rewrite Z.mod_small by lia.
      destruct (IH {| ob_size := ob_size ob; ob_data := ob_data ob ++ [b]; ob_err := false |})
        as [IHerr IHdata]; cbn [ob_err ob_data ob_size];
        [reflexivity | unfold len in *; rewrite length_app; simpl; lia | assumption |].
      assert (len (ob_data ob ++ [b]) = len (ob_data ob) + 1) as Hl
        by (unfold len; rewrite length_app; simpl; lia).
      cbn [ob_size ob_data] in *. rewrite Hl in *. split.
      * rewrite IHerr. f_equal. lia.
      * intros Hr. rewrite IHdata by lia. now rewrite <- app_assoc.
Qed.

(** ** The string *)

Lemma c_string_digits (ds : list Z) :
  Forall is_digit ds ->
  c_string (digit_bytes ds ++ [0])
  = DecimalString.NilEmpty.string_of_uint (uint_of_digits ds).
Proof.
  induction 1 as [|d ds Hd Hds IH]; [reflexivity|].
  digit_cases d;
    cbn [digit_bytes map app c_string uint_of_digits fold_right uint_of_digit
         DecimalString.NilEmpty.string_of_uint];
    fold (digit_bytes ds); fold (uint_of_digits ds); rewrite <- IH; reflexivity.
Qed.

Lemma string_of_digits_length (ds : list Z) :
  String.length (DecimalString.NilEmpty.string_of_uint (uint_of_digits ds)) = length ds.
Proof.
  induction ds as [|d ds IH]; [reflexivity|].
  cbn [uint_of_digits fold_right]. fold (uint_of_digits ds).
  destruct d as [|p|p]; try (simpl; now rewrite IH).
  do 4 (try destruct p as [p|p|]); simpl; now rewrite IH.
Qed.

Lemma digit_bytes_are_bytes (ds : list Z) :
  Forall is_digit ds -> Forall (fun b => 0 <= b < 256) (digit_bytes ds).
Proof.
  induction 1 as [|d ds Hd Hds IH]; [constructor|].
  constructor; [unfold is_digit in Hd; lia | assumption].
Qed.

Lemma drop_zeros_leading (k : nat) (m : Z) :
  0 <= m < 10 ^ Z.of_nat k ->
  drop_zeros (digits_fixed (S k) m) = drop_zeros (digits_fixed k m).
Proof.
  intros Hm.
  change (digits_fixed (S k) m)
    with (m / 10 ^ Z.of_nat k :: digits_fixed k (m mod 10 ^ Z.of_nat k)).
  rewrite Z.div_small, Z.mod_small by assumption. reflexivity.
Qed.

Lemma digits_of_small_length (m : Z) :
  0 <= m < nMax -> (length (drop_zeros (digits_fixed 10 m)) <= 9)%nat.
Proof.
  intros Hm. rewrite (drop_zeros_leading 9 m) by exact Hm.
  etransitivity; [apply drop_zeros_length|]. now rewrite digits_fixed_length.
Qed.

Lemma number_bytes_string (n : Z) :
  - nMax < n < nMax ->
  c_string (number_bytes n) = decimal_string n /\
  len (number_bytes n) = Z.of_nat (String.length (decimal_string n)) + 1 /\
  Forall (fun b => 0 <= b < 256) (number_bytes n) /\
  (String.length (decimal_string n) <= 10)%nat.
Proof.
  intros Hn. unfold number_bytes, decimal_string.
  assert (0 <= Z.abs n < 10 ^ Z.of_nat 10) as Habs
    by (change (10 ^ Z.of_nat 10) with (10 * nMax); unfold nMax in *; lia).
  pose proof (digits_fixed_digits 10 (Z.abs n) Habs) as Hdig.
  pose proof (drop_zeros_digits _ Hdig) as Hdig'.
  pose proof (digits_of_small_length (Z.abs n) ltac:(lia)) as Hlen9.
  destruct n as [|p|p].
  - split; [reflexivity|]. split; [reflexivity|]. split; [|simpl; lia].
    repeat constructor; lia.
  - cbn [Z.ltb Z.compare Z.abs app Z.eqb] in *.
    pose proof (to_uint_digits 10 (Z.pos p) ltac:(lia)) as Hu.
    cbn [Z.to_N N.to_uint] in Hu. cbn [Z.to_int]. 
    cbn [DecimalString.NilEmpty.string_of_int]. rewrite <- Hu.
    rewrite c_string_digits, string_of_digits_length by assumption.
    split; [reflexivity|]. split; [|split].
    + unfold len, digit_bytes. rewrite length_app, length_map. simpl. lia.
    + apply Forall_app. split; [now apply digit_bytes_are_bytes|].
      repeat constructor; lia.
    + lia.
  - cbn [Z.ltb Z.compare Z.abs app Z.eqb] in *.
    pose proof (to_uint_digits 10 (Z.pos p) ltac:(lia)) as Hu.
    cbn [Z.to_N N.to_uint] in Hu. cbn [Z.to_int].
    cbn [DecimalString.NilEmpty.string_of_int]. rewrite <- Hu.
    cbn [c_string]. change (45 =? 0) with false. cbv iota.
    rewrite c_string_digits by assumption.
    cbn [String.length]. rewrite string_of_digits_length.
    split; [reflexivity|]. split; [|split].
    + unfold len, digit_bytes. cbn [length]. rewrite length_app, length_map. simpl. lia.
    + constructor; [lia|]. apply Forall_app. split; [now apply digit_bytes_are_bytes|].
      repeat constructor; lia.
    + lia.
Qed.

(** [NumToString] on a number of at most nine digits, by the size of
    the buffer. *)
Lemma NumToString_by_size (n StringMem : Z) :
  - nMax < n < nMax ->
  0 <= StringMem ->
  NumToString n StringMem =
    if StringMem <? Z.of_nat (String.length (decimal_string n)) + 1
    then String.EmptyString
    else decimal_string n.
Proof.
  intros Hn Hsize.
  destruct (number_bytes_string n Hn) as (Hstr & Hlen & Hbytes & _).
  rewrite <- Hlen, <- Hstr.
  assert (0 <= Z.abs n < 10 ^ Z.of_nat 10) as Habs
    by (change (10 ^ Z.of_nat 10) with (10 * nMax); unfold nMax in *; lia).
  unfold NumToString.
  change nMax with (Z.quot (10 ^ Z.of_nat 10) 10) at 2.
  assert (exists ob0 m, 
    (if n <? 0 then (UsefulOutBuf_AppendByte (UsefulOutBuf_Init StringMem) 45, - n)
     else (UsefulOutBuf_Init StringMem, n)) = (ob0, m) /\ m = Z.abs n /\
    ob0 = append_bytes (UsefulOutBuf_Init StringMem) (if n <? 0 then [45] else []))
    as (ob0 & m & -> & -> & ->).
  { destruct (Z.ltb_spec n 0); eexists; eexists; (split; [reflexivity|]);
      (split; [lia | reflexivity]). }
  destruct (Z.gtb_spec (Z.abs n) (nMax - 1)) as [Hbig|_]; [unfold nMax in *; lia|].
  destruct (NumToString_loop_digits 10 11 (Z.abs n)
              (append_bytes (UsefulOutBuf_Init StringMem) (if n <? 0 then [45] else []))
              ltac:(lia) Habs) as [r Hr].
  rewrite Hr. rewrite negb_involutive.
  set (ob := if Z.abs n =? 0 then _ else _).
  assert (UsefulOutBuf_AppendByte ob 0
          = append_bytes (UsefulOutBuf_Init StringMem) (number_bytes n)) as ->.
  { subst ob. unfold number_bytes. rewrite !append_bytes_app.
    destruct (Z.abs n =? 0); reflexivity. }
  destruct (append_bytes_room (number_bytes n) (UsefulOutBuf_Init StringMem))
    as [Herr Hdata]; [reflexivity | cbn; lia | assumption |].
  cbn [UsefulOutBuf_Init ob_size ob_data len length Z.of_nat Z.add] in Herr, Hdata.
  unfold UsefulOutBuf_GetError. rewrite Herr.
  destruct (Z.ltb_spec StringMem (len (number_bytes n))) as [|Hfits]; [reflexivity|].
  rewrite Hdata by assumption. reflexivity.
Qed.

Section NumToStringProperties.
Import String.
Local Open Scope string_scope.
Local Open Scope Z_scope.

(** X1.  For a number of at most nine digits and a buffer of eleven
    bytes or more, [NumToString] returns the number in decimal: the
    digits without zeros in front, "0" for zero, and a minus sign in
    front of a negative number. *)
Theorem NumToString_decimal (nNum StringMem : Z) :
  - nMax < nNum < nMax ->
  11 <= StringMem ->
  NumToString nNum StringMem = decimal_string nNum.
Proof.
  intros Hn Hsize. rewrite NumToString_by_size by lia.
  destruct (number_bytes_string nNum Hn) as (_ & _ & _ & Hlen).
  destruct (Z.ltb_spec StringMem (Z.of_nat (String.length (decimal_string nNum)) + 1));
    [lia | reflexivity].
Qed.

(** X2.  Reading back what [NumToString] wrote gives the number: the
    parser of the standard library finds in the string the number that
    was printed. *)
Theorem NumToString_round_trip (nNum StringMem : Z) :
  - nMax < nNum < nMax ->
  11 <= StringMem ->
  option_map Z.of_int (DecimalString.NilEmpty.int_of_string (NumToString nNum StringMem))
  = Some nNum.
Proof.
  intros Hn Hsize. rewrite NumToString_by_size by lia.
  destruct (number_bytes_string nNum Hn) as (_ & _ & _ & Hlen).
  destruct (Z.ltb_spec StringMem (Z.of_nat (String.length (decimal_string nNum)) + 1));
    [lia|].
  unfold decimal_string. rewrite DecimalString.NilEmpty.isi. cbn [option_map].
  now rewrite DecimalZ.of_to.
Qed.

(** X3.  A buffer that does not hold the sign, the digits and the NUL
    makes [NumToString] return the empty string, not a part of the
    number. *)
Theorem NumToString_small_buffer (nNum StringMem : Z) :
  - nMax < nNum < nMax ->
  0 <= StringMem <= Z.of_nat (String.length (decimal_string nNum)) ->
  NumToString nNum StringMem = "".
Proof.
  intros Hn Hsize. rewrite NumToString_by_size by lia.
  destruct (Z.ltb_spec StringMem (Z.of_nat (String.length (decimal_string nNum)) + 1));
    [reflexivity | lia].
Qed.

(** X4.  An [int32_t] of ten digits, positive or negative, is printed as
    "XXX", whatever the buffer. *)
Theorem NumToString_out_of_range (nNum StringMem : Z) :
  - 2 ^ 31 < nNum < 2 ^ 31 ->
  nNum <= - nMax \/ nMax <= nNum ->
  NumToString nNum StringMem = "XXX".
Proof.
  intros _ Hn. unfold NumToString.
  destruct (Z.ltb_spec nNum 0).
  - destruct (Z.gtb_spec (- nNum) (nMax - 1)); [reflexivity | unfold nMax in *; lia].
  - destruct (Z.gtb_spec nNum (nMax - 1)); [reflexivity | unfold nMax in *; lia].
Qed.

End NumToStringProperties.

(* ================================================================== *)
(** * The test runner runs the selected tests and reports them        *)
(* ================================================================== *)

Lemma string_append_assoc (a b c : String.string) :
  String.append (String.append a b) c = String.append a (String.append b c).
Proof. induction a as [|x a IH]; simpl; [reflexivity|now rewrite IH]. Qed.

Lemma string_append_nil_r (a : String.string) : String.append a String.EmptyString = a.
Proof. induction a as [|x a IH]; simpl; [reflexivity|now rewrite IH]. Qed.

Lemma len_cons {A : Type} (x : A) (l : list A) : len (x :: l) = 1 + len l.
Proof. unfold len. simpl length. lia. Qed.

Lemma tests_run_app (l1 l2 : list run_event) :
  tests_run (l1 ++ l2) = tests_run l1 ++ tests_run l2.
Proof. apply flat_map_app. Qed.

Lemma outputs_app (l1 l2 : list run_event) :
  outputs (l1 ++ l2) = outputs l1 ++ outputs l2.
Proof. apply flat_map_app. Qed.

(** The text of two runs of calls, one after the other. *)
Lemma lines_from_app (out1 out2 : list (String.string * Z)) :
  forall pending,
    lines_from pending (out1 ++ out2)
    = (fst (lines_from pending out1) ++
         fst (lines_from (snd (lines_from pending out1)) out2),
       snd (lines_from (snd (lines_from pending out1)) out2)).
Proof.
  induction out1 as [|[sz nl] out1 IH]; intros pending.
  - simpl. now destruct (lines_from pending out2).
  - cbn [lines_from app]. destruct (nl =? 0).
    + apply IH.
    + rewrite IH. destruct (lines_from String.EmptyString out1) as [l1 p1].
      simpl. now destruct (lines_from p1 out2).
Qed.

Section RunTestsProperties.
Import String.
Local Open Scope string_scope.
Local Open Scope Z_scope.

Context {W Ctx : Type}.

Lemma name_is_requested_In (szRequestedNames : list string) (name : string) :
  name_is_requested szRequestedNames name = true <-> In name szRequestedNames.
Proof.
  induction szRequestedNames as [|r rest IH]; simpl; [split; [discriminate|tauto]|].
  destruct (String.eqb_spec name r) as [->|Hne].
  - split; auto.
  - rewrite IH. split; [auto|]. intros [E|H]; [congruence|assumption].
Qed.

(** The test of the loop and [selected] agree. *)
Lemma skipped_selected (szTestNames : list string) (t : test_entry W) :
  match szTestNames with
  | _ :: _ => negb (name_is_requested szTestNames (szTestName t))
  | [] => negb (bEnabled t)
  end = negb (selected szTestNames t).
Proof.
  destruct szTestNames as [|n names]; [reflexivity|].
  unfold selected. f_equal.
  destruct (in_dec string_dec (szTestName t) (n :: names)) as [Hin|Hnot].
  - now apply name_is_requested_In.
  - destruct (name_is_requested (n :: names) (szTestName t)) eqn:E; [|reflexivity].
    apply name_is_requested_In in E. contradiction.
Qed.

(** What the loop does from an entry of the table on. *)
Lemma RunTests_loop_spec (t : list (test_entry W)) :
  forall (szTestNames : list string) (pfOutput : option (OutputStringCB W Ctx))
         (poutCtx : Ctx) (StringStorage nTestsFailed nTestsRun : Z) (st : run_state W),
  exists new : list (string * Z),
    let r := RunTests_loop t szTestNames pfOutput poutCtx StringStorage
               nTestsFailed nTestsRun st in
    tests_run (calls (snd r)) = (tests_run (calls st) ++ new)%list /\
    map fst new = map szTestName (filter (selected szTestNames) t) /\
    snd (fst r) = nTestsRun + len new /\
    fst (fst r) = nTestsFailed + len (filter test_failed new) /\
    outputs (calls (snd r))
    = (outputs (calls st) ++
       match pfOutput with
       | Some _ => flat_map (report_outputs StringStorage) new
       | None => []
       end)%list /\
    (pfOutput = None ->
     test_world (snd r) = run_selected (filter (selected szTestNames) t) (test_world st)).
Proof.
  induction t as [|t rest IH]; intros szTestNames pfOutput poutCtx StringStorage
                                      nTestsFailed nTestsRun st.
  - exists []. cbn. rewrite !app_nil_r. unfold len. cbn.
    repeat split; try lia. destruct pfOutput; now rewrite app_nil_r.
  - cbn [RunTests_loop filter]. rewrite skipped_selected.
    destruct (selected szTestNames t) eqn:Hsel; cbn [negb].
    + unfold call_test.
      destruct (test_fun t (test_world st)) as [nTestResult w] eqn:Hrun.
      set (st1 := {| test_world := w;
                     calls := (calls st ++ [Ev_test (szTestName t) nTestResult])%list |}).
      destruct (Z.eqb_spec nTestResult 0) as [Hzero|Hnonzero]; cbn [negb].
      * subst nTestResult.
        match goal with
        | |- context [RunTests_loop rest _ _ _ _ ?f ?r ?s] =>
            destruct (IH szTestNames pfOutput poutCtx StringStorage f r s)
              as (new & Hruns & Hnames & Hrun' & Hfailed & Houts & Hworld)
        end.
        exists ((szTestName t, 0) :: new).
        cbv zeta in *. rewrite Hruns, Hrun', Hfailed, Houts.
        rewrite !len_cons.
        cbn [filter test_failed snd fst map flat_map report_outputs].
        cbn [Z.eqb negb].
        split; [|split; [|split; [|split; [|split]]]].
        -- destruct pfOutput; subst st1; cbn [call_output calls];
             rewrite ?tests_run_app; cbn; rewrite <- ?app_assoc; reflexivity.
        -- now rewrite Hnames.
        -- lia.
        -- reflexivity.
        -- destruct pfOutput; subst st1; cbn [call_output calls];
             rewrite ?outputs_app; cbn; rewrite <- ?app_assoc; cbn;
             rewrite ?app_nil_r; reflexivity.
        -- intros ->. rewrite (Hworld eq_refl). subst st1; cbn [run_selected fold_left test_world].
           now rewrite Hrun.
      * match goal with
        | |- context [RunTests_loop rest _ _ _ _ ?f ?r ?s] =>
            destruct (IH szTestNames pfOutput poutCtx StringStorage f r s)
              as (new & Hruns & Hnames & Hrun' & Hfailed & Houts & Hworld)
        end.
        exists ((szTestName t, nTestResult) :: new).
        cbv zeta in *. rewrite Hruns, Hrun', Hfailed, Houts.
        rewrite !len_cons.
        cbn [filter test_failed snd fst map flat_map report_outputs].
        unfold test_failed at 2. unfold report_outputs at 2. cbn [fst snd].
        apply Z.eqb_neq in Hnonzero. rewrite Hnonzero. cbn [negb].
        rewrite !len_cons.
        split; [|split; [|split; [|split; [|split]]]].
        -- destruct pfOutput; subst st1; cbn [call_output calls];
             rewrite ?tests_run_app; cbn; rewrite <- ?app_assoc; reflexivity.
        -- now rewrite Hnames.
        -- lia.
        -- lia.
        -- destruct pfOutput; subst st1; cbn [call_output calls];
             rewrite ?outputs_app; cbn; rewrite <- ?app_assoc; cbn;
             rewrite ?app_nil_r; reflexivity.
        -- intros ->. rewrite (Hworld eq_refl). subst st1; cbn [run_selected fold_left test_world].
           now rewrite Hrun.
    + apply IH.
Qed.

Variable s_tests : list (test_entry W).

(** [RunTests] by what it leaves in the log. *)
Lemma RunTests_spec (szTestNames : list string)
    (pfOutput : option (OutputStringCB W Ctx)) (poutCtx : Ctx)
    (pNumTestsRun : option Z) (w : W) :
  let r := RunTests s_tests szTestNames pfOutput poutCtx pNumTestsRun w in
  let ran := tests_run (calls (snd r)) in
  map fst ran = map szTestName (filter (selected szTestNames) s_tests) /\
  fst (fst r) = len (filter test_failed ran) /\
  snd (fst r) = option_map (fun _ => len ran) pNumTestsRun /\
  outputs (calls (snd r))
  = match pfOutput with
    | Some _ =>
        (flat_map (report_outputs 12) ran ++
         summary_outputs (len ran) (len (filter test_failed ran)))%list
    | None => []
    end /\
  (pfOutput = None ->
   test_world (snd r) = run_selected (filter (selected szTestNames) s_tests) w).
Proof.
  unfold RunTests.
  destruct (RunTests_loop_spec s_tests szTestNames pfOutput poutCtx 12 0 0
              {| test_world := w; calls := [] |})
    as (new & Hruns & Hnames & Hrun & Hfailed & Houts & Hworld).
  destruct (RunTests_loop s_tests szTestNames pfOutput poutCtx 12 0 0
              {| test_world := w; calls := [] |}) as [[nTestsFailed nTestsRun] st].
  cbn [fst snd calls tests_run outputs flat_map app test_world] in *.
  subst nTestsFailed nTestsRun.
  assert (tests_run
            (calls
               match pfOutput with
               | Some pfOutput0 =>
                   call_output pfOutput0 " tests failed" poutCtx 1
                     (call_output pfOutput0
                        (NumToString (0 + len (filter test_failed new)) 12) poutCtx 0
                        (call_output pfOutput0 " tests run; " poutCtx 0
                           (call_output pfOutput0 (NumToString (0 + len new) 12)
                              poutCtx 0
                              (call_output pfOutput0 "SUMMARY: " poutCtx 0 st))))
               | None => st
               end) = new) as Hran.
  { destruct pfOutput; [|assumption].
    cbn [call_output calls]. rewrite !tests_run_app, Hruns. cbn.
    now rewrite !app_nil_r. }
  cbv zeta. rewrite Hran, !Z.add_0_l.
  split; [assumption|]. split; [reflexivity|].
  split; [now destruct pNumTestsRun|].
  split.
  - destruct pfOutput; [|assumption].
    cbn [call_output calls]. rewrite !outputs_app, Houts. cbn.
    rewrite <- !app_assoc. reflexivity.
  - intros ->. now apply Hworld.
Qed.

(** The buffer of twelve bytes of [RunTests] is large enough for every
    [int]. *)
Lemma NumToString_printed_number (n StringMem : Z) :
  - 2 ^ 31 < n < 2 ^ 31 ->
  11 <= StringMem ->
  NumToString n StringMem = printed_number n.
Proof.
  intros Hn Hsize. unfold printed_number.
  destruct (Z.ltb_spec (- nMax) n) as [Hlow|Hlow];
    [destruct (Z.ltb_spec n nMax) as [Hhigh|Hhigh]|]; cbn [andb].
  - rewrite NumToString_by_size by lia.
    destruct (number_bytes_string n ltac:(lia)) as (_ & _ & _ & Hlen).
    destruct (Z.ltb_spec StringMem (Z.of_nat (length (decimal_string n)) + 1));
      [lia | reflexivity].
  - unfold NumToString. destruct (Z.ltb_spec n 0); [unfold nMax in *; lia|].
    destruct (Z.gtb_spec n (nMax - 1)); [reflexivity | lia].
  - unfold NumToString. destruct (Z.ltb_spec n 0); [|unfold nMax in *; lia].
    destruct (Z.gtb_spec (- n) (nMax - 1)); [reflexivity | lia].
Qed.

(** The text of the calls that report the tests. *)
Lemma lines_from_report (ran : list (string * Z)) (rest : list (string * Z)) :
  Forall (fun r => - 2 ^ 31 < snd r < 2 ^ 31) ran ->
  lines_from "" (flat_map (report_outputs 12) ran ++ rest)
  = ((map report_line ran ++ fst (lines_from "" rest))%list,
     snd (lines_from "" rest)).
Proof.
  induction 1 as [|[name r] ran Hr Hran IH].
  - cbn. now destruct (lines_from "" rest).
  - cbn [flat_map]. unfold report_outputs at 1, report_line at 1. cbn [fst snd map].
    destruct (Z.eqb_spec r 0) as [->|Hnz].
    + cbn [app lines_from Z.eqb String.append]. rewrite IH. reflexivity.
    + cbn [app lines_from Z.eqb String.append]. rewrite IH.
      cbn [snd] in Hr. rewrite NumToString_printed_number by lia.
      rewrite !string_append_assoc. reflexivity.
Qed.

Lemma filter_length_le {A : Type} (f : A -> bool) (l : list A) :
  0 <= len (filter f l) <= len l.
Proof.
  unfold len. pose proof (List.filter_length_le f l). lia.
Qed.

(** X5.  When no test is named, [RunTests] runs the enabled tests of the
    table and no other, each once and in the order of the table,
    whatever the tests return and whether or not there is an output
    function. *)
Theorem RunTests_runs_enabled_tests
    (pfOutput : option (OutputStringCB W Ctx)) (poutCtx : Ctx)
    (pNumTestsRun : option Z) (w : W) :
  map fst (tests_run (calls (snd (RunTests s_tests [] pfOutput poutCtx pNumTestsRun w))))
  = map szTestName (filter bEnabled s_tests).
Proof.
  destruct (RunTests_spec [] pfOutput poutCtx pNumTestsRun w) as (Hran & _).
  exact Hran.
Qed.

(** X6.  When tests are named, [RunTests] runs the entries of the table
    whose name is among the names, enabled or not, each once and in the
    order of the table; a name that is given twice or that no entry has
    changes nothing. *)
Theorem RunTests_runs_named_tests (szTestNames : list string)
    (pfOutput : option (OutputStringCB W Ctx)) (poutCtx : Ctx)
    (pNumTestsRun : option Z) (w : W) :
  szTestNames <> [] ->
  map fst (tests_run (calls (snd (RunTests s_tests szTestNames pfOutput poutCtx
                                    pNumTestsRun w))))
  = map szTestName
      (filter (fun t => if in_dec string_dec (szTestName t) szTestNames
                        then true else false) s_tests).
Proof.
  intros Hnames.
  destruct (RunTests_spec szTestNames pfOutput poutCtx pNumTestsRun w) as (Hran & _).
  cbv zeta in Hran. rewrite Hran.
  destruct szTestNames; [contradiction | reflexivity].
Qed.

(** X7.  [RunTests] returns the number of the tests it ran that returned
    something else than zero, and stores the number of the tests it ran
    where [pNumTestsRun] points to; both are at most the length of the
    table, and the result is zero exactly when every test that was run
    returned zero. *)
Theorem RunTests_counts (szTestNames : list string)
    (pfOutput : option (OutputStringCB W Ctx)) (poutCtx : Ctx)
    (pNumTestsRun : option Z) (w : W) :
  let r := RunTests s_tests szTestNames pfOutput poutCtx pNumTestsRun w in
  let ran := tests_run (calls (snd r)) in
  fst (fst r) = len (filter test_failed ran) /\
  snd (fst r) = option_map (fun _ => len ran) pNumTestsRun /\
  0 <= fst (fst r) <= len ran /\
  len ran <= len s_tests /\
  (fst (fst r) = 0 <-> Forall (fun t => snd t = 0) ran).
Proof.
  destruct (RunTests_spec szTestNames pfOutput poutCtx pNumTestsRun w)
    as (Hran & Hfailed & Hrun & _).
  cbv zeta in *. rewrite Hfailed.
  split; [reflexivity|]. split; [assumption|].
  split; [apply filter_length_le|]. split.
  - apply (f_equal (@List.length _)) in Hran. rewrite !length_map in Hran.
    unfold len. rewrite Hran. apply inj_le. apply List.filter_length_le.
  - set (ran := tests_run _). clearbody ran. clear.
    induction ran as [|[name r] ran IH]; [split; [constructor | reflexivity]|].
    cbn [filter]. unfold test_failed at 1. cbn [snd].
    pose proof (filter_length_le test_failed ran) as Hle.
    destruct (Z.eqb_spec r 0) as [->|Hnz]; cbn [negb].
    + rewrite IH. split; [now constructor | now inversion 1].
    + rewrite len_cons. split; [lia|]. inversion 1; subst. contradiction.
Qed.

(** X8.  Without an output function [RunTests] makes no output, and the
    world it leaves is the one left by the tests it ran, one after the
    other. *)
Theorem RunTests_without_output (szTestNames : list string) (poutCtx : Ctx)
    (pNumTestsRun : option Z) (w : W) :
  let r := RunTests s_tests szTestNames None poutCtx pNumTestsRun w in
  outputs (calls (snd r)) = [] /\
  test_world (snd r) = run_selected (filter (selected szTestNames) s_tests) w.
Proof.
  destruct (RunTests_spec szTestNames None poutCtx pNumTestsRun w)
    as (_ & _ & _ & Houts & Hworld).
  split; [exact Houts | now apply Hworld].
Qed.

(** X9.  With an output function, and as long as the tests return
    [int]s other than INT_MIN, the text that [RunTests] writes is one
    line for every test it ran, in the order they ran - the name and
    " PASSED", or the name and " FAILED (returned " with the number the
    test returned in decimal, or XXX for a number of ten digits - and
    the line "SUMMARY: " with the number of the tests run and the
    number of those that failed, both in decimal. *)
Theorem RunTests_report (szTestNames : list string)
    (pfOutput : OutputStringCB W Ctx) (poutCtx : Ctx)
    (pNumTestsRun : option Z) (w : W) :
  let r := RunTests s_tests szTestNames (Some pfOutput) poutCtx pNumTestsRun w in
  let ran := tests_run (calls (snd r)) in
  len s_tests < nMax ->
  Forall (fun t => - 2 ^ 31 < snd t < 2 ^ 31) ran ->
  output_text (calls (snd r))
  = (app (map report_line ran) [summary_line (len ran) (fst (fst r))], "").
Proof.
  intros r ran Htable Hints. subst r ran.
  destruct (RunTests_spec szTestNames (Some pfOutput) poutCtx pNumTestsRun w)
    as (Hran & Hfailed & _ & Houts & _).
  cbv zeta in *.
  unfold output_text. rewrite Houts, Hfailed.
  set (ran := tests_run _) in *. clearbody ran.
  rewrite lines_from_report by assumption.
  assert (0 <= len (filter test_failed ran) <= len ran) as Hf
    by apply filter_length_le.
  assert (len ran <= len s_tests) as Hle.
  { apply (f_equal (@List.length _)) in Hran. rewrite !length_map in Hran.
    unfold len. rewrite Hran. apply inj_le. apply List.filter_length_le. }
  unfold summary_outputs, summary_line.
  rewrite !NumToString_printed_number by (unfold nMax in *; lia).
  unfold printed_number.
  destruct (Z.ltb_spec (- nMax) (len ran)); [|unfold nMax in *; lia].
  destruct (Z.ltb_spec (len ran) nMax); [|lia].
  destruct (Z.ltb_spec (- nMax) (len (filter test_failed ran)));
    [|unfold nMax in *; lia].
  destruct (Z.ltb_spec (len (filter test_failed ran)) nMax); [|lia].
  cbn [andb lines_from Z.eqb fst snd String.append].
  rewrite !string_append_assoc. reflexivity.
Qed.

(** What [PrintSize] adds to the text. *)
Lemma PrintSize_text (szWhat : string) (uSize : Z)
    (pfOutput : OutputStringCB W Ctx) (pOutCtx : Ctx) (st : run_state W) :
  0 <= uSize < 2 ^ 31 ->
  output_text (calls (PrintSize szWhat uSize pfOutput pOutCtx st))
  = (app (fst (output_text (calls st)))
         [snd (output_text (calls st)) ++ szWhat ++ " " ++ printed_number uSize],
     "") /\
  tests_run (calls (PrintSize szWhat uSize pfOutput pOutCtx st)) = tests_run (calls st).
Proof.
  intros Hsize. unfold PrintSize, output_text.
  cbn [call_output calls].
  rewrite !outputs_app, !tests_run_app. cbn [outputs tests_run flat_map app].
  rewrite !app_nil_r. split; [|reflexivity].
  rewrite <- !app_assoc. cbn [app].
  rewrite lines_from_app. cbn [lines_from Z.eqb fst snd].
  unfold int32_of_uint32. destruct (Z.ltb_spec uSize (2 ^ 31)); [|lia].
  rewrite NumToString_printed_number by lia.
  rewrite !string_append_assoc, string_append_nil_r. reflexivity.
Qed.

(** X11.  [PrintSize] ends the line that is being written with the
    label, a blank and the size in decimal, or XXX for a size of ten
    digits; it runs no test. *)
Theorem PrintSize_line (szWhat : string) (uSize : Z)
    (pfOutput : OutputStringCB W Ctx) (pOutCtx : Ctx) (st : run_state W) :
  0 <= uSize < 2 ^ 31 ->
  let st' := PrintSize szWhat uSize pfOutput pOutCtx st in
  output_text (calls st')
  = (app (fst (output_text (calls st)))
         [snd (output_text (calls st)) ++ szWhat ++ " " ++ printed_number uSize],
     "") /\
  tests_run (calls st') = tests_run (calls st).
Proof. intros Hsize. now apply PrintSize_text. Qed.

(** X12.  [PrintSizes] writes three lines, one for each structure with
    its label and its size, and an empty line. *)
Theorem PrintSizes_text
    (sizeof_t_cose_sign1_sign_ctx sizeof_t_cose_key sizeof_t_cose_crypto_hash : Z)
    (pfOutput : OutputStringCB W Ctx) (pOutCtx : Ctx) (st : run_state W) :
  0 <= sizeof_t_cose_sign1_sign_ctx < 2 ^ 31 ->
  0 <= sizeof_t_cose_key < 2 ^ 31 ->
  0 <= sizeof_t_cose_crypto_hash < 2 ^ 31 ->
  output_text (calls (PrintSizes sizeof_t_cose_sign1_sign_ctx sizeof_t_cose_key
                        sizeof_t_cose_crypto_hash pfOutput pOutCtx st))
  = (app (fst (output_text (calls st)))
         [snd (output_text (calls st)) ++ "sizeof(struct t_cose_sign1_ctx) " ++
            printed_number sizeof_t_cose_sign1_sign_ctx;
          "sizeof(struct t_cose_signing_key) " ++ printed_number sizeof_t_cose_key;
          "sizeof(struct t_cose_crypto_hash) " ++
            printed_number sizeof_t_cose_crypto_hash;
          ""],
     "").
Proof.
  intros H1 H2 H3. unfold PrintSizes.
  rewrite !Z.mod_small by lia.
  set (st1 := PrintSize "sizeof(struct t_cose_sign1_ctx)" _ _ _ st).
  set (st2 := PrintSize "sizeof(struct t_cose_signing_key)" _ _ _ st1).
  set (st3 := PrintSize "sizeof(struct t_cose_crypto_hash)" _ _ _ st2).
  destruct (PrintSize_text "sizeof(struct t_cose_sign1_ctx)"
              sizeof_t_cose_sign1_sign_ctx pfOutput pOutCtx st H1) as [T1 _].
  destruct (PrintSize_text "sizeof(struct t_cose_signing_key)"
              sizeof_t_cose_key pfOutput pOutCtx st1 H2) as [T2 _].
  destruct (PrintSize_text "sizeof(struct t_cose_crypto_hash)"
              sizeof_t_cose_crypto_hash pfOutput pOutCtx st2 H3) as [T3 _].
  fold st1 in T1. fold st2 in T2. fold st3 in T3.
  unfold output_text in *. cbn [call_output calls].
  rewrite outputs_app, lines_from_app, T3, T2, T1.
  cbn [fst snd outputs flat_map app lines_from Z.eqb String.append].
  rewrite <- !app_assoc. reflexivity.
Qed.

End RunTestsProperties.

Section RunTestsOfFile.
Import String.
Local Open Scope string_scope.
Local Open Scope Z_scope.

Context {W Ctx : Type}.
Variables T_COSE_DISABLE_SIGN_VERIFY_TESTS T_COSE_ENABLE_HASH_FAIL_TEST : bool.
Variables sign_verify_basic_test sign_verify_make_cwt_test sign_verify_sig_fail_test
  : test_fun_t W.
Variables sign1_structure_decode_test content_type_test all_headers_test
  cose_example_test critical_headers_test bad_headers_test
  short_circuit_no_parse_test short_circuit_make_cwt_test
  short_circuit_signing_error_conditions_test short_circuit_verify_fail_test
  short_circuit_self_test short_circuit_hash_fail_test : test_fun_t W.

Local Abbreviation s_tests :=
  (s_tests_of_file W T_COSE_DISABLE_SIGN_VERIFY_TESTS T_COSE_ENABLE_HASH_FAIL_TEST
     sign_verify_basic_test sign_verify_make_cwt_test sign_verify_sig_fail_test
     sign1_structure_decode_test content_type_test all_headers_test
     cose_example_test critical_headers_test bad_headers_test
     short_circuit_no_parse_test short_circuit_make_cwt_test
     short_circuit_signing_error_conditions_test short_circuit_verify_fail_test
     short_circuit_self_test short_circuit_hash_fail_test).

(** X10.  With the table of run_tests.c, in each of its configurations,
    naming one test of the table runs that test and no other; and with
    no test named, every test of the table is run, since none is
    disabled. *)
Theorem RunTests_of_file (name : string)
    (pfOutput : option (OutputStringCB W Ctx)) (poutCtx : Ctx)
    (pNumTestsRun : option Z) (w : W) :
  In name (map szTestName s_tests) ->
  map fst (tests_run (calls (snd (RunTests s_tests [name] pfOutput poutCtx
                                    pNumTestsRun w))))
  = [name] /\
  map fst (tests_run (calls (snd (RunTests s_tests [] pfOutput poutCtx
                                    pNumTestsRun w))))
  = map szTestName s_tests.
Proof.
  intros Hname.
  destruct (RunTests_spec s_tests [name] pfOutput poutCtx pNumTestsRun w) as (H1 & _).
  destruct (RunTests_spec s_tests [] pfOutput poutCtx pNumTestsRun w) as (H2 & _).
  cbv zeta in H1, H2. rewrite H1, H2. clear H1 H2.
  split.
  - destruct T_COSE_DISABLE_SIGN_VERIFY_TESTS, T_COSE_ENABLE_HASH_FAIL_TEST;
      cbn [s_tests_of_file app map szTestName TEST_ENTRY In] in Hname;
      repeat (destruct Hname as [<-|Hname]; [vm_compute; reflexivity|]);
      contradiction.
  - destruct T_COSE_DISABLE_SIGN_VERIFY_TESTS, T_COSE_ENABLE_HASH_FAIL_TEST;
      reflexivity.
Qed.

End RunTestsOfFile.

(* ================================================================== *)
(** * More on the short-circuit verifier                               *)
(* ================================================================== *)

Section VerifyShortMore.
Context `{I : Imports}.

Variable me_x : struct_t_cose_signature_verify_short.
Variable option_flags : Z.
Variables protected_body_headers protected_signature_headers : q_useful_buf_c.
Variables payload aad signature : q_useful_buf_c.
Variable body_parameters : list t_cose_parameter.

Local Abbreviation alg := (t_cose_find_parameter_alg_id body_parameters).
Local Abbreviation kid := (t_cose_find_parameter_kid body_parameters).
Local Abbreviation verify1 :=
  (t_cose_signature_verify1_short me_x option_flags protected_body_headers
     protected_signature_headers payload aad body_parameters signature).

(** X13.  When the hash of the to-be-signed bytes cannot be made, the
    verify1 callback returns the error of [create_tbs_hash] as it is,
    and [t_cose_crypto_verify] is not called: the hash is the last call
    in the log. *)
Theorem verify1_short_hash_error_wins (w : world QCBORDecodeContext)
    (return_value : t_cose_err_t) (tbs_hash : q_useful_buf_c) :
  t_cose_algorithm_is_short_circuit alg = true ->
  ub_bytes kid = ub_bytes get_short_circuit_kid ->
  flag_is_set option_flags T_COSE_OPT_DECODE_ONLY = false ->
  create_tbs_hash alg protected_body_headers protected_signature_headers
    aad payload T_COSE_CRYPTO_MAX_HASH_SIZE = (return_value, tbs_hash) ->
  return_value <> T_COSE_SUCCESS ->
  verify1 w =
    (return_value,
     {| codec := codec w;
        log := log w ++
          [Ev_find_parameter_alg_id; Ev_find_parameter_kid; Ev_kid_compare kid;
           Ev_create_tbs_hash alg protected_body_headers
             protected_signature_headers aad payload] |}).
Proof.
  intros Halg Hkid Hflag Hhash Herr.
  apply q_useful_buf_compare_zero_iff in Hkid.
  apply is_error_true_iff in Herr.
  unfold t_cose_signature_verify1_short, bind, call, ret; simpl.
  rewrite Halg; simpl. rewrite Hkid; simpl.
  rewrite Hflag. rewrite Hhash; simpl. rewrite Herr.
  now rewrite <- !app_assoc.
Qed.

(** What a success of the verify1 callback stands for. *)
Lemma verify1_short_success (w : world QCBORDecodeContext) :
  fst (verify1 w) = T_COSE_SUCCESS ->
  t_cose_algorithm_is_short_circuit alg = true /\
  ub_bytes kid = ub_bytes get_short_circuit_kid /\
  (flag_is_set option_flags T_COSE_OPT_DECODE_ONLY = true \/
   exists tbs_hash,
     create_tbs_hash alg protected_body_headers protected_signature_headers
       aad payload T_COSE_CRYPTO_MAX_HASH_SIZE = (T_COSE_SUCCESS, tbs_hash) /\
     ub_bytes signature = ub_bytes tbs_hash).
Proof.
  unfold t_cose_signature_verify1_short, bind, call, ret; simpl.
  destruct (t_cose_algorithm_is_short_circuit alg) eqn:Halg; simpl; [|discriminate].
  destruct (Z.eqb_spec (q_useful_buf_compare kid get_short_circuit_kid) 0) as [Hkid|Hkid];
    simpl; [|discriminate].
  apply q_useful_buf_compare_zero_iff in Hkid.
  destruct (flag_is_set option_flags T_COSE_OPT_DECODE_ONLY) eqn:Hflag; simpl;
    [intros _; auto|].
  destruct (create_tbs_hash _ _ _ _ _ _) as [rv tbs_hash] eqn:Hhash; simpl.
  destruct (is_error rv) eqn:Herr; simpl.
  - intros ->. discriminate.
  - apply is_error_false_iff in Herr. subst rv.
    unfold t_cose_crypto_verify. rewrite Halg.
    destruct (Z.eqb_spec (q_useful_buf_compare signature tbs_hash) 0) as [E|E];
      [|discriminate].
    apply q_useful_buf_compare_zero_iff in E.
    intros _. split; [reflexivity|]. split; [assumption|]. right.
    exists tbs_hash. split; [reflexivity | assumption].
Qed.

(** X14.  The verify1 callback never accepts a message on other grounds
    than these: the algorithm of the body parameters is a short-circuit
    one, the kid is the short-circuit kid, and unless
    T_COSE_OPT_DECODE_ONLY is set the hash of the to-be-signed bytes was
    made and the signature is that hash, byte for byte. *)
Theorem verify1_short_accepts_only_short_circuit (w : world QCBORDecodeContext) :
  fst (verify1 w) = T_COSE_SUCCESS ->
  t_cose_algorithm_is_short_circuit alg = true /\
  ub_bytes kid = ub_bytes get_short_circuit_kid /\
  (flag_is_set option_flags T_COSE_OPT_DECODE_ONLY = true \/
   exists tbs_hash,
     create_tbs_hash alg protected_body_headers protected_signature_headers
       aad payload T_COSE_CRYPTO_MAX_HASH_SIZE = (T_COSE_SUCCESS, tbs_hash) /\
     ub_bytes signature = ub_bytes tbs_hash).
Proof. apply verify1_short_success. Qed.

(** With T_COSE_OPT_DECODE_ONLY the verify1 callback logs no
    verification. *)
Lemma verify1_short_decode_only_log (w : world QCBORDecodeContext) :
  flag_is_set option_flags T_COSE_OPT_DECODE_ONLY = true ->
  exists l,
    snd (verify1 w) = {| codec := codec w; log := log w ++ l |} /\
    forallb (fun e => negb (is_verification_event e)) l = true.
Proof.
  intros Hflag.
  unfold t_cose_signature_verify1_short, bind, call, ret; simpl.
  destruct (t_cose_algorithm_is_short_circuit alg); simpl.
  - destruct (q_useful_buf_compare kid get_short_circuit_kid =? 0); simpl.
    + rewrite Hflag; simpl. eexists. rewrite <- !app_assoc. split; reflexivity.
    + eexists. rewrite <- !app_assoc. split; reflexivity.
  - eexists. split; reflexivity.
Qed.

End VerifyShortMore.

Section VerifyCallbackMore.
Context `{I : Imports}.

Variable me_x : struct_t_cose_signature_verify_short.
Variable option_flags : Z.
Variable loc : t_cose_header_location.
Variables protected_body_headers payload aad : q_useful_buf_c.
Variable params : t_cose_parameter_storage.
Variable decoded_parameters : list t_cose_parameter.

Local Abbreviation verify :=
  (t_cose_signature_verify_short me_x option_flags loc protected_body_headers
     payload aad params decoded_parameters).

(** X15.  With T_COSE_OPT_DECODE_ONLY set, the verify callback decodes
    the COSE_Signature and checks its headers, and on no path does it
    make the hash of the to-be-signed bytes or check the signature. *)
Theorem verify_short_decode_only_never_verifies (w : world QCBORDecodeContext) :
  flag_is_set option_flags T_COSE_OPT_DECODE_ONLY = true ->
  exists l,
    log (snd (verify w)) = log w ++ l /\
    forallb (fun e => negb (is_verification_event e)) l = true.
Proof.
  intros Hflag.
  unfold t_cose_signature_verify_short, bind, on_codec, call, ret; simpl.
  destruct (t_cose_headers_decode _ _ _ _ _ _) as [[[[e d1] params'] decoded'] prot].
  simpl. destruct (is_error e); simpl.
  - eexists. rewrite <- !app_assoc. split; reflexivity.
  - destruct (QCBORDecode_GetByteString d1) as [d2 sig]. simpl.
    destruct (QCBORDecode_GetError (QCBORDecode_ExitArray d2) =? QCBOR_SUCCESS); simpl.
    + match goal with
      | |- context [t_cose_signature_verify1_short ?a ?b ?c ?d ?e ?f ?g ?h ?x] =>
          destruct (verify1_short_decode_only_log a b c d e f h g x Hflag)
            as (l & Hl & Hno);
          destruct (t_cose_signature_verify1_short a b c d e f g h x) as [r wr]
      end.
      simpl in *. subst wr. simpl.
      eexists. rewrite <- !app_assoc. split; [reflexivity|].
      simpl. exact Hno.
    + eexists. rewrite <- !app_assoc. split; reflexivity.
Qed.

(** X16.  Given that the conversion of a decoder error never gives
    success, the verify callback accepts a COSE_Signature only if its
    headers decoded, the array with the byte string of the signature
    was read without a decoder error, and the verify1 callback accepted
    the decoded parameters; the parameters handed back are the decoded
    ones. *)
Theorem verify_short_accepts_only_decoded (w : world QCBORDecodeContext) :
  (forall e, e <> QCBOR_SUCCESS ->
             qcbor_decode_error_to_t_cose_error e T_COSE_ERR_SIGN1_FORMAT
             <> T_COSE_SUCCESS) ->
  fst (fst (fst (verify w))) = T_COSE_SUCCESS ->
  exists d1 params' decoded' protected_parameters,
    t_cose_headers_decode (QCBORDecode_EnterArray (codec w)) loc
      (reader me_x) (reader_ctx me_x) params decoded_parameters
    = (T_COSE_SUCCESS, d1, params', decoded', protected_parameters) /\
    QCBORDecode_GetError (QCBORDecode_ExitArray (fst (QCBORDecode_GetByteString d1)))
    = QCBOR_SUCCESS /\
    fst (verify w) = (T_COSE_SUCCESS, params', decoded') /\
    t_cose_algorithm_is_short_circuit (t_cose_find_parameter_alg_id decoded') = true /\
    ub_bytes (t_cose_find_parameter_kid decoded') = ub_bytes get_short_circuit_kid.
Proof.
  intros Hconv.
  unfold t_cose_signature_verify_short, bind, on_codec, call, ret; simpl.
  destruct (t_cose_headers_decode _ _ _ _ _ _) as [[[[e d1] params'] decoded'] prot].
  simpl. destruct (is_error e) eqn:He; simpl.
  - intros ->. discriminate.
  - apply is_error_false_iff in He. subst e.
    destruct (QCBORDecode_GetByteString d1) as [d2 sig] eqn:Hget. simpl.
    destruct (Z.eqb_spec (QCBORDecode_GetError (QCBORDecode_ExitArray d2)) QCBOR_SUCCESS)
      as [Herr|Herr]; simpl.
    + match goal with
      | |- context [t_cose_signature_verify1_short ?a ?b ?c ?d ?e ?f ?g ?h ?x] =>
          pose proof (verify1_short_success a b c d e f h g x) as Hv1;
          destruct (t_cose_signature_verify1_short a b c d e f g h x) as [r wr]
      end.
      simpl in *. intros ->. destruct (Hv1 eq_refl) as (Halg & Hkid & _).
      exists d1, params', decoded', prot. rewrite Hget.
      repeat split; assumption.
    + intros Hs. exfalso. exact (Hconv _ Herr Hs).
Qed.

End VerifyCallbackMore.

(* ================================================================== *)
(** * Examples for the test runner and for the verifier                *)
(* ================================================================== *)

Section RunTestsWitnesses.
Import String.
Local Open Scope string_scope.
Local Open Scope Z_scope.

(** A negative number of seven digits in the buffer of [RunTests]. *)
Lemma NumToString_decimal_witness :
  NumToString (-1002003) 12 = "-1002003".
Proof.
  rewrite (NumToString_decimal (-1002003) 12) by (unfold nMax; lia).
  reflexivity.
Defined.

(** Three digits and the NUL do not fit three bytes. *)
Lemma NumToString_small_buffer_witness :
  NumToString 120 3 = "" /\ NumToString 120 4 <> "".
Proof.
  split.
  - apply (NumToString_small_buffer 120 3); [unfold nMax; lia|].
    change (Z.of_nat (length (decimal_string 120))) with 3. lia.
  - vm_compute. discriminate.
Defined.

(** The first number of ten digits, with a minus sign, and the largest
    [int32_t]. *)
Lemma NumToString_out_of_range_witness :
  NumToString (-1000000000) 12 = "XXX" /\ NumToString 2147483647 12 = "XXX".
Proof.
  split.
  - apply (NumToString_out_of_range (-1000000000) 12); [lia | unfold nMax; lia].
  - apply (NumToString_out_of_range 2147483647 12); [lia | unfold nMax; lia].
Defined.

(** The disabled test is run when it is named; the order is that of the
    table, and the name that is given twice and the one that no test has
    change nothing. *)
Lemma RunTests_runs_named_tests_witness :
  map fst (tests_run (calls (snd
    (RunTests example_tests ["third_test"; "first_test"; "no_such_test"; "first_test"]
       (Some example_output) tt None 0))))
  = ["first_test"; "third_test"].
Proof.
  rewrite (RunTests_runs_named_tests example_tests
             ["third_test"; "first_test"; "no_such_test"; "first_test"]
             (Some example_output) tt None 0) by discriminate.
  vm_compute. reflexivity.
Defined.

(** The report of the two enabled tests, and of the third one when it is
    named. *)
Lemma RunTests_report_witness :
  output_text (calls (snd (RunTests example_tests [] (Some example_output) tt None 0)))
  = (["first_test PASSED"; "second_test FAILED (returned 3)";
      "SUMMARY: 2 tests run; 1 tests failed"], "") /\
  output_text (calls (snd (RunTests example_tests ["third_test"] (Some example_output)
                             tt None 0)))
  = (["third_test FAILED (returned XXX)"; "SUMMARY: 1 tests run; 1 tests failed"], "").
Proof.
  split.
  - rewrite (RunTests_report example_tests [] example_output tt None 0).
    + vm_compute. reflexivity.
    + vm_compute. reflexivity.
    + repeat constructor.
  - rewrite (RunTests_report example_tests ["third_test"] example_output tt None 0).
    + vm_compute. reflexivity.
    + vm_compute. reflexivity.
    + repeat constructor.
Defined.

(** A size of three digits on a line of its own. *)
Lemma PrintSize_line_witness :
  output_text (calls (PrintSize "sizeof(struct t_cose_key)" 152 example_output tt
                        {| test_world := 0; calls := [] |}))
  = (["sizeof(struct t_cose_key) 152"], "").
Proof.
  destruct (PrintSize_line "sizeof(struct t_cose_key)" 152 example_output tt
              {| test_world := 0; calls := [] |}) as [Htext _]; [lia|].
  rewrite Htext. reflexivity.
Defined.

Lemma PrintSizes_text_witness :
  output_text (calls (PrintSizes 152 16 112 example_output tt
                        {| test_world := 0; calls := [] |}))
  = (["sizeof(struct t_cose_sign1_ctx) 152"; "sizeof(struct t_cose_signing_key) 16";
      "sizeof(struct t_cose_crypto_hash) 112"; ""], "").
Proof.
  rewrite (PrintSizes_text 152 16 112 example_output tt
             {| test_world := 0; calls := [] |}) by lia.
  reflexivity.
Defined.

(** The parser reads -40 back. *)
Lemma NumToString_round_trip_witness :
  option_map Z.of_int (DecimalString.NilEmpty.int_of_string (NumToString (-40) 12))
  = Some (-40).
Proof.
  apply (NumToString_round_trip (-40) 12); [unfold nMax; lia | lia].
Defined.

(** Over the table of the Makefile's configuration, with tests that all
    pass: naming [content_type_test] runs it alone. *)
Lemma RunTests_of_file_witness :
  map fst (tests_run (calls (snd
    (RunTests
       (s_tests_of_file Z true true
          (fun w => (0, w)) (fun w => (0, w)) (fun w => (0, w)) (fun w => (0, w))
          (fun w => (0, w)) (fun w => (0, w)) (fun w => (0, w)) (fun w => (0, w))
          (fun w => (0, w)) (fun w => (0, w)) (fun w => (0, w)) (fun w => (0, w))
          (fun w => (0, w)) (fun w => (0, w)) (fun w => (0, w)))
       ["content_type_test"] (Some example_output) tt None 0))))
  = ["content_type_test"].
Proof.
  apply (RunTests_of_file (Ctx := unit) true true
           (fun w => (0, w)) (fun w => (0, w)) (fun w => (0, w)) (fun w => (0, w))
           (fun w => (0, w)) (fun w => (0, w)) (fun w => (0, w)) (fun w => (0, w))
           (fun w => (0, w)) (fun w => (0, w)) (fun w => (0, w)) (fun w => (0, w))
           (fun w => (0, w)) (fun w => (0, w)) (fun w => (0, w))
           "content_type_test" (Some example_output) tt None 0).
  cbn. tauto.
Defined.

End RunTestsWitnesses.

(** The hash fails: its error is the result, and the log ends with the
    hash. *)
Lemma verify1_short_hash_error_wins_witness :
  t_cose_signature_verify1_short hash_fail_verifier_context 0
    example_protected NULL_Q_USEFUL_BUF_C (UsefulBufC payload) (UsefulBufC [])
    example_parameters example_tbs_hash example_world
  = (T_COSE_ERR_UNSUPPORTED_SIGNING_ALG,
     {| codec := codec example_world;
        log := [Ev_find_parameter_alg_id; Ev_find_parameter_kid;
                Ev_kid_compare example_short_circuit_kid;
                Ev_create_tbs_hash T_COSE_ALGORITHM_SHORT_CIRCUIT_256 example_protected
                  NULL_Q_USEFUL_BUF_C (UsefulBufC []) (UsefulBufC payload)] |}).
Proof.
  apply (verify1_short_hash_error_wins hash_fail_verifier_context 0
           example_protected NULL_Q_USEFUL_BUF_C (UsefulBufC payload) (UsefulBufC [])
           example_tbs_hash example_parameters example_world
           T_COSE_ERR_UNSUPPORTED_SIGNING_ALG NULL_Q_USEFUL_BUF_C
           eq_refl eq_refl eq_refl eq_refl).
  discriminate.
Defined.

(** The message of the examples is accepted, so its algorithm is the
    short-circuit one and its kid the short-circuit kid. *)
Lemma verify1_short_accepts_only_short_circuit_witness :
  t_cose_algorithm_is_short_circuit
    (spec_find_parameter_alg_id example_parameters) = true /\
  ub_bytes (spec_find_parameter_kid example_parameters)
  = ub_bytes example_short_circuit_kid.
Proof.
  pose proof
    (verify1_short_accepts_only_short_circuit example_verifier_context 0
       example_protected NULL_Q_USEFUL_BUF_C (UsefulBufC payload) (UsefulBufC [])
       example_tbs_hash example_parameters example_world) as H.
  by_evaluation H.
  destruct H as (Halg & Hkid & _). split; [exact Halg | exact Hkid].
Defined.

(** With T_COSE_OPT_DECODE_ONLY the first COSE_Signature of the examples
    is decoded and nothing is hashed or verified. *)
Lemma verify_short_decode_only_never_verifies_witness :
  exists l,
    log (snd
      (t_cose_signature_verify_short example_verifier_context 8
         {| nesting := 1; index := 0 |} example_body_protected (UsefulBufC payload)
         (UsefulBufC []) example_storage [] example_signatures_world))
    = log example_signatures_world ++ l /\
    forallb (fun e => negb (is_verification_event e)) l = true.
Proof.
  apply (verify_short_decode_only_never_verifies example_verifier_context 8
           {| nesting := 1; index := 0 |} example_body_protected (UsefulBufC payload)
           (UsefulBufC []) example_storage [] example_signatures_world).
  reflexivity.
Defined.

(** The first COSE_Signature of the examples is accepted: what comes
    back are the decoded parameters, with a short-circuit algorithm. *)
Lemma verify_short_accepts_only_decoded_witness :
  exists (d1 : tree_decoder) (params' : t_cose_parameter_storage)
         (decoded' : list t_cose_parameter) (protected_parameters : q_useful_buf_c),
    fst (t_cose_signature_verify_short example_verifier_context 0
           {| nesting := 1; index := 0 |} example_body_protected (UsefulBufC payload)
           (UsefulBufC []) example_storage [] example_signatures_world)
    = (T_COSE_SUCCESS, params', decoded') /\
    t_cose_algorithm_is_short_circuit (spec_find_parameter_alg_id decoded') = true.
Proof.
  pose proof
    (verify_short_accepts_only_decoded example_verifier_context 0
       {| nesting := 1; index := 0 |} example_body_protected (UsefulBufC payload)
       (UsefulBufC []) example_storage [] example_signatures_world) as H.
  assert (Hconv : forall e, e <> QCBOR_SUCCESS ->
            spec_qcbor_decode_error_to_t_cose_error e T_COSE_ERR_SIGN1_FORMAT
            <> T_COSE_SUCCESS).
  { intros e He. unfold spec_qcbor_decode_error_to_t_cose_error.
    destruct (Z.eqb_spec e QCBOR_SUCCESS); [contradiction|].
    destruct (QCBORDecode_IsNotWellFormedError e); discriminate. }
  specialize (H Hconv). clear Hconv.
  by_evaluation H.
  destruct H as (d1 & params' & decoded' & prot & _ & _ & Hres & Halg & _).
  exists d1, params', decoded', prot. split; [exact Hres | exact Halg].
Defined.

(** The first of the two COSE_Signatures is taken, the second is
    left. *)
Lemma verify_short_consumes_one_element_witness :
  exists k c rest outer,
    levels (codec example_signatures_world) = (k, c :: rest) :: outer /\
    levels (codec (snd
      (t_cose_signature_verify_short example_verifier_context 0
         {| nesting := 1; index := 0 |} example_body_protected (UsefulBufC payload)
         (UsefulBufC []) example_storage [] example_signatures_world)))
    = (k, rest) :: outer /\
    rest = [example_cose_signature].
Proof.
  pose proof
    (verify_short_consumes_one_element example_verifier_context 0
       {| nesting := 1; index := 0 |} example_body_protected (UsefulBufC payload)
       (UsefulBufC []) example_storage [] example_signatures_world) as H.
  cbv zeta in H.
  by_evaluation H. by_evaluation H.
  destruct H as (k & c & rest & outer & Hbefore & Hafter).
  exists k, c, rest, outer. split; [exact Hbefore|]. split; [exact Hafter|].
  revert Hbefore. vm_compute. intros [= _ _ <- _]. reflexivity.
Defined.

Lemma stand_in_signature_length (key : Z) (hash : list Z) :
  length (stand_in_signature key hash) = 64%nat.
Proof.
  unfold stand_in_signature. rewrite length_firstn, length_app, repeat_length. lia.
Qed.

Lemma stand_in_es256_supported (key : Z) :
  @supported_algorithm stand_in_es256_crypto T_COSE_ALGORITHM_ES256 key.
Proof.
  split; [split; [discriminate | reflexivity]|]. split.
  - intros m. exists (SHA256.sha256 m). split; [reflexivity|].
    unfold len. rewrite sha256_length. discriminate.
  - intros kid tbs_hash _.
    exists (UsefulBufC (stand_in_signature key (ub_bytes tbs_hash))).
    split; [reflexivity|]. split.
    + unfold ub_len. cbn [ub_bytes]. rewrite stand_in_signature_length. reflexivity.
    + cbv [t_cose_crypto_verify stand_in_es256_crypto t_cose_algorithm_is_short_circuit
           adapter_verify].
      change (T_COSE_ALGORITHM_ES256 =? T_COSE_ALGORITHM_ES256) with true. cbv iota.
      now rewrite (proj2 (q_useful_buf_compare_zero_iff _ _)) by reflexivity.
Qed.

Lemma stand_in_es256_sig_size (key : Z) (tbs_hash signature : q_useful_buf_c) :
  @t_cose_crypto_sign stand_in_es256_crypto T_COSE_ALGORITHM_ES256 key tbs_hash
  = (T_COSE_SUCCESS, signature) ->
  ub_len signature = 64.
Proof.
  intros [= <-]. unfold ub_len. cbn [ub_bytes].
  now rewrite stand_in_signature_length.
Qed.

(** The test passes over the stand-in. *)
Lemma austere_test_passes_witness :
  @austere_test stand_in_es256_crypto (fun _ => (T_COSE_SUCCESS, 5)) 75 = 0.
Proof.
  apply (@austere_test_passes stand_in_es256_crypto (fun _ => (T_COSE_SUCCESS, 5)) 5 75
           eq_refl (stand_in_es256_supported 5) (stand_in_es256_sig_size 5)).
  lia.
Defined.
